(** * Metadata resolver of the Angular compiler

    A shallow embedding of
    [modules/@angular/compiler/src/metadata_resolver.ts]: the class
    [CompileMetadataResolver] with its four caches, and the free functions
    of the file.  JavaScript values are a first-order datatype, the
    resolver's fields are an explicit state threaded through a state and
    exception monad, and the injected collaborators (reflector, directive,
    pipe and view resolvers, the helpers imported from other files) are the
    fields of one record of parameters. *)

From stdpp Require Import base option list countable gmap strings pretty.
From Stdlib Require Import String Ascii Lia.

Local Open Scope string_scope.
Local Open Scope list_scope.

Scheme All for list.
Scheme All for option.
Scheme All for prod.

(** ** Values *)

(** The raw values the resolver inspects.  Each constructor is one of the
    shapes the source tells apart with [isArray], [isString], [isBlank],
    [instanceof] or [isStaticSymbol]; everything else is [VOther].
    Functions and opaque objects carry a number that stands for their
    identity. *)
Inductive value : Type :=
| VNull                                     (* null or undefined *)
| VString (s : string)
| VFunction (id : nat)                      (* a class or function: instanceof Type *)
| VForwardRef (target : value)              (* forwardRef(() => target) *)
| VStaticSymbol (name filePath : string)
| VArray (items : list value)
| VHostMetadata
| VSelfMetadata
| VSkipSelfMetadata
| VOptionalMetadata
| VAttributeMetadata (attributeName : value)
| VQueryMetadata (isViewQuery isVarBindingQuery : bool) (selector : value)
    (varBindings : list string) (first descendants : bool) (read : value)
| VInjectMetadata (token : value)
| VProvider (token useClass useValue useFactory useExisting : value)
    (dependencies : option (list value)) (multi : bool)
| VOther (id : nat).

(** Values are keys of the JavaScript [Map]s of the resolver; they are
    made countable through an encoding into stdpp's generic trees. *)
Module ValueKey.

Definition leaf : Type := (string + nat) + bool.
Definition lstr (s : string) : gen_tree leaf := GenLeaf (inl (inl s)).
Definition lnat (n : nat) : gen_tree leaf := GenLeaf (inl (inr n)).
Definition lbool (b : bool) : gen_tree leaf := GenLeaf (inr b).

Fixpoint enc (v : value) : gen_tree leaf :=
  match v with
  | VNull => GenNode 0 []
  | VString s => GenNode 1 [lstr s]
  | VFunction id => GenNode 2 [lnat id]
  | VForwardRef t => GenNode 3 [enc t]
  | VStaticSymbol n f => GenNode 4 [lstr n; lstr f]
  | VArray l => GenNode 5 (List.map enc l)
  | VHostMetadata => GenNode 6 []
  | VSelfMetadata => GenNode 7 []
  | VSkipSelfMetadata => GenNode 8 []
  | VOptionalMetadata => GenNode 9 []
  | VAttributeMetadata a => GenNode 10 [enc a]
  | VQueryMetadata vq vb sel names fst desc rd =>
      GenNode 11 [lbool vq; lbool vb; enc sel; GenNode 0 (List.map lstr names);
                  lbool fst; lbool desc; enc rd]
  | VInjectMetadata t => GenNode 12 [enc t]
  | VProvider t c v f e deps m =>
      GenNode 13 [enc t; enc c; enc v; enc f; enc e;
                  match deps with
                  | None => GenNode 0 []
                  | Some l => GenNode 1 (List.map enc l)
                  end;
                  lbool m]
  | VOther id => GenNode 14 [lnat id]
  end.

Definition dstr (t : gen_tree leaf) : string :=
  match t with GenLeaf (inl (inl s)) => s | _ => "" end.
Definition dnat (t : gen_tree leaf) : nat :=
  match t with GenLeaf (inl (inr n)) => n | _ => 0 end.
Definition dbool (t : gen_tree leaf) : bool :=
  match t with GenLeaf (inr b) => b | _ => false end.

Fixpoint dec (t : gen_tree leaf) : value :=
  match t with
  | GenNode 1 [s] => VString (dstr s)
  | GenNode 2 [n] => VFunction (dnat n)
  | GenNode 3 [t] => VForwardRef (dec t)
  | GenNode 4 [n; f] => VStaticSymbol (dstr n) (dstr f)
  | GenNode 5 l => VArray (List.map dec l)
  | GenNode 6 [] => VHostMetadata
  | GenNode 7 [] => VSelfMetadata
  | GenNode 8 [] => VSkipSelfMetadata
  | GenNode 9 [] => VOptionalMetadata
  | GenNode 10 [a] => VAttributeMetadata (dec a)
  | GenNode 11 [vq; vb; sel; GenNode 0 names; fst; desc; rd] =>
      VQueryMetadata (dbool vq) (dbool vb) (dec sel) (List.map dstr names)
        (dbool fst) (dbool desc) (dec rd)
  | GenNode 12 [t] => VInjectMetadata (dec t)
  | GenNode 13 [t; c; v; f; e; deps; m] =>
      VProvider (dec t) (dec c) (dec v) (dec f) (dec e)
        match deps with
        | GenNode 1 l => Some (List.map dec l)
        | _ => None
        end
        (dbool m)
  | GenNode 14 [n] => VOther (dnat n)
  | _ => VNull
  end.

Lemma map_dec_enc (l : list value) :
  list_all value (fun v => dec (enc v) = v) l ->
  List.map dec (List.map enc l) = l.
Proof.
  induction 1 as [|v Hv l _ IH]; simpl; [reflexivity|].
  now rewrite Hv, IH.
Qed.

Lemma map_dstr_lstr (l : list string) : List.map dstr (List.map lstr l) = l.
Proof. induction l as [|s l IH]; simpl; [reflexivity|]. now rewrite IH. Qed.

Lemma dec_enc (v : value) : dec (enc v) = v.
Proof.
  induction v as
    [ | | |t IHt| |l IHl| | | | |a IHa|vq vb sel IHsel names fst desc rd IHrd
    |t IHt|t IHt c IHc u IHu f IHf e IHe deps IHdeps m| ]; simpl;
    try reflexivity.
  - now rewrite IHt.
  - now rewrite map_dec_enc.
  - now rewrite IHa.
  - now rewrite IHsel, IHrd, map_dstr_lstr.
  - now rewrite IHt.
  - rewrite IHt, IHc, IHu, IHf, IHe.
    destruct IHdeps as [l Hl|]; [|reflexivity].
    now rewrite map_dec_enc.
Qed.

Lemma enc_inj (a b : value) : enc a = enc b -> a = b.
Proof. intros H. rewrite <- (dec_enc a), <- (dec_enc b). now rewrite H. Qed.

End ValueKey.

#[global] Instance value_eq_dec : EqDecision value.
Proof.
  intros a b.
  destruct (decide (ValueKey.enc a = ValueKey.enc b)) as [H|H].
  - left. exact (ValueKey.enc_inj a b H).
  - right. intros ->. now apply H.
Defined.

#[global] Instance value_countable : Countable value :=
  inj_countable' ValueKey.enc ValueKey.dec ValueKey.dec_enc.

(** ** The functions of other files that act on values *)

(** Modelled from the spec: [resolveForwardRef] of [@angular/core] is not
    part of this file.  A forward reference is "a lazily-resolved handle
    to a type", dereferenced "eagerly at first use": the handle yields its
    target, every other value is returned as it is. *)
Definition resolveForwardRef (type : value) : value :=
  match type with
  | VForwardRef target => target
  | _ => type
  end.

(** [isBlank], [isPresent], [isString], [isArray] of [facade/lang]. *)
Definition isBlank (obj : value) : bool :=
  match obj with VNull => true | _ => false end.
Definition isPresent (obj : value) : bool := negb (isBlank obj).
Definition isString (obj : value) : bool :=
  match obj with VString _ => true | _ => false end.
Definition isArray (obj : value) : bool :=
  match obj with VArray _ => true | _ => false end.

(** [cpl.isStaticSymbol]: an object with a [name] and a [filePath]. *)
Definition isStaticSymbol (v : value) : bool :=
  match v with VStaticSymbol _ _ => true | _ => false end.

(** [value instanceof Type], where [Type] is [Function]: classes,
    functions, and forward references, which are functions too. *)
Definition instanceofType (v : value) : bool :=
  match v with VFunction _ | VForwardRef _ => true | _ => false end.

(** [s.indexOf(sub)], and the double quote of the message templates. *)
Definition indexOf (s sub : string) : option nat := String.index 0 sub s.
Definition includes (s sub : string) : bool := bool_decide (is_Some (indexOf s sub)).
Definition dquote : string := String (ascii_of_nat 34) EmptyString.

(** [xs.join(sep)]. *)
Fixpoint join (sep : string) (xs : list string) : string :=
  match xs with
  | [] => ""
  | [x] => x
  | x :: rest => x +:+ sep +:+ join sep rest
  end.

(** ** Raw metadata read from the collaborators *)

(** [isVarBindingQuery] and [varBindings] are getters of the class, which
    computes them from the selector; here they are fields of their own,
    so that what is proved holds for every class with these fields. *)
Record QueryMetadata := mkQueryMetadata {
  q_isViewQuery : bool;
  q_isVarBindingQuery : bool;
  q_selector : value;
  q_varBindings : list string;
  q_first : bool;
  q_descendants : bool;
  q_read : value }.

Record Provider := mkProvider {
  p_token : value;
  p_useClass : value;
  p_useValue : value;
  p_useFactory : value;
  p_useExisting : value;
  p_dependencies : option (list value);
  p_multi : bool }.

(** [paramEntry instanceof QueryMetadata], [provider instanceof Provider]. *)
Definition asQueryMetadata (v : value) : option QueryMetadata :=
  match v with
  | VQueryMetadata vq vb sel names fst desc rd =>
      Some (mkQueryMetadata vq vb sel names fst desc rd)
  | _ => None
  end.
Definition asProvider (v : value) : option Provider :=
  match v with
  | VProvider t c u f e deps m => Some (mkProvider t c u f e deps m)
  | _ => None
  end.

(** The annotation of a module; a list field that is absent is [None]. *)
Record AppModuleMetadata := mkAppModuleMetadata {
  am_providers : option (list value);
  am_directives : option (list value);
  am_pipes : option (list value);
  am_precompile : option (list value);
  am_modules : option (list value) }.

(** What [reflector.annotations] lists: module annotations and others. *)
Inductive Annotation :=
| AnnAppModule (meta : AppModuleMetadata)
| AnnOther (v : value).

(** The animation nodes of [@angular/core].  [AnimationWithStepsMetadata]
    is a group when [group] is set and a sequence (or any other subclass)
    otherwise; [AnimationUnknown] is a value of none of these classes. *)
Record AnimationStyleMetadata := mkAnimationStyleMetadata {
  as_offset : value;
  as_styles : value }.

Inductive AnimationMetadata :=
| AnimationStyle (style : AnimationStyleMetadata)
| AnimationKeyframesSequence (steps : list AnimationStyleMetadata)
| AnimationAnimate (timings : value) (styles : AnimationMetadata)
| AnimationWithSteps (group : bool) (steps : list AnimationMetadata)
| AnimationUnknown (v : value).

Inductive AnimationStateMetadata :=
| AnimationStateDeclaration (stateNameExpr : string) (styles : AnimationStyleMetadata)
| AnimationStateTransition (stateChangeExpr : string) (steps : AnimationMetadata)
| AnimationStateUnknown (v : value).

Record AnimationEntryMetadata := mkAnimationEntryMetadata {
  ae_name : string;
  ae_definitions : list AnimationStateMetadata }.

(** The part of a directive annotation that only components have. *)
Record ComponentFields := mkComponentFields {
  cm_changeDetection : value;
  cm_viewProviders : option (list value);
  cm_moduleId : option string;
  cm_precompile : option (list value) }.

(** A directive annotation; [dm_component] is present when the annotation
    is an instance of [ComponentMetadata]. *)
Record DirectiveMetadata := mkDirectiveMetadata {
  dm_selector : value;
  dm_exportAs : value;
  dm_inputs : value;
  dm_outputs : value;
  dm_host : value;
  dm_providers : option (list value);
  dm_queries : option (list (string * QueryMetadata));
  dm_component : option ComponentFields }.

Record ViewMetadata := mkViewMetadata {
  vm_encapsulation : value;
  vm_template : value;
  vm_templateUrl : value;
  vm_styles : value;
  vm_styleUrls : value;
  vm_animations : option (list AnimationEntryMetadata);
  vm_interpolation : value;
  vm_directives : option (list value);
  vm_pipes : option (list value) }.

Record PipeMetadata := mkPipeMetadata {
  pm_name : value;
  pm_pure : value }.

Inductive LifecycleHooks :=
| OnInit | OnDestroy | DoCheck | OnChanges
| AfterContentInit | AfterContentChecked | AfterViewInit | AfterViewChecked.

(** ** Compile metadata ([compile_metadata.ts], imported as [cpl])

    Each record holds the arguments the source passes to the constructor
    of the class of the same name. *)

Record CompileIdentifierMetadata := mkCompileIdentifierMetadata {
  ci_runtime : value;
  ci_name : option string;
  ci_moduleUrl : option string }.

Inductive CompileTokenMetadata :=
| TokenValue (value : string)
| TokenIdentifier (identifier : CompileIdentifierMetadata).

Record CompileQueryMetadata := mkCompileQueryMetadata {
  cq_selectors : list CompileTokenMetadata;
  cq_first : bool;
  cq_descendants : bool;
  cq_propertyName : option string;
  cq_read : option CompileTokenMetadata }.

Record CompileDiDependencyMetadata := mkCompileDiDependencyMetadata {
  dep_isAttribute : bool;
  dep_isHost : bool;
  dep_isSelf : bool;
  dep_isSkipSelf : bool;
  dep_isOptional : bool;
  dep_query : option CompileQueryMetadata;
  dep_viewQuery : option CompileQueryMetadata;
  dep_token : CompileTokenMetadata }.

Record CompileTypeMetadata := mkCompileTypeMetadata {
  ct_name : string;
  ct_moduleUrl : option string;
  ct_runtime : value;
  ct_diDeps : list CompileDiDependencyMetadata }.

Record CompileFactoryMetadata := mkCompileFactoryMetadata {
  cf_name : string;
  cf_moduleUrl : option string;
  cf_runtime : value;
  cf_diDeps : list CompileDiDependencyMetadata }.

(** What [visitValue] builds from a [useValue]. *)
Inductive CompiledValue :=
| CVPrimitive (v : value)
| CVIdentifier (i : CompileIdentifierMetadata)
| CVArray (l : list CompiledValue)
| CVStringMap (l : list (string * CompiledValue)).

Record CompileProviderMetadata := mkCompileProviderMetadata {
  cp_token : CompileTokenMetadata;
  cp_useClass : option CompileTypeMetadata;
  cp_useValue : CompiledValue;
  cp_useFactory : option CompileFactoryMetadata;
  cp_useExisting : option CompileTokenMetadata;
  cp_deps : option (list CompileDiDependencyMetadata);
  cp_multi : bool }.

(** An element of the array [getProvidersMetadata] returns: its type is
    [Array<CompileProviderMetadata|CompileTypeMetadata|any[]>]. *)
Inductive ProvidersEntry :=
| EntryProvider (p : CompileProviderMetadata)
| EntryType (t : CompileTypeMetadata)
| EntryArray (l : list ProvidersEntry).

Record CompileAnimationStyleMetadata := mkCompileAnimationStyleMetadata {
  cas_offset : value;
  cas_styles : value }.

(** Steps hold [option]s: a step that is not recognised is [null]. *)
Inductive CompileAnimationMetadata :=
| CompileAnimationStyle (style : CompileAnimationStyleMetadata)
| CompileAnimationKeyframesSequence (steps : list CompileAnimationStyleMetadata)
| CompileAnimationAnimate (timings : value) (styles : option CompileAnimationMetadata)
| CompileAnimationGroup (steps : list (option CompileAnimationMetadata))
| CompileAnimationSequence (steps : list (option CompileAnimationMetadata)).

Inductive CompileAnimationStateMetadata :=
| CompileAnimationStateDeclaration (stateNameExpr : string)
    (styles : CompileAnimationStyleMetadata)
| CompileAnimationStateTransition (stateChangeExpr : string)
    (steps : option CompileAnimationMetadata).

Record CompileAnimationEntryMetadata := mkCompileAnimationEntryMetadata {
  cae_name : string;
  cae_definitions : list (option CompileAnimationStateMetadata) }.

Record CompileTemplateMetadata := mkCompileTemplateMetadata {
  tm_encapsulation : value;
  tm_template : value;
  tm_templateUrl : value;
  tm_styles : value;
  tm_styleUrls : value;
  tm_animations : option (list CompileAnimationEntryMetadata);
  tm_interpolation : value }.

(** The three cached kinds of metadata are JavaScript objects; [objectId]
    is the identity of the object: the number of metadata objects that had
    been allocated when it was created. *)
Record CompileDirectiveMetadata := mkCompileDirectiveMetadata {
  cd_objectId : nat;
  cd_selector : value;
  cd_exportAs : value;
  cd_isComponent : bool;
  cd_type : CompileTypeMetadata;
  cd_template : option CompileTemplateMetadata;
  cd_changeDetection : value;
  cd_inputs : value;
  cd_outputs : value;
  cd_host : value;
  cd_lifecycleHooks : list LifecycleHooks;
  cd_providers : list ProvidersEntry;
  cd_viewProviders : list ProvidersEntry;
  cd_queries : list CompileQueryMetadata;
  cd_viewQueries : list CompileQueryMetadata;
  cd_precompile : list CompileTypeMetadata }.

Record CompilePipeMetadata := mkCompilePipeMetadata {
  cpm_objectId : nat;
  cpm_type : CompileTypeMetadata;
  cpm_name : value;
  cpm_pure : value;
  cpm_lifecycleHooks : list LifecycleHooks }.

Record CompileAppModuleMetadata := mkCompileAppModuleMetadata {
  cam_objectId : nat;
  cam_type : CompileTypeMetadata;
  cam_providers : list ProvidersEntry;
  cam_directives : list CompileTypeMetadata;
  cam_pipes : list CompileTypeMetadata;
  cam_precompile : list CompileTypeMetadata;
  cam_modules : list CompileTypeMetadata }.

(** ** Exceptions, and the resolver's state *)

(** The source throws [BaseException]s only.  [StackOverflow] is raised
    by the embedding when the budget of nested calls of
    [getAppModuleMetadata] runs out. *)
Inductive Exception :=
| BaseException (message : string)
| StackOverflow.

Definition message (e : Exception) : string :=
  match e with
  | BaseException m => m
  | StackOverflow => "Maximum call stack size exceeded"
  end.

Inductive Result (A : Type) :=
| Ok (a : A)
| Throw (e : Exception).
Arguments Ok {A} a.
Arguments Throw {A} e.

(** The private fields of [CompileMetadataResolver], with the count of
    the metadata objects allocated so far.  The keys of a [Map] are
    compared by identity in JavaScript, and by equality of values here:
    two functions or objects are the same key when their numbers are.
    [_anonymousTypeIndex] is a number that only counts up from 0, a [nat]
    here. *)
Record Resolver := mkResolver {
  _directiveCache : gmap value CompileDirectiveMetadata;
  _pipeCache : gmap value CompilePipeMetadata;
  _appModuleCache : gmap value CompileAppModuleMetadata;
  _anonymousTypes : gmap value nat;
  _anonymousTypeIndex : nat;
  allocated : nat }.

(** The state of [new CompileMetadataResolver(...)]. *)
Definition newResolver : Resolver :=
  {| _directiveCache := ∅; _pipeCache := ∅; _appModuleCache := ∅;
     _anonymousTypes := ∅; _anonymousTypeIndex := 0; allocated := 0 |}.

(** A method is a function of the resolver that returns or throws, and
    leaves the resolver in a new state in both cases. *)
Definition M (A : Type) : Type := Resolver -> Result A * Resolver.

Definition ret {A} (a : A) : M A := fun s => (Ok a, s).
Definition throw {A} (e : Exception) : M A := fun s => (Throw e, s).
Definition bind {A B} (m : M A) (f : A -> M B) : M B :=
  fun s => match m s with
           | (Ok a, s') => f a s'
           | (Throw e, s') => (Throw e, s')
           end.
Definition gets {A} (f : Resolver -> A) : M A := fun s => (Ok (f s), s).
Definition modify (f : Resolver -> Resolver) : M unit := fun s => (Ok tt, f s).
(** A call of a collaborator, which returns or throws. *)
Definition call {A} (r : Result A) : M A := fun s => (r, s).

Declare Scope resolver_scope.
Delimit Scope resolver_scope with resolver.
Notation "x <- m ;; k" := (bind m (fun x => k))
  (at level 100, m at next level, right associativity) : resolver_scope.
Notation "m ;;; k" := (bind m (fun _ => k))
  (at level 100, right associativity) : resolver_scope.
Local Open Scope resolver_scope.

(** [xs.map(f)] for an [f] that may throw or change the resolver. *)
Definition mapM {A B} (f : A -> M B) : list A -> M (list B) :=
  fix go (xs : list A) : M (list B) :=
    match xs with
    | [] => ret []
    | x :: rest => y <- f x ;; ys <- go rest ;; ret (y :: ys)
    end.

(** [xs.forEach(x => ...)] for a body that updates local variables [acc]. *)
Definition forEachM {A B} (f : B -> A -> M B) : list A -> B -> M B :=
  fix go (xs : list A) (acc : B) : M B :=
    match xs with
    | [] => ret acc
    | x :: rest => acc' <- f acc x ;; go rest acc'
    end.

(** ** The collaborators

    What the file imports or is given and does not define: the helpers of
    [facade/lang], [util], [assertions], [url_resolver], [core_private]
    and [directive_lifecycle_reflector], the three annotation resolvers
    and the configuration injected in the constructor, and the
    reflector. *)
Record Collaborators := mkCollaborators {
  (* facade/lang: [stringify] of a raw value, and of a compiled token *)
  stringify : value -> string;
  stringifyToken : CompileTokenMetadata -> string;
  (* util *)
  sanitizeIdentifier : string -> string;
  visitValue : (value -> CompileIdentifierMetadata) -> value -> CompiledValue;
  MODULE_SUFFIX : string;
  (* url_resolver *)
  getUrlScheme : string -> option string;
  (* assertions: they return, or throw *)
  assertArrayOfStrings : string -> value -> Result unit;
  assertInterpolationSymbols : string -> value -> Result unit;
  (* core_private and directive_lifecycle_reflector *)
  LIFECYCLE_HOOKS_VALUES : list LifecycleHooks;
  hasLifecycleHook : LifecycleHooks -> value -> bool;
  isProviderLiteral : value -> bool;
  createProvider : value -> Provider;
  (* [resolve] of the three injected resolvers: it returns, or throws *)
  _directiveResolver : value -> Result DirectiveMetadata;
  _pipeResolver : value -> Result PipeMetadata;
  _viewResolver : value -> Result ViewMetadata;
  (* the fields of [_config] that are read *)
  platformDirectives : option (list value);
  platformPipes : option (list value);
  (* the methods of [_reflector]; [parameters] may yield null *)
  annotations : value -> list Annotation;
  parameters : value -> option (list value);
  importUri : value -> string }.

(** [try { m } catch (e) { h e }]. *)
Definition catch {A} (m : M A) (h : Exception -> M A) : M A :=
  fun s => match m s with
           | (Ok a, s') => (Ok a, s')
           | (Throw e, s') => h e s'
           end.

(** Updates of the fields of the resolver. *)
Definition with_directiveCache (f : gmap value CompileDirectiveMetadata ->
    gmap value CompileDirectiveMetadata) (s : Resolver) : Resolver :=
  mkResolver (f (_directiveCache s)) (_pipeCache s) (_appModuleCache s)
    (_anonymousTypes s) (_anonymousTypeIndex s) (allocated s).
Definition with_pipeCache (f : gmap value CompilePipeMetadata ->
    gmap value CompilePipeMetadata) (s : Resolver) : Resolver :=
  mkResolver (_directiveCache s) (f (_pipeCache s)) (_appModuleCache s)
    (_anonymousTypes s) (_anonymousTypeIndex s) (allocated s).
Definition with_appModuleCache (f : gmap value CompileAppModuleMetadata ->
    gmap value CompileAppModuleMetadata) (s : Resolver) : Resolver :=
  mkResolver (_directiveCache s) (_pipeCache s) (f (_appModuleCache s))
    (_anonymousTypes s) (_anonymousTypeIndex s) (allocated s).

(** [this._anonymousTypes.set(token, this._anonymousTypeIndex++)]. *)
Definition registerAnonymous (token : value) (s : Resolver) : Resolver :=
  mkResolver (_directiveCache s) (_pipeCache s) (_appModuleCache s)
    (<[token := _anonymousTypeIndex s]> (_anonymousTypes s))
    (S (_anonymousTypeIndex s)) (allocated s).

(** [new] of a metadata object: its identity is the next free number. *)
Definition allocate : M nat :=
  fun s => (Ok (allocated s),
            mkResolver (_directiveCache s) (_pipeCache s) (_appModuleCache s)
              (_anonymousTypes s) (_anonymousTypeIndex s) (S (allocated s))).

(** ** The free functions of the file *)

Definition isValidType (v : value) : bool :=
  isStaticSymbol v || instanceofType v.

Definition staticTypeModuleUrl (v : value) : option string :=
  match v with
  | VStaticSymbol _ filePath => Some filePath
  | _ => None
  end.

(** The body of the loop of [flattenArray], then the loop. *)
Fixpoint flattenItem (x : value) (out : list value) {struct x} : list value :=
  match resolveForwardRef x with
  | VArray items => fold_left (fun o y => flattenItem y o) items out
  | item => out ++ [item]
  end.

Definition flattenArray (tree : list value) (out : list value) : list value :=
  fold_left (fun o y => flattenItem y o) tree out.

Definition flattenDirectives (view : ViewMetadata)
    (platformDirectives : option (list value)) : list value :=
  let directives := [] in
  let directives := match platformDirectives with
                    | Some l => flattenArray l directives
                    | None => directives
                    end in
  match vm_directives view with
  | Some l => flattenArray l directives
  | None => directives
  end.

Definition flattenPipes (view : ViewMetadata)
    (platformPipes : option (list value)) : list value :=
  let pipes := [] in
  let pipes := match platformPipes with
               | Some l => flattenArray l pipes
               | None => pipes
               end in
  match vm_pipes view with
  | Some l => flattenArray l pipes
  | None => pipes
  end.

(** The first index [i] of the loops [for (i ...) if (!ok(xs[i])) throw]. *)
Definition firstThat {A} (bad : A -> bool) (xs : list A) : option A :=
  List.find bad xs.

Section Resolver.

Variable E : Collaborators.

Definition verifyNonBlankProviders (directiveType : value)
    (providersTree : list value) (providersType : string) : Result (list value) :=
  let flat := flattenArray providersTree [] in
  match firstThat isBlank flat with
  | Some _ =>
      let errMsg :=
        join ", " (List.map (fun provider =>
          if isBlank provider then "?" else stringify E provider) flat) in
      Throw (BaseException
        ("One or more of " +:+ providersType +:+ " for " +:+ dquote +:+
         stringify E directiveType +:+ dquote +:+ " were not defined: [" +:+
         errMsg +:+ "]."))
  | None => Ok providersTree
  end.

Definition componentModuleUrl (type : value) (cmpMetadata : ComponentFields)
    : option string :=
  if isStaticSymbol type then staticTypeModuleUrl type
  else match cm_moduleId cmpMetadata with
       | Some moduleId =>
           match getUrlScheme E moduleId with
           | Some scheme =>
               if bool_decide (0 < String.length scheme) then Some moduleId
               else Some ("package:" +:+ moduleId +:+ MODULE_SUFFIX E)
           | None => Some ("package:" +:+ moduleId +:+ MODULE_SUFFIX E)
           end
       | None => Some (importUri E type)
       end.

(** [_CompileValueConverter.visitOther], and [convertToCompileValue]. *)
Definition visitOther (v : value) : CompileIdentifierMetadata :=
  match v with
  | VStaticSymbol name filePath =>
      mkCompileIdentifierMetadata VNull (Some name) (Some filePath)
  | _ => mkCompileIdentifierMetadata v None None
  end.

Definition convertToCompileValue (v : value) : CompiledValue :=
  visitValue E visitOther v.

(** ** Animation metadata *)

Definition getAnimationStyleMetadata (v : AnimationStyleMetadata)
    : CompileAnimationStyleMetadata :=
  mkCompileAnimationStyleMetadata (as_offset v) (as_styles v).

Fixpoint getAnimationMetadata (v : AnimationMetadata)
    : option CompileAnimationMetadata :=
  match v with
  | AnimationStyle style =>
      Some (CompileAnimationStyle (getAnimationStyleMetadata style))
  | AnimationKeyframesSequence steps =>
      Some (CompileAnimationKeyframesSequence
              (List.map getAnimationStyleMetadata steps))
  | AnimationAnimate timings styles =>
      let animateData := getAnimationMetadata styles in
      Some (CompileAnimationAnimate timings animateData)
  | AnimationWithSteps group steps =>
      let steps := List.map getAnimationMetadata steps in
      if group then Some (CompileAnimationGroup steps)
      else Some (CompileAnimationSequence steps)
  | AnimationUnknown _ => None
  end.

Definition getAnimationStateMetadata (v : AnimationStateMetadata)
    : option CompileAnimationStateMetadata :=
  match v with
  | AnimationStateDeclaration stateNameExpr styles =>
      let styles := getAnimationStyleMetadata styles in
      Some (CompileAnimationStateDeclaration stateNameExpr styles)
  | AnimationStateTransition stateChangeExpr steps =>
      Some (CompileAnimationStateTransition stateChangeExpr
              (getAnimationMetadata steps))
  | AnimationStateUnknown _ => None
  end.

Definition getAnimationEntryMetadata (entry : AnimationEntryMetadata)
    : CompileAnimationEntryMetadata :=
  let defs := List.map getAnimationStateMetadata (ae_definitions entry) in
  mkCompileAnimationEntryMetadata (ae_name entry) defs.

(** ** Tokens and names *)

(** The text of [`${found}`] for the result of [Map.get]. *)
Definition showFound (found : option nat) : string :=
  match found with
  | Some n => pretty n
  | None => "undefined"
  end.

Definition sanitizeTokenName (token : value) : M string :=
  let identifier := stringify E token in
  if includes identifier "(" then
    found <- gets (fun s => _anonymousTypes s !! token) ;;
    found <- match found with
             | None =>
                 modify (registerAnonymous token) ;;;
                 gets (fun s => _anonymousTypes s !! token)
             | Some _ => ret found
             end ;;
    let identifier := "anonymous_token_" +:+ showFound found +:+ "_" in
    ret (sanitizeIdentifier E identifier)
  else ret (sanitizeIdentifier E identifier).

Definition clearCacheFor (type : value) : M unit :=
  modify (with_directiveCache (delete type)) ;;;
  modify (with_pipeCache (delete type)) ;;;
  modify (with_appModuleCache (delete type)).

Definition clearCache : M unit :=
  modify (with_directiveCache (fun _ => ∅)) ;;;
  modify (with_pipeCache (fun _ => ∅)) ;;;
  modify (with_appModuleCache (fun _ => ∅)).

Definition getTokenMetadata (token : value) : M CompileTokenMetadata :=
  let token := resolveForwardRef token in
  match token with
  | VString s => ret (TokenValue s)
  | _ =>
      name <- sanitizeTokenName token ;;
      ret (TokenIdentifier
             (mkCompileIdentifierMetadata token (Some name)
                (staticTypeModuleUrl token)))
  end.

(** The text of a property name in a message: [null] when absent. *)
Definition showPropertyName (propertyName : option string) : string :=
  match propertyName with Some p => p | None => "null" end.

Definition getQueryMetadata (q : QueryMetadata) (propertyName : option string)
    (typeOrFunc : value) : M CompileQueryMetadata :=
  selectors <-
    (if q_isVarBindingQuery q then
       mapM (fun varName => getTokenMetadata (VString varName)) (q_varBindings q)
     else if negb (isPresent (q_selector q)) then
       throw (BaseException
         ("Can't construct a query for the property " +:+ dquote +:+
          showPropertyName propertyName +:+ dquote +:+ " of " +:+ dquote +:+
          stringify E typeOrFunc +:+ dquote +:+
          " since the query selector wasn't defined."))
     else
       t <- getTokenMetadata (q_selector q) ;; ret [t]) ;;
  read <- (if isPresent (q_read q)
           then t <- getTokenMetadata (q_read q) ;; ret (Some t)
           else ret None) ;;
  ret (mkCompileQueryMetadata selectors (q_first q) (q_descendants q)
         propertyName read).

Definition getQueriesMetadata (queries : list (string * QueryMetadata))
    (isViewQuery : bool) (directiveType : value) : M (list CompileQueryMetadata) :=
  forEachM (fun compileQueries entry =>
      let propertyName := fst entry in
      let query := snd entry in
      if Bool.eqb (q_isViewQuery query) isViewQuery then
        q <- getQueryMetadata query (Some propertyName) directiveType ;;
        ret (compileQueries ++ [q])
      else ret compileQueries)
    queries [].

(** ** Dependencies *)

(** The local variables of the callback of [params.map] in
    [getDependenciesMetadata]. *)
Record ParamScan := mkParamScan {
  isAttribute : bool;
  isHost : bool;
  isSelf : bool;
  isSkipSelf : bool;
  isOptional : bool;
  query : option QueryMetadata;
  viewQuery : option QueryMetadata;
  token : value }.

Definition scanStart : ParamScan :=
  mkParamScan false false false false false None None VNull.

(** The body of [param.forEach((paramEntry) => ...)]. *)
Definition scanEntry (sc : ParamScan) (paramEntry : value) : ParamScan :=
  match paramEntry with
  | VHostMetadata =>
      mkParamScan (isAttribute sc) true (isSelf sc) (isSkipSelf sc)
        (isOptional sc) (query sc) (viewQuery sc) (token sc)
  | VSelfMetadata =>
      mkParamScan (isAttribute sc) (isHost sc) true (isSkipSelf sc)
        (isOptional sc) (query sc) (viewQuery sc) (token sc)
  | VSkipSelfMetadata =>
      mkParamScan (isAttribute sc) (isHost sc) (isSelf sc) true
        (isOptional sc) (query sc) (viewQuery sc) (token sc)
  | VOptionalMetadata =>
      mkParamScan (isAttribute sc) (isHost sc) (isSelf sc) (isSkipSelf sc)
        true (query sc) (viewQuery sc) (token sc)
  | VAttributeMetadata attributeName =>
      mkParamScan true (isHost sc) (isSelf sc) (isSkipSelf sc)
        (isOptional sc) (query sc) (viewQuery sc) attributeName
  | VQueryMetadata vq vb sel names fst desc rd =>
      let q := mkQueryMetadata vq vb sel names fst desc rd in
      if q_isViewQuery q then
        mkParamScan (isAttribute sc) (isHost sc) (isSelf sc) (isSkipSelf sc)
          (isOptional sc) (query sc) (Some q) (token sc)
      else
        mkParamScan (isAttribute sc) (isHost sc) (isSelf sc) (isSkipSelf sc)
          (isOptional sc) (Some q) (viewQuery sc) (token sc)
  | VInjectMetadata t =>
      mkParamScan (isAttribute sc) (isHost sc) (isSelf sc) (isSkipSelf sc)
        (isOptional sc) (query sc) (viewQuery sc) t
  | _ =>
      if isValidType paramEntry && isBlank (token sc) then
        mkParamScan (isAttribute sc) (isHost sc) (isSelf sc) (isSkipSelf sc)
          (isOptional sc) (query sc) (viewQuery sc) paramEntry
      else sc
  end.

(** The variables after the scan of one parameter. *)
Definition scanParam (param : value) : ParamScan :=
  match param with
  | VArray entries => fold_left scanEntry entries scanStart
  | _ => mkParamScan false false false false false None None param
  end.

(** The callback of [params.map]: [hasUnknownDeps] is the variable of
    the enclosing function, which the callback may set. *)
Definition resolveParam (typeOrFunc : value) (hasUnknownDeps : bool)
    (param : value) : M (option CompileDiDependencyMetadata * bool) :=
  let sc := scanParam param in
  if isBlank (token sc) then ret (None, true)
  else
    q <- match query sc with
         | Some q => r <- getQueryMetadata q None typeOrFunc ;; ret (Some r)
         | None => ret None
         end ;;
    vq <- match viewQuery sc with
          | Some q => r <- getQueryMetadata q None typeOrFunc ;; ret (Some r)
          | None => ret None
          end ;;
    t <- getTokenMetadata (token sc) ;;
    ret (Some (mkCompileDiDependencyMetadata (isAttribute sc) (isHost sc)
                 (isSelf sc) (isSkipSelf sc) (isOptional sc) q vq t),
         hasUnknownDeps).

Fixpoint mapParams (typeOrFunc : value) (params : list value)
    (hasUnknownDeps : bool)
    : M (list (option CompileDiDependencyMetadata) * bool) :=
  match params with
  | [] => ret ([], hasUnknownDeps)
  | param :: rest =>
      r <- resolveParam typeOrFunc hasUnknownDeps param ;;
      rs <- mapParams typeOrFunc rest (snd r) ;;
      ret (fst r :: fst rs, snd rs)
  end.

(** The tokens of the message of an unresolved parameter list. *)
Definition depsTokens (dependenciesMetadata : list (option CompileDiDependencyMetadata))
    : string :=
  join ", " (List.map (fun dep =>
    match dep with
    | Some dep => stringifyToken E (dep_token dep)
    | None => "?"
    end) dependenciesMetadata).

(** The elements of a list none of which is [null]. *)
Definition present {A} (xs : list (option A)) : list A :=
  omap id xs.

Definition getDependenciesMetadata (typeOrFunc : value)
    (dependencies : option (list value)) : M (list CompileDiDependencyMetadata) :=
  let hasUnknownDeps := false in
  let params := match dependencies with
                | Some deps => Some deps
                | None => parameters E typeOrFunc
                end in
  let params := match params with Some ps => ps | None => [] end in
  r <- mapParams typeOrFunc params hasUnknownDeps ;;
  let dependenciesMetadata := fst r in
  if snd r then
    throw (BaseException
      ("Can't resolve all parameters for " +:+ stringify E typeOrFunc +:+
       ": (" +:+ depsTokens dependenciesMetadata +:+ ")."))
  else ret (present dependenciesMetadata).

Definition getTypeMetadata (type : value) (moduleUrl : option string)
    (dependencies : option (list value)) : M CompileTypeMetadata :=
  let type := resolveForwardRef type in
  name <- sanitizeTokenName type ;;
  diDeps <- getDependenciesMetadata type dependencies ;;
  ret (mkCompileTypeMetadata name moduleUrl type diDeps).

Definition getFactoryMetadata (factory : value) (moduleUrl : option string)
    (dependencies : option (list value)) : M CompileFactoryMetadata :=
  let factory := resolveForwardRef factory in
  name <- sanitizeTokenName factory ;;
  diDeps <- getDependenciesMetadata factory dependencies ;;
  ret (mkCompileFactoryMetadata name moduleUrl factory diDeps).

(** ** Providers *)

Definition getProviderMetadata (provider : Provider) : M CompileProviderMetadata :=
  r <- (if isPresent (p_useClass provider) then
          t <- getTypeMetadata (p_useClass provider)
                 (staticTypeModuleUrl (p_useClass provider))
                 (p_dependencies provider) ;;
          ret (Some (ct_diDeps t), Some t, None)
        else if isPresent (p_useFactory provider) then
          f <- getFactoryMetadata (p_useFactory provider)
                 (staticTypeModuleUrl (p_useFactory provider))
                 (p_dependencies provider) ;;
          ret (Some (cf_diDeps f), None, Some f)
        else ret (None, None, None)) ;;
  let compileDeps := fst (fst r) in
  let compileTypeMetadata := snd (fst r) in
  let compileFactoryMetadata := snd r in
  t <- getTokenMetadata (p_token provider) ;;
  useExisting <- (if isPresent (p_useExisting provider)
                  then e <- getTokenMetadata (p_useExisting provider) ;; ret (Some e)
                  else ret None) ;;
  ret (mkCompileProviderMetadata t compileTypeMetadata
         (convertToCompileValue (p_useValue provider)) compileFactoryMetadata
         useExisting compileDeps (p_multi provider)).

(** The cases of the callback of [providers.map] for a [provider] that
    is no array. *)
Definition resolveLeaf (provider : value) : M ProvidersEntry :=
  match asProvider provider with
  | Some p => m <- getProviderMetadata p ;; ret (EntryProvider m)
  | None =>
      if isProviderLiteral E provider then
        m <- getProviderMetadata (createProvider E provider) ;;
        ret (EntryProvider m)
      else if isValidType provider then
        t <- getTypeMetadata provider (staticTypeModuleUrl provider) None ;;
        ret (EntryType t)
      else
        throw (BaseException
          ("Invalid provider - only instances of Provider and Type are allowed, got: "
           +:+ stringify E provider))
  end.

(** The callback of [providers.map] in [getProvidersMetadata]; in its
    first case it calls [getProvidersMetadata] on the nested array. *)
Fixpoint resolveProvider (provider : value) {struct provider} : M ProvidersEntry :=
  match resolveForwardRef provider with
  | VArray items =>
      l <- mapM resolveProvider items ;; ret (EntryArray l)
  | provider => resolveLeaf provider
  end.

Definition getProvidersMetadata (providers : list value) : M (list ProvidersEntry) :=
  mapM resolveProvider providers.

(** ** Directives and pipes *)

Definition lifecycleHooksOf (type : value) : list LifecycleHooks :=
  List.filter (fun hook => hasLifecycleHook E hook type) (LIFECYCLE_HOOKS_VALUES E).

(** The block of [getDirectiveMetadata] that runs when the annotation is
    a [ComponentMetadata]; it yields the new values of [templateMeta],
    [changeDetectionStrategy], [viewProviders], [moduleUrl] and
    [precompileTypes]. *)
Definition componentPart (directiveType : value) (cmpMeta : ComponentFields)
    : M (option CompileTemplateMetadata * value * list ProvidersEntry *
         option string * list CompileTypeMetadata) :=
  viewMeta <- call (_viewResolver E directiveType) ;;
  call (assertArrayOfStrings E "styles" (vm_styles viewMeta)) ;;;
  call (assertInterpolationSymbols E "interpolation" (vm_interpolation viewMeta)) ;;;
  let animations :=
    match vm_animations viewMeta with
    | Some l => Some (List.map getAnimationEntryMetadata l)
    | None => None
    end in
  call (assertArrayOfStrings E "styles" (vm_styles viewMeta)) ;;;
  call (assertArrayOfStrings E "styleUrls" (vm_styleUrls viewMeta)) ;;;
  let templateMeta :=
    mkCompileTemplateMetadata (vm_encapsulation viewMeta) (vm_template viewMeta)
      (vm_templateUrl viewMeta) (vm_styles viewMeta) (vm_styleUrls viewMeta)
      animations (vm_interpolation viewMeta) in
  let changeDetectionStrategy := cm_changeDetection cmpMeta in
  viewProviders <-
    match cm_viewProviders cmpMeta with
    | Some vp =>
        tree <- call (verifyNonBlankProviders directiveType vp "viewProviders") ;;
        getProvidersMetadata tree
    | None => ret []
    end ;;
  let moduleUrl := componentModuleUrl directiveType cmpMeta in
  precompileTypes <-
    match cm_precompile cmpMeta with
    | Some pc =>
        mapM (fun cmp => getTypeMetadata cmp (staticTypeModuleUrl cmp) None)
          (flattenArray pc [])
    | None => ret []
    end ;;
  ret (Some templateMeta, changeDetectionStrategy, viewProviders, moduleUrl,
       precompileTypes).

Definition getDirectiveMetadata (directiveType : value) : M CompileDirectiveMetadata :=
  let directiveType := resolveForwardRef directiveType in
  meta <- gets (fun s => _directiveCache s !! directiveType) ;;
  match meta with
  | Some meta => ret meta
  | None =>
      dirMeta <- call (_directiveResolver E directiveType) ;;
      c <- match dm_component dirMeta with
           | Some cmpMeta => componentPart directiveType cmpMeta
           | None => ret (None, VNull, [], staticTypeModuleUrl directiveType, [])
           end ;;
      let '(templateMeta, changeDetectionStrategy, viewProviders, moduleUrl,
            precompileTypes) := c in
      providers <-
        match dm_providers dirMeta with
        | Some ps =>
            tree <- call (verifyNonBlankProviders directiveType ps "providers") ;;
            getProvidersMetadata tree
        | None => ret []
        end ;;
      qs <- match dm_queries dirMeta with
            | Some qm =>
                queries <- getQueriesMetadata qm false directiveType ;;
                viewQueries <- getQueriesMetadata qm true directiveType ;;
                ret (queries, viewQueries)
            | None => ret ([], [])
            end ;;
      type <- getTypeMetadata directiveType moduleUrl None ;;
      objectId <- allocate ;;
      let meta :=
        mkCompileDirectiveMetadata objectId (dm_selector dirMeta)
          (dm_exportAs dirMeta) (bool_decide (is_Some templateMeta)) type
          templateMeta changeDetectionStrategy (dm_inputs dirMeta)
          (dm_outputs dirMeta) (dm_host dirMeta) (lifecycleHooksOf directiveType)
          providers viewProviders (fst qs) (snd qs) precompileTypes in
      modify (with_directiveCache (insert directiveType meta)) ;;;
      ret meta
  end.

(** [e.message.indexOf('No Directive annotation') !== -1]. *)
Definition isNoDirectiveAnnotation (e : Exception) : bool :=
  includes (message e) "No Directive annotation".

Definition maybeGetDirectiveMetadata (someType : value)
    : M (option CompileDirectiveMetadata) :=
  catch (m <- getDirectiveMetadata someType ;; ret (Some m))
        (fun e => if isNoDirectiveAnnotation e then ret None else throw e).

Definition getPipeMetadata (pipeType : value) : M CompilePipeMetadata :=
  let pipeType := resolveForwardRef pipeType in
  meta <- gets (fun s => _pipeCache s !! pipeType) ;;
  match meta with
  | Some meta => ret meta
  | None =>
      pipeMeta <- call (_pipeResolver E pipeType) ;;
      type <- getTypeMetadata pipeType (staticTypeModuleUrl pipeType) None ;;
      objectId <- allocate ;;
      let meta := mkCompilePipeMetadata objectId type (pm_name pipeMeta)
                    (pm_pure pipeMeta) (lifecycleHooksOf pipeType) in
      modify (with_pipeCache (insert pipeType meta)) ;;;
      ret meta
  end.

Definition getViewDirectivesMetadata (component : value)
    : M (list CompileDirectiveMetadata) :=
  view <- call (_viewResolver E component) ;;
  let directives := flattenDirectives view (platformDirectives E) in
  match firstThat (fun d => negb (isValidType d)) directives with
  | Some d =>
      throw (BaseException
        ("Unexpected directive value '" +:+ stringify E d +:+
         "' on the View of component '" +:+ stringify E component +:+ "'"))
  | None => mapM getDirectiveMetadata directives
  end.

Definition getViewPipesMetadata (component : value) : M (list CompilePipeMetadata) :=
  view <- call (_viewResolver E component) ;;
  let pipes := flattenPipes view (platformPipes E) in
  match firstThat (fun p => negb (isValidType p)) pipes with
  | Some p =>
      throw (BaseException
        ("Unexpected piped value '" +:+ stringify E p +:+
         "' on the View of component '" +:+ stringify E component +:+ "'"))
  | None => mapM getPipeMetadata pipes
  end.

(** ** Modules *)

(** [annotations.find((meta) => meta instanceof AppModuleMetadata)]. *)
Fixpoint findAppModule (anns : list Annotation) : option AppModuleMetadata :=
  match anns with
  | [] => None
  | AnnAppModule meta :: _ => Some meta
  | AnnOther _ :: rest => findAppModule rest
  end.

(** The five arrays [getAppModuleMetadata] fills. *)
Record ModuleLists := mkModuleLists {
  ml_providers : list ProvidersEntry;
  ml_directives : list CompileTypeMetadata;
  ml_pipes : list CompileTypeMetadata;
  ml_precompile : list CompileTypeMetadata;
  ml_modules : list CompileTypeMetadata }.

(** The pushes of the body of [flattenArray(meta.modules).forEach]. *)
Definition pushModule (acc : ModuleLists) (meta : CompileAppModuleMetadata)
    : ModuleLists :=
  mkModuleLists
    (ml_providers acc ++ cam_providers meta)
    (ml_directives acc ++ cam_directives meta)
    (ml_pipes acc ++ cam_pipes meta)
    (ml_precompile acc ++ cam_precompile meta)
    ((ml_modules acc ++ [cam_type meta]) ++ cam_modules meta).

Definition typesMetadata (types : option (list value)) : M (list CompileTypeMetadata) :=
  match types with
  | Some l =>
      mapM (fun type => getTypeMetadata type (staticTypeModuleUrl type) None)
        (flattenArray l [])
  | None => ret []
  end.

(** [fuel] bounds the depth of the nested calls; [meta] is the optional
    second argument. *)
Fixpoint getAppModuleMetadata (fuel : nat) (moduleType : value)
    (meta : option AppModuleMetadata) {struct fuel} : M CompileAppModuleMetadata :=
  match fuel with
  | 0 => throw StackOverflow
  | S fuel =>
      let useCache := negb (bool_decide (is_Some meta)) in
      let moduleType := resolveForwardRef moduleType in
      compileMeta <- gets (fun s => _appModuleCache s !! moduleType) ;;
      match compileMeta, useCache with
      | Some compileMeta, true => ret compileMeta
      | _, _ =>
          let meta := match meta with
                      | Some meta => Some meta
                      | None => findAppModule (annotations E moduleType)
                      end in
          match meta with
          | None =>
              throw (BaseException
                ("Could not compile '" +:+ stringify E moduleType +:+
                 "' because it is not an AppModule."))
          | Some meta =>
              providers <- match am_providers meta with
                           | Some ps => getProvidersMetadata ps
                           | None => ret []
                           end ;;
              directives <- typesMetadata (am_directives meta) ;;
              pipes <- typesMetadata (am_pipes meta) ;;
              precompile <- typesMetadata (am_precompile meta) ;;
              lists <-
                match am_modules meta with
                | Some ms =>
                    forEachM (fun acc moduleType =>
                        meta <- getAppModuleMetadata fuel moduleType None ;;
                        ret (pushModule acc meta))
                      (flattenArray ms [])
                      (mkModuleLists providers directives pipes precompile [])
                | None => ret (mkModuleLists providers directives pipes precompile [])
                end ;;
              type <- getTypeMetadata moduleType (staticTypeModuleUrl moduleType) None ;;
              objectId <- allocate ;;
              let compileMeta :=
                mkCompileAppModuleMetadata objectId type (ml_providers lists)
                  (ml_directives lists) (ml_pipes lists) (ml_precompile lists)
                  (ml_modules lists) in
              (if useCache
               then modify (with_appModuleCache (insert moduleType compileMeta))
               else ret tt) ;;;
              ret compileMeta
          end
      end
  end.

End Resolver.

(** ** The parts of [getAppModuleMetadata]

    Named for the statements about modules: what a module declares itself;
    what its nested modules add to that; and the computation of the
    metadata of a module from its annotation, which stores the result when
    [useCache] is set. *)
Definition ownMetadata (E : Collaborators) (meta : AppModuleMetadata) : M ModuleLists :=
  providers <- match am_providers meta with
               | Some ps => getProvidersMetadata E ps
               | None => ret []
               end ;;
  directives <- typesMetadata E (am_directives meta) ;;
  pipes <- typesMetadata E (am_pipes meta) ;;
  precompile <- typesMetadata E (am_precompile meta) ;;
  ret (mkModuleLists providers directives pipes precompile []).

Definition nestedMetadata (E : Collaborators) (fuel : nat) (meta : AppModuleMetadata)
    (lists : ModuleLists) : M ModuleLists :=
  match am_modules meta with
  | Some ms =>
      forEachM (fun acc moduleType =>
          meta <- getAppModuleMetadata E fuel moduleType None ;;
          ret (pushModule acc meta))
        (flattenArray ms []) lists
  | None => ret lists
  end.

Definition compileModule (E : Collaborators) (fuel : nat) (moduleType : value)
    (meta : AppModuleMetadata) (useCache : bool) : M CompileAppModuleMetadata :=
  lists <- ownMetadata E meta ;;
  lists <- nestedMetadata E fuel meta lists ;;
  type <- getTypeMetadata E moduleType (staticTypeModuleUrl moduleType) None ;;
  objectId <- allocate ;;
  let compileMeta :=
    mkCompileAppModuleMetadata objectId type (ml_providers lists)
      (ml_directives lists) (ml_pipes lists) (ml_precompile lists)
      (ml_modules lists) in
  (if useCache
   then modify (with_appModuleCache (insert moduleType compileMeta))
   else ret tt) ;;;
  ret compileMeta.

(** The exception for a type without module annotation. *)
Definition notAnAppModule (E : Collaborators) (moduleType : value) : Exception :=
  BaseException
    ("Could not compile '" +:+ stringify E moduleType +:+
     "' because it is not an AppModule.").

(** A module type whose annotation is [meta], and whose own declarations
    and type metadata can be computed, from every state. *)
Definition annotated (E : Collaborators) (moduleType : value)
    (meta : AppModuleMetadata) : Prop :=
  resolveForwardRef moduleType = moduleType /\
  flattenArray [moduleType] [] = [moduleType] /\
  findAppModule (annotations E moduleType) = Some meta.

Definition resolvable (E : Collaborators) (moduleType : value)
    (meta : AppModuleMetadata) : Prop :=
  (forall s, exists own s', ownMetadata E meta s = (Ok own, s')) /\
  (forall s, exists type s',
     getTypeMetadata E moduleType (staticTypeModuleUrl moduleType) None s =
       (Ok type, s')).

(** What a module declares itself: the providers, directives, pipes and
    precompile lists its annotation [meta] gives, computed one after the
    other by [getProvidersMetadata] and by [getTypeMetadata] on the
    flattened lists, from the state [s] to the state [s']. *)
Definition declares (E : Collaborators) (meta : AppModuleMetadata) (s : Resolver)
    (own : ModuleLists) (s' : Resolver) : Prop :=
  exists sa sb sc,
    getProvidersMetadata E (default [] (am_providers meta)) s =
      (Ok (ml_providers own), sa) /\
    mapM (fun type => getTypeMetadata E type (staticTypeModuleUrl type) None)
      (flattenArray (default [] (am_directives meta)) []) sa =
      (Ok (ml_directives own), sb) /\
    mapM (fun type => getTypeMetadata E type (staticTypeModuleUrl type) None)
      (flattenArray (default [] (am_pipes meta)) []) sb =
      (Ok (ml_pipes own), sc) /\
    mapM (fun type => getTypeMetadata E type (staticTypeModuleUrl type) None)
      (flattenArray (default [] (am_precompile meta)) []) sc =
      (Ok (ml_precompile own), s') /\
    ml_modules own = [].

(** The lists of a module made of what it declares itself, [own], and of
    the metadata of its nested modules, in their order. *)
Definition flattened (r : CompileAppModuleMetadata) (own : ModuleLists)
    (nested : list CompileAppModuleMetadata) : Prop :=
  cam_modules r = flat_map (fun n => cam_type n :: cam_modules n) nested /\
  cam_providers r = ml_providers own ++ flat_map cam_providers nested /\
  cam_directives r = ml_directives own ++ flat_map cam_directives nested /\
  cam_pipes r = ml_pipes own ++ flat_map cam_pipes nested /\
  cam_precompile r = ml_precompile own ++ flat_map cam_precompile nested.

(** The module types an annotation nests, as [flattenArray] lists them. *)
Definition nestedTypes (meta : AppModuleMetadata) : list value :=
  match am_modules meta with
  | Some ms => flattenArray ms []
  | None => []
  end.

(** From a state to a later one, every cached module is kept. *)
Definition modulesKept (s s' : Resolver) : Prop :=
  _appModuleCache s ⊆ _appModuleCache s'.

(** A method that neither reads nor writes the module cache: run on a
    resolver with another module cache, it does the same and leaves that
    cache. *)
Definition ignoresModules {A} (m : M A) : Prop :=
  forall h s,
    m (with_appModuleCache h s) = (fst (m s), with_appModuleCache h (snd (m s))).

(** Two states with the same module cache. *)
Definition sameModules (s s' : Resolver) : Prop :=
  _appModuleCache s' = _appModuleCache s.

(** ** The calls of a client

    The public methods that read or write the resolver, as the calls a
    client can make one after the other on one resolver. *)
Inductive Call :=
| ClearCacheFor (type : value)
| ClearCache
| GetDirectiveMetadata (directiveType : value)
| MaybeGetDirectiveMetadata (someType : value)
| GetAppModuleMetadata (fuel : nat) (moduleType : value)
    (meta : option AppModuleMetadata)
| GetPipeMetadata (pipeType : value)
| GetViewDirectivesMetadata (component : value)
| GetViewPipesMetadata (component : value)
| GetTypeMetadata (type : value) (moduleUrl : option string)
    (dependencies : option (list value))
| GetFactoryMetadata (factory : value) (moduleUrl : option string)
    (dependencies : option (list value))
| GetDependenciesMetadata (typeOrFunc : value) (dependencies : option (list value))
| GetTokenMetadata (token : value)
| GetProvidersMetadata (providers : list value)
| GetProviderMetadata (provider : Provider)
| GetQueriesMetadata (queries : list (string * QueryMetadata)) (isViewQuery : bool)
    (directiveType : value)
| GetQueryMetadata (q : QueryMetadata) (propertyName : option string)
    (typeOrFunc : value).

(** The resolver after a call, whether the call returned or threw. *)
Definition perform (E : Collaborators) (c : Call) (s : Resolver) : Resolver :=
  match c with
  | ClearCacheFor type => snd (clearCacheFor type s)
  | ClearCache => snd (clearCache s)
  | GetDirectiveMetadata t => snd (getDirectiveMetadata E t s)
  | MaybeGetDirectiveMetadata t => snd (maybeGetDirectiveMetadata E t s)
  | GetAppModuleMetadata fuel t meta => snd (getAppModuleMetadata E fuel t meta s)
  | GetPipeMetadata t => snd (getPipeMetadata E t s)
  | GetViewDirectivesMetadata c => snd (getViewDirectivesMetadata E c s)
  | GetViewPipesMetadata c => snd (getViewPipesMetadata E c s)
  | GetTypeMetadata t u d => snd (getTypeMetadata E t u d s)
  | GetFactoryMetadata f u d => snd (getFactoryMetadata E f u d s)
  | GetDependenciesMetadata t d => snd (getDependenciesMetadata E t d s)
  | GetTokenMetadata t => snd (getTokenMetadata E t s)
  | GetProvidersMetadata ps => snd (getProvidersMetadata E ps s)
  | GetProviderMetadata p => snd (getProviderMetadata E p s)
  | GetQueriesMetadata qs v t => snd (getQueriesMetadata E qs v t s)
  | GetQueryMetadata q p t => snd (getQueryMetadata E q p t s)
  end.

Definition performAll (E : Collaborators) (cs : list Call) (s : Resolver) : Resolver :=
  fold_left (fun s c => perform E c s) cs s.

(** The calls that invalidate cached metadata. *)
Definition invalidates (c : Call) : bool :=
  match c with
  | ClearCacheFor _ | ClearCache => true
  | _ => false
  end.

(** ** Anonymous types

    The synthetic name of the anonymous type of index [n], the entities
    that get one, and the invariant of the map of anonymous types: it is
    injective and stays below the next index. *)
Definition syntheticName (n : nat) : string :=
  "anonymous_token_" +:+ pretty n +:+ "_".

Definition isAnonymous (E : Collaborators) (token : value) : Prop :=
  includes (stringify E token) "(" = true.

Definition anonymousWf (s : Resolver) : Prop :=
  (forall k n, _anonymousTypes s !! k = Some n -> n < _anonymousTypeIndex s) /\
  (forall k1 k2 n, _anonymousTypes s !! k1 = Some n ->
                   _anonymousTypes s !! k2 = Some n -> k1 = k2).

(** From a state to a later one, the invariant and every entry are kept. *)
Definition anonymousKept (s s' : Resolver) : Prop :=
  anonymousWf s -> anonymousWf s' /\ _anonymousTypes s ⊆ _anonymousTypes s'.

(** ** Cached metadata

    From a state to a later one, every cached directive is kept. *)
Definition directivesKept (s s' : Resolver) : Prop :=
  _directiveCache s ⊆ _directiveCache s'.

(** ** Animation variants

    The nodes that are instances of one of the classes the animation
    methods test for. *)
Definition isAnimationVariant (v : AnimationMetadata) : bool :=
  match v with
  | AnimationStyle _ | AnimationKeyframesSequence _ | AnimationAnimate _ _
  | AnimationWithSteps _ _ => true
  | AnimationUnknown _ => false
  end.

Definition isAnimationStateVariant (v : AnimationStateMetadata) : bool :=
  match v with
  | AnimationStateDeclaration _ _ | AnimationStateTransition _ _ => true
  | AnimationStateUnknown _ => false
  end.

(** ** Parameters

    The parameter list [getDependenciesMetadata] maps over; the parameters
    it marks unresolved; the queries [getQueryMetadata] throws for; and the
    relation between a parameter and the element of [dependenciesMetadata]
    that stands for it. *)
Definition parametersOf (E : Collaborators) (typeOrFunc : value)
    (dependencies : option (list value)) : list value :=
  match dependencies with
  | Some deps => deps
  | None => match parameters E typeOrFunc with Some ps => ps | None => [] end
  end.

Definition unresolved (param : value) : bool := isBlank (token (scanParam param)).

Definition queryFails (q : QueryMetadata) : bool :=
  negb (q_isVarBindingQuery q) && negb (isPresent (q_selector q)).

Definition paramQueryFails (param : value) : bool :=
  negb (unresolved param) &&
  (match query (scanParam param) with Some q => queryFails q | None => false end
   || match viewQuery (scanParam param) with Some q => queryFails q | None => false end).

(** The value a compiled token was made from. *)
Definition tokenOf (t : CompileTokenMetadata) : value :=
  match t with
  | TokenValue s => VString s
  | TokenIdentifier i => ci_runtime i
  end.

Definition standsFor (param : value) (dep : option CompileDiDependencyMetadata) : Prop :=
  match dep with
  | None => unresolved param = true
  | Some d =>
      unresolved param = false /\
      tokenOf (dep_token d) = resolveForwardRef (token (scanParam param))
  end.

(** The exception of [getQueryMetadata] for a query without selector. *)
Definition queryError (E : Collaborators) (propertyName : option string)
    (typeOrFunc : value) : Exception :=
  BaseException
    ("Can't construct a query for the property " +:+ dquote +:+
     showPropertyName propertyName +:+ dquote +:+ " of " +:+ dquote +:+
     stringify E typeOrFunc +:+ dquote +:+
     " since the query selector wasn't defined.").

(** The message of the exception for a list with unresolved parameters. *)
Definition cannotResolve (E : Collaborators) (typeOrFunc : value)
    (deps : list (option CompileDiDependencyMetadata)) : Exception :=
  BaseException
    ("Can't resolve all parameters for " +:+ stringify E typeOrFunc +:+
     ": (" +:+ depsTokens E deps +:+ ").").

(** ** Provider trees

    The leaves of a provider, from left to right, as [flattenArray] yields
    them; the leaves of an entry of the result; and the nesting of both. *)
Fixpoint leavesOf (provider : value) {struct provider} : list value :=
  match resolveForwardRef provider with
  | VArray items => flat_map leavesOf items
  | leaf => [leaf]
  end.

Fixpoint entryLeaves (e : ProvidersEntry) : list ProvidersEntry :=
  match e with
  | EntryArray l => flat_map entryLeaves l
  | leaf => [leaf]
  end.

Definition isFlat (entries : list ProvidersEntry) : bool :=
  forallb (fun e => match e with EntryArray _ => false | _ => true end) entries.

Inductive Shape :=
| Leaf
| Nested (items : list Shape).

Fixpoint shapeOfValue (provider : value) {struct provider} : Shape :=
  match resolveForwardRef provider with
  | VArray items => Nested (List.map shapeOfValue items)
  | _ => Leaf
  end.

Fixpoint shapeOfEntry (e : ProvidersEntry) : Shape :=
  match e with
  | EntryArray l => Nested (List.map shapeOfEntry l)
  | _ => Leaf
  end.

(** ** Properties of methods

    [steps R m]: the method [m] takes every state to a state related to it
    by [R], whether it returns or throws.  [stepsFrom R s0 m]: it keeps
    the states related to [s0] so.  [returns m P]: it returns from every
    state, a result that satisfies [P]. *)
Definition steps (R : relation Resolver) {A} (m : M A) : Prop :=
  forall s, R s (snd (m s)).

Definition stepsFrom (R : relation Resolver) (s0 : Resolver) {A} (m : M A) : Prop :=
  forall s, R s0 s -> R s0 (snd (m s)).

Definition returns {A} (m : M A) (P : A -> Prop) : Prop :=
  forall s, exists a s', m s = (Ok a, s') /\ P a.

(** The entry computed for a provider has the nesting of the provider, and
    its leaves are the entries of the leaves of the provider ([mirrors]);
    and it can be computed when these can ([mirrored]). *)
Definition mirrors (E : Collaborators) (p : value) : Prop :=
  forall s e s', resolveProvider E p s = (Ok e, s') ->
    shapeOfEntry e = shapeOfValue p /\
    mapM (resolveLeaf E) (leavesOf p) s = (Ok (entryLeaves e), s').

Definition mirrored (E : Collaborators) (p : value) : Prop :=
  forall s l s', mapM (resolveLeaf E) (leavesOf p) s = (Ok l, s') ->
    exists e, resolveProvider E p s = (Ok e, s') /\ entryLeaves e = l.

(** ** Outcomes of methods

    [sameCaches s s']: from [s] to [s'] the three caches and the count of
    allocated objects are the same; the anonymous types may differ.
    [outcome R s0 m Q]: run from a state related to [s0] by [R], the method
    [m] throws and leaves a state related to [s0], or returns a result and
    a state that satisfy [Q]. *)
Definition sameCaches (s s' : Resolver) : Prop :=
  _directiveCache s' = _directiveCache s /\
  _pipeCache s' = _pipeCache s /\
  _appModuleCache s' = _appModuleCache s /\
  allocated s' = allocated s.

Definition outcome (R : relation Resolver) (s0 : Resolver) {A} (m : M A)
    (Q : A -> Resolver -> Prop) : Prop :=
  forall s, R s0 s ->
    match m s with
    | (Ok a, s1) => Q a s1
    | (Throw _, s1) => R s0 s1
    end.

(** ** Cached objects

    From a state to a later one, every cached pipe is kept. *)
Definition pipesKept (s s' : Resolver) : Prop :=
  _pipeCache s ⊆ _pipeCache s'.

(** The calls that may write each cache: its getters and the two methods
    that clear. *)
Definition writesDirectives (c : Call) : bool :=
  match c with
  | ClearCacheFor _ | ClearCache | GetDirectiveMetadata _
  | MaybeGetDirectiveMetadata _ | GetViewDirectivesMetadata _ => true
  | _ => false
  end.

Definition writesPipes (c : Call) : bool :=
  match c with
  | ClearCacheFor _ | ClearCache | GetPipeMetadata _ | GetViewPipesMetadata _ => true
  | _ => false
  end.

Definition writesModules (c : Call) : bool :=
  match c with
  | ClearCacheFor _ | ClearCache | GetAppModuleMetadata _ _ _ => true
  | _ => false
  end.

(** Two states with the same directive cache, or the same pipe cache. *)
Definition sameDirectives (s s' : Resolver) : Prop :=
  _directiveCache s' = _directiveCache s.

Definition samePipes (s s' : Resolver) : Prop :=
  _pipeCache s' = _pipeCache s.

(** ** Qualifiers of a parameter

    The token an entry of a parameter gives explicitly, through [@Inject]
    or [@Attribute]; and a dependency that records what the scan of its
    parameter found. *)
Definition explicitToken (entry : value) : option value :=
  match entry with
  | VAttributeMetadata t | VInjectMetadata t => Some t
  | _ => None
  end.

Definition qualified (param : value) (d : CompileDiDependencyMetadata) : Prop :=
  let sc := scanParam param in
  dep_isAttribute d = isAttribute sc /\
  dep_isHost d = isHost sc /\
  dep_isSelf d = isSelf sc /\
  dep_isSkipSelf d = isSkipSelf sc /\
  dep_isOptional d = isOptional sc /\
  (is_Some (dep_query d) <-> is_Some (query sc)) /\
  (is_Some (dep_viewQuery d) <-> is_Some (viewQuery sc)) /\
  isBlank (token sc) = false /\
  tokenOf (dep_token d) = resolveForwardRef (token sc).

(** The entries of a list of queries that [getQueriesMetadata] compiles
    for a value of its flag. *)
Definition selectedQueries (queries : list (string * QueryMetadata))
    (isViewQuery : bool) : list (string * QueryMetadata) :=
  List.filter (fun entry => Bool.eqb (q_isViewQuery (snd entry)) isViewQuery)
    queries.

(** ** Modules that nest themselves

    A set of module types each of which nests, directly or in a nested
    array or behind a forward reference, a module type of the set; and a
    state in which none of the set is cached. *)
Definition cyclic (E : Collaborators) (D : value -> Prop) : Prop :=
  forall d, D d ->
    exists meta leaf,
      findAppModule (annotations E d) = Some meta /\
      leaf ∈ nestedTypes meta /\ D (resolveForwardRef leaf).

Definition noneCached (D : value -> Prop) (s : Resolver) : Prop :=
  forall d, D d -> _appModuleCache s !! d = None.

Definition keepsNone (D : value -> Prop) (s s' : Resolver) : Prop :=
  noneCached D s -> noneCached D s'.

(** With [fuel], no call stores a module of the set, and a call for a
    module of the set, without annotation, throws. *)
Definition never (E : Collaborators) (D : value -> Prop) (fuel : nat) : Prop :=
  forall moduleType meta s,
    noneCached D s ->
    noneCached D (snd (getAppModuleMetadata E fuel moduleType meta s)) /\
    (meta = None -> D (resolveForwardRef moduleType) ->
     exists e s', getAppModuleMetadata E fuel moduleType meta s = (Throw e, s')).

(** The numbers given to anonymous types are the numbers below the next
    index, each of them. *)
Definition anonymousDense (s : Resolver) : Prop :=
  forall n, n < _anonymousTypeIndex s <->
            exists token, _anonymousTypes s !! token = Some n.

Definition denseKept (s s' : Resolver) : Prop :=
  anonymousDense s -> anonymousDense s'.

(** The invariant of the caches: an object cached under a key describes
    the type the key stands for, and it was allocated by this resolver,
    not before the [lo]-th allocation. *)
Definition cachesWf (lo : nat) (s : Resolver) : Prop :=
  lo <= allocated s /\
  (forall k m, _directiveCache s !! k = Some m ->
     lo <= cd_objectId m < allocated s /\
     ct_runtime (cd_type m) = resolveForwardRef k) /\
  (forall k m, _pipeCache s !! k = Some m ->
     lo <= cpm_objectId m < allocated s /\
     ct_runtime (cpm_type m) = resolveForwardRef k) /\
  (forall k m, _appModuleCache s !! k = Some m ->
     lo <= cam_objectId m < allocated s /\
     ct_runtime (cam_type m) = resolveForwardRef k).

(** From a state to a later one, no allocation is undone and the
    invariant is kept. *)
Definition grows (s s' : Resolver) : Prop :=
  allocated s <= allocated s' /\
  forall lo, cachesWf lo s -> cachesWf lo s'.

(** ** A sample program

    Collaborators for a small program, on which the functions are run:
    three modules [A], [B], [C], each with one service, where [A] nests [B]
    and [B] nests [C]; a directive, a component, a pipe; a service with a
    constructor parameter that is only a query; and functions without a
    name (numbers from 100 on). *)
Module Sample.

Definition A : value := VFunction 1.
Definition B : value := VFunction 2.
Definition C : value := VFunction 3.
Definition ServiceA : value := VFunction 11.
Definition ServiceB : value := VFunction 12.
Definition ServiceC : value := VFunction 13.
Definition Dir : value := VFunction 20.
Definition Cmp : value := VFunction 21.
Definition QueryOnly : value := VFunction 30.
Definition Pipe : value := VFunction 40.
Definition Closure1 : value := VFunction 100.
Definition Closure2 : value := VFunction 101.
(** A provider literal [{provide: 'TOKEN', useValue: ...}]. *)
Definition Literal : value := VOther 500.

Fixpoint stringify (v : value) : string :=
  match v with
  | VNull => "null"
  | VString s => s
  | VFunction n => if bool_decide (n < 100) then "T" +:+ pretty n
                   else "function (a, b) {"
  | VForwardRef t => stringify t
  | VStaticSymbol name _ => name
  | VArray l => join "," (List.map stringify l)
  | _ => "[object Object]"
  end.

Definition stringifyToken (t : CompileTokenMetadata) : string :=
  match t with
  | TokenValue s => s
  | TokenIdentifier i => match ci_name i with Some n => n | None => "" end
  end.

(** Characters other than letters, digits and [_] become [_]. *)
Definition isWordChar (c : ascii) : bool :=
  let n := nat_of_ascii c in
  bool_decide (48 <= n <= 57) || bool_decide (65 <= n <= 90)
  || bool_decide (97 <= n <= 122) || bool_decide (n = 95).

Fixpoint sanitizeIdentifier (name : string) : string :=
  match name with
  | EmptyString => EmptyString
  | String c rest =>
      String (if isWordChar c then c else "_"%char) (sanitizeIdentifier rest)
  end.

Fixpoint visitValue (visitOther : value -> CompileIdentifierMetadata) (v : value)
    : CompiledValue :=
  match v with
  | VNull | VString _ => CVPrimitive v
  | VArray l => CVArray (List.map (visitValue visitOther) l)
  | _ => CVIdentifier (visitOther v)
  end.

Definition moduleA : AppModuleMetadata :=
  mkAppModuleMetadata (Some [ServiceA]) None None None (Some [B]).
Definition moduleB : AppModuleMetadata :=
  mkAppModuleMetadata (Some [ServiceB]) None None None (Some [C]).
Definition moduleC : AppModuleMetadata :=
  mkAppModuleMetadata (Some [ServiceC]) None None None None.

Definition annotations (type : value) : list Annotation :=
  match type with
  | VFunction 1 => [AnnOther VNull; AnnAppModule moduleA]
  | VFunction 2 => [AnnAppModule moduleB]
  | VFunction 3 => [AnnAppModule moduleC]
  | _ => []
  end.

Definition contentQuery : value :=
  VQueryMetadata false false ServiceA [] false false VNull.

Definition parameters (type : value) : option (list value) :=
  match type with
  | VFunction 30 => Some [VArray [ServiceA]; VArray [contentQuery]]
  | _ => None
  end.

Definition directiveResolver (type : value) : Result DirectiveMetadata :=
  match type with
  | VFunction 20 =>
      Ok (mkDirectiveMetadata (VString "[dir]") VNull VNull VNull VNull
            (Some [VArray [ServiceA]]) None None)
  | VFunction 21 =>
      Ok (mkDirectiveMetadata (VString "cmp") VNull VNull VNull VNull None None
            (Some (mkComponentFields VNull None None None)))
  | _ => Throw (BaseException ("No Directive annotation found on " +:+ stringify type))
  end.

Definition viewResolver (type : value) : Result ViewMetadata :=
  match type with
  | VFunction 21 =>
      Ok (mkViewMetadata VNull (VString "<p></p>") VNull (VArray [VString "a{}"])
            VNull None (VArray [VString "{{"; VString "}}"]) None None)
  | _ => Throw (BaseException
                  ("No View annotation found on component " +:+ stringify type))
  end.

Definition pipeResolver (type : value) : Result PipeMetadata :=
  match type with
  | VFunction 40 => Ok (mkPipeMetadata (VString "sample") VNull)
  | _ => Throw (BaseException ("No Pipe decorator found on " +:+ stringify type))
  end.

Definition allHooks : list LifecycleHooks :=
  [OnInit; OnDestroy; DoCheck; OnChanges; AfterContentInit; AfterContentChecked;
   AfterViewInit; AfterViewChecked].

Definition hasLifecycleHook (hook : LifecycleHooks) (type : value) : bool :=
  match hook, type with
  | OnInit, VFunction 20 => true
  | _, _ => false
  end.

Definition isProviderLiteral (v : value) : bool :=
  match v with VOther 500 => true | _ => false end.

Definition createProvider (v : value) : Provider :=
  mkProvider (VString "TOKEN") VNull (VOther 5) VNull VNull None false.

Definition program : Collaborators :=
  mkCollaborators stringify stringifyToken sanitizeIdentifier visitValue ""
    (fun _ => None) (fun _ _ => Ok tt) (fun _ _ => Ok tt) allHooks hasLifecycleHook
    isProviderLiteral createProvider directiveResolver pipeResolver viewResolver
    None None annotations parameters (fun _ => "./sample").

End Sample.

(** ** A second sample program

    A component [Tabs] whose view lists directives and pipes in nested
    arrays and behind a forward reference, with a directive and a pipe of
    the platform; a component [BadView] whose view lists values that are
    no types; a directive [Broken] with an undefined provider; and modules
    that nest themselves: [Loop] directly, [Ping] and [Pong] each other. *)
Module Gallery.

Definition Tab : value := VFunction 50.
Definition Pane : value := VFunction 51.
Definition Tabs : value := VFunction 52.
Definition Upper : value := VFunction 53.
Definition Lower : value := VFunction 54.
Definition Tooltip : value := VFunction 55.
Definition BadView : value := VFunction 56.
Definition Broken : value := VFunction 57.
Definition Loop : value := VFunction 60.
Definition Ping : value := VFunction 61.
Definition Pong : value := VFunction 62.

Definition moduleLoop : AppModuleMetadata :=
  mkAppModuleMetadata None None None None (Some [VArray [Loop]]).
Definition modulePing : AppModuleMetadata :=
  mkAppModuleMetadata (Some [Sample.ServiceA]) None None None (Some [Pong]).
Definition modulePong : AppModuleMetadata :=
  mkAppModuleMetadata None None None None (Some [VForwardRef Ping]).

Definition annotations (type : value) : list Annotation :=
  match type with
  | VFunction 60 => [AnnAppModule moduleLoop]
  | VFunction 61 => [AnnAppModule modulePing]
  | VFunction 62 => [AnnAppModule modulePong]
  | _ => []
  end.

Definition plainDirective (selector : string) : DirectiveMetadata :=
  mkDirectiveMetadata (VString selector) VNull VNull VNull VNull None None None.

Definition directiveResolver (type : value) : Result DirectiveMetadata :=
  match type with
  | VFunction 50 => Ok (plainDirective "tab")
  | VFunction 51 => Ok (plainDirective "pane")
  | VFunction 55 => Ok (plainDirective "[tooltip]")
  | VFunction 52 =>
      Ok (mkDirectiveMetadata (VString "tabs") VNull VNull VNull VNull None None
            (Some (mkComponentFields VNull None None None)))
  | VFunction 56 =>
      Ok (mkDirectiveMetadata (VString "bad-view") VNull VNull VNull VNull None None
            (Some (mkComponentFields VNull None None None)))
  | VFunction 57 =>
      Ok (mkDirectiveMetadata (VString "[broken]") VNull VNull VNull VNull
            (Some [Sample.ServiceA; VArray [VForwardRef VNull]]) None None)
  | _ => Throw (BaseException
                  ("No Directive annotation found on " +:+ Sample.stringify type))
  end.

Definition view (directives pipes : list value) : ViewMetadata :=
  mkViewMetadata VNull (VString "<p></p>") VNull (VArray []) VNull None VNull
    (Some directives) (Some pipes).

Definition viewResolver (type : value) : Result ViewMetadata :=
  match type with
  | VFunction 52 => Ok (view [VArray [Tab; VForwardRef Pane]] [VArray [Upper]])
  | VFunction 56 => Ok (view [Tab; VString "oops"] [Upper; VString "nope"])
  | _ => Throw (BaseException
                  ("No View annotation found on component " +:+ Sample.stringify type))
  end.

Definition pipeResolver (type : value) : Result PipeMetadata :=
  match type with
  | VFunction 53 => Ok (mkPipeMetadata (VString "upper") VNull)
  | VFunction 54 => Ok (mkPipeMetadata (VString "lower") VNull)
  | _ => Throw (BaseException
                  ("No Pipe decorator found on " +:+ Sample.stringify type))
  end.

Definition program : Collaborators :=
  mkCollaborators Sample.stringify Sample.stringifyToken Sample.sanitizeIdentifier
    Sample.visitValue "" (fun _ => None) (fun _ _ => Ok tt) (fun _ _ => Ok tt)
    Sample.allHooks Sample.hasLifecycleHook Sample.isProviderLiteral
    Sample.createProvider directiveResolver pipeResolver viewResolver
    (Some [Tooltip]) (Some [Lower]) annotations Sample.parameters
    (fun _ => "./gallery").

End Gallery.

(** ** A third sample program

    Modules that declare providers, directives, pipes and precompiled
    types: [Shop] nests [Cart] twice, once in a nested array behind a
    forward reference, [Mall] nests it once, and [Cart] nests [Pay]; and
    a directive [Mislabelled], annotated as a directive, one of whose
    providers is a string. *)
Module Shop.

Definition Shop : value := VFunction 80.
Definition Cart : value := VFunction 81.
Definition Pay : value := VFunction 82.
Definition Mall : value := VFunction 83.
Definition Mislabelled : value := VFunction 85.

Definition moduleShop : AppModuleMetadata :=
  mkAppModuleMetadata (Some [Sample.ServiceA]) (Some [VArray [Sample.Dir; Sample.Cmp]])
    None None (Some [Cart; VArray [VForwardRef Cart]]).
Definition moduleCart : AppModuleMetadata :=
  mkAppModuleMetadata (Some [VArray [Sample.ServiceB]]) None (Some [Sample.Pipe])
    None (Some [Pay]).
Definition modulePay : AppModuleMetadata :=
  mkAppModuleMetadata (Some [Sample.ServiceC]) None None (Some [Sample.Cmp]) None.
Definition moduleMall : AppModuleMetadata :=
  mkAppModuleMetadata (Some [Sample.ServiceA]) (Some [Sample.Dir]) None None
    (Some [VForwardRef Cart]).

Definition annotations (type : value) : list Annotation :=
  match type with
  | VFunction 80 => [AnnAppModule moduleShop]
  | VFunction 81 => [AnnOther VNull; AnnAppModule moduleCart]
  | VFunction 82 => [AnnAppModule modulePay]
  | VFunction 83 => [AnnAppModule moduleMall]
  | _ => []
  end.

Definition directiveResolver (type : value) : Result DirectiveMetadata :=
  match type with
  | VFunction 85 =>
      Ok (mkDirectiveMetadata (VString "[mislabelled]") VNull VNull VNull VNull
            (Some [VString "No Directive annotation"]) None None)
  | _ => Sample.directiveResolver type
  end.

Definition program : Collaborators :=
  mkCollaborators Sample.stringify Sample.stringifyToken Sample.sanitizeIdentifier
    Sample.visitValue "" (fun _ => None) (fun _ _ => Ok tt) (fun _ _ => Ok tt)
    Sample.allHooks Sample.hasLifecycleHook Sample.isProviderLiteral
    Sample.createProvider directiveResolver Sample.pipeResolver Sample.viewResolver
    None None annotations Sample.parameters (fun _ => "./shop").

End Shop.

(** * Reasoning about methods *)

(** ** Inversion of the monad's operations *)

Lemma Ok_inj {A} (a b : A) : Ok a = Ok b -> a = b.
Proof. now intros [= ->]. Qed.

Lemma bind_Ok {A B} (m : M A) (f : A -> M B) s b s' :
  bind m f s = (Ok b, s') ->
  exists a s1, m s = (Ok a, s1) /\ f a s1 = (Ok b, s').
Proof.
  unfold bind. destruct (m s) as [[a|e] s1]; [eauto|discriminate].
Qed.

Lemma bind_Throw {A B} (m : M A) (f : A -> M B) s e s' :
  bind m f s = (Throw e, s') ->
  m s = (Throw e, s') \/ exists a s1, m s = (Ok a, s1) /\ f a s1 = (Throw e, s').
Proof.
  unfold bind. destruct (m s) as [[a|e0] s1]; [eauto|].
  intros [= -> ->]. now left.
Qed.

Lemma bind_eq_Ok {A B} (m : M A) (f : A -> M B) s a s1 :
  m s = (Ok a, s1) -> bind m f s = f a s1.
Proof. unfold bind. now intros ->. Qed.

Lemma bind_eq_Throw {A B} (m : M A) (f : A -> M B) s e s1 :
  m s = (Throw e, s1) -> bind m f s = (Throw e, s1).
Proof. unfold bind. now intros ->. Qed.

Lemma bind_gets {A B} (g : Resolver -> A) (f : A -> M B) s :
  bind (gets g) f s = f (g s) s.
Proof. reflexivity. Qed.

Lemma bind_ret {A B} (a : A) (f : A -> M B) s : bind (ret a) f s = f a s.
Proof. reflexivity. Qed.

Lemma bind_modify {B} (g : Resolver -> Resolver) (f : unit -> M B) s :
  bind (modify g) f s = f tt (g s).
Proof. reflexivity. Qed.

(** ** Relations between the state before and after a method *)

Section Steps.

Context (R : relation Resolver) `{!PreOrder R}.

Lemma steps_ret {A} (a : A) : steps R (ret a).
Proof. intros s. reflexivity. Qed.

Lemma steps_throw {A} (e : Exception) : steps R (@throw A e).
Proof. intros s. reflexivity. Qed.

Lemma steps_gets {A} (f : Resolver -> A) : steps R (gets f).
Proof. intros s. reflexivity. Qed.

Lemma steps_call {A} (r : Result A) : steps R (call r).
Proof. intros s. reflexivity. Qed.

Lemma steps_bind {A B} (m : M A) (f : A -> M B) :
  steps R m -> (forall a, steps R (f a)) -> steps R (bind m f).
Proof.
  intros Hm Hf s. unfold bind. specialize (Hm s).
  destruct (m s) as [[a|e] s1]; simpl in *; [|exact Hm].
  etransitivity; [exact Hm|apply Hf].
Qed.

Lemma steps_catch {A} (m : M A) (h : Exception -> M A) :
  steps R m -> (forall e, steps R (h e)) -> steps R (catch m h).
Proof.
  intros Hm Hh s. unfold catch. specialize (Hm s).
  destruct (m s) as [[a|e] s1]; simpl in *; [exact Hm|].
  etransitivity; [exact Hm|apply Hh].
Qed.

Lemma steps_mapM_Forall {A B} (f : A -> M B) (xs : list A) :
  Forall (fun x => steps R (f x)) xs -> steps R (mapM f xs).
Proof.
  induction 1 as [|x xs Hx _ IH]; simpl.
  - apply steps_ret.
  - apply steps_bind; [exact Hx|intros y].
    apply steps_bind; [exact IH|intros ys]. apply steps_ret.
Qed.

Lemma steps_mapM {A B} (f : A -> M B) (xs : list A) :
  (forall x, steps R (f x)) -> steps R (mapM f xs).
Proof. intros Hf. apply steps_mapM_Forall, Forall_forall. auto. Qed.

Lemma steps_forEachM {A B} (f : B -> A -> M B) (xs : list A) (acc : B) :
  (forall acc x, steps R (f acc x)) -> steps R (forEachM f xs acc).
Proof.
  intros Hf. revert acc. induction xs as [|x xs IH]; intros acc; simpl.
  - apply steps_ret.
  - apply steps_bind; [apply Hf|intros acc']. apply IH.
Qed.

Lemma stepsFrom_steps s0 {A} (m : M A) : steps R m -> stepsFrom R s0 m.
Proof. intros Hm s Hs. etransitivity; [exact Hs|apply Hm]. Qed.

Lemma stepsFrom_bind s0 {A B} (m : M A) (f : A -> M B) :
  stepsFrom R s0 m -> (forall a, stepsFrom R s0 (f a)) ->
  stepsFrom R s0 (bind m f).
Proof.
  intros Hm Hf s Hs. unfold bind. specialize (Hm s Hs).
  destruct (m s) as [[a|e] s1]; simpl in *; [|exact Hm].
  now apply Hf.
Qed.

Lemma stepsFrom_start s0 {A} (m : M A) : stepsFrom R s0 m -> R s0 (snd (m s0)).
Proof. intros Hm. apply Hm. reflexivity. Qed.

End Steps.

Create HintDb steps.
#[export] Hint Resolve steps_ret steps_throw steps_gets steps_call : steps.

(** One step of the proof that a method built from the operations of the
    monad satisfies [steps R]. *)
Ltac steps_step :=
  lazymatch goal with
  | |- steps _ (bind _ _) => apply steps_bind; [try typeclasses eauto| |intros ?]
  | |- steps _ (mapM _ _) => apply steps_mapM; [try typeclasses eauto|intros ?]
  | |- steps _ (forEachM _ _ _) =>
      apply steps_forEachM; [try typeclasses eauto|intros ? ?]
  | |- steps _ (catch _ _) => apply steps_catch; [try typeclasses eauto| |intros ?]
  | |- steps _ (match ?x with _ => _ end) => destruct x
  | |- steps _ (let _ := _ in _) => cbv zeta
  | |- steps _ _ => solve [eauto with steps typeclass_instances]
  end.
Ltac steps_auto := repeat steps_step.

(** The same for [stepsFrom], for a method whose first steps satisfy
    [steps R]. *)
Ltac from_steps := apply stepsFrom_steps; [try typeclasses eauto|steps_auto].
Ltac from_bind := apply stepsFrom_bind; [try from_steps|intros ?].

(** Inversion of a sequence of binds that returned: [H] is split into the
    runs of its parts. *)
Ltac inv_bind H :=
  let a := fresh "a" in
  let s := fresh "s" in
  let H1 := fresh "Hrun" in
  apply bind_Ok in H; destruct H as (a & s & H1 & H).

(** ** Induction on provider trees *)

Lemma list_all_Forall {A} (P : A -> Prop) (l : list A) :
  list_all A P l -> Forall P l.
Proof. induction 1; constructor; assumption. Qed.

(** A property holds of every value when it holds of a value as soon as
    it holds of the items of the array the value dereferences to. *)
Lemma provider_tree_ind (P : value -> Prop) :
  (forall p,
     (forall items, resolveForwardRef p = VArray items -> Forall P items) -> P p) ->
  forall p, P p.
Proof.
  intros step.
  cut (forall p, P p /\ forall items, p = VArray items -> Forall P items).
  { intros H p. apply H. }
  induction p as
    [ | | |t IHt| |l IHl| | | | |a IHa|vq vb sel IHsel names fst desc rd IHrd
    |t IHt|t IHt c IHc u IHu f IHf e IHe deps IHdeps m| ];
    (split; [apply step; simpl|]); try (intros ? [=]; fail).
  - intros items ->. now apply IHt.
  - intros items [= <-]. apply list_all_Forall in IHl.
    eapply Forall_impl; [exact IHl|]. now intros ? [? _].
  - intros items [= <-]. apply list_all_Forall in IHl.
    eapply Forall_impl; [exact IHl|]. now intros ? [? _].
Qed.

(** ** Methods that change the anonymous types only *)

Section Inner.

Context (E : Collaborators) (R : relation Resolver) `{!PreOrder R}.
Hypothesis R_register : forall token s,
  _anonymousTypes s !! token = None -> R s (registerAnonymous token s).

Lemma steps_sanitizeTokenName token : steps R (sanitizeTokenName E token).
Proof.
  intros s. unfold sanitizeTokenName.
  destruct (includes _ _); [|reflexivity].
  unfold bind, gets, modify, ret; simpl.
  destruct (_anonymousTypes s !! token) eqn:H; simpl; [reflexivity|].
  now apply R_register.
Qed.
#[local] Hint Resolve steps_sanitizeTokenName : steps.

Lemma steps_getTokenMetadata token : steps R (getTokenMetadata E token).
Proof. unfold getTokenMetadata. steps_auto. Qed.
#[local] Hint Resolve steps_getTokenMetadata : steps.

Lemma steps_getQueryMetadata q propertyName typeOrFunc :
  steps R (getQueryMetadata E q propertyName typeOrFunc).
Proof. unfold getQueryMetadata. steps_auto. Qed.
#[local] Hint Resolve steps_getQueryMetadata : steps.

Lemma steps_getQueriesMetadata queries isViewQuery directiveType :
  steps R (getQueriesMetadata E queries isViewQuery directiveType).
Proof. unfold getQueriesMetadata. steps_auto. Qed.
#[local] Hint Resolve steps_getQueriesMetadata : steps.

Lemma steps_resolveParam typeOrFunc hasUnknownDeps param :
  steps R (resolveParam E typeOrFunc hasUnknownDeps param).
Proof. unfold resolveParam. steps_auto. Qed.
#[local] Hint Resolve steps_resolveParam : steps.

Lemma steps_mapParams typeOrFunc params hasUnknownDeps :
  steps R (mapParams E typeOrFunc params hasUnknownDeps).
Proof.
  revert hasUnknownDeps. induction params as [|param rest IH]; intros h; simpl.
  - steps_auto.
  - apply steps_bind; [apply _|apply steps_resolveParam|intros r].
    apply steps_bind; [apply _|apply IH|intros rs]. steps_auto.
Qed.
#[local] Hint Resolve steps_mapParams : steps.

Lemma steps_getDependenciesMetadata typeOrFunc dependencies :
  steps R (getDependenciesMetadata E typeOrFunc dependencies).
Proof. unfold getDependenciesMetadata. steps_auto. Qed.
#[local] Hint Resolve steps_getDependenciesMetadata : steps.

Lemma steps_getTypeMetadata type moduleUrl dependencies :
  steps R (getTypeMetadata E type moduleUrl dependencies).
Proof. unfold getTypeMetadata. steps_auto. Qed.
#[local] Hint Resolve steps_getTypeMetadata : steps.

Lemma steps_getFactoryMetadata factory moduleUrl dependencies :
  steps R (getFactoryMetadata E factory moduleUrl dependencies).
Proof. unfold getFactoryMetadata. steps_auto. Qed.
#[local] Hint Resolve steps_getFactoryMetadata : steps.

Lemma steps_getProviderMetadata provider : steps R (getProviderMetadata E provider).
Proof. unfold getProviderMetadata. steps_auto. Qed.
#[local] Hint Resolve steps_getProviderMetadata : steps.

Lemma steps_resolveLeaf provider : steps R (resolveLeaf E provider).
Proof. unfold resolveLeaf. steps_auto. Qed.
#[local] Hint Resolve steps_resolveLeaf : steps.

Lemma resolveProvider_unfold provider :
  resolveProvider E provider =
  match resolveForwardRef provider with
  | VArray items => l <- mapM (resolveProvider E) items ;; ret (EntryArray l)
  | provider => resolveLeaf E provider
  end.
Proof. destruct provider; reflexivity. Qed.

Lemma steps_resolveProvider provider : steps R (resolveProvider E provider).
Proof.
  induction provider as [p IH] using provider_tree_ind.
  rewrite resolveProvider_unfold.
  destruct (resolveForwardRef p) eqn:Hp; try apply steps_resolveLeaf.
  apply steps_bind; [apply _| |intros l; apply steps_ret; apply _].
  apply steps_mapM_Forall; [apply _|]. now apply IH.
Qed.
#[local] Hint Resolve steps_resolveProvider : steps.

Lemma steps_getProvidersMetadata providers :
  steps R (getProvidersMetadata E providers).
Proof. unfold getProvidersMetadata. steps_auto. Qed.
#[local] Hint Resolve steps_getProvidersMetadata : steps.

Lemma steps_typesMetadata types : steps R (typesMetadata E types).
Proof. unfold typesMetadata. steps_auto. Qed.

Lemma steps_componentPart directiveType cmpMeta :
  steps R (componentPart E directiveType cmpMeta).
Proof. unfold componentPart. steps_auto. Qed.

End Inner.

(** ** Methods that fill the caches *)

Section Cached.

Context (E : Collaborators) (R : relation Resolver) `{!PreOrder R}.
Hypothesis R_register : forall token s,
  _anonymousTypes s !! token = None -> R s (registerAnonymous token s).
Hypothesis R_allocate : forall s, R s (snd (allocate s)).
Hypothesis R_directive : forall s0 s k v,
  R s0 s -> _directiveCache s0 !! k = None ->
  R s0 (with_directiveCache (insert k v) s).
Hypothesis R_pipe : forall s0 s k v,
  R s0 s -> _pipeCache s0 !! k = None -> R s0 (with_pipeCache (insert k v) s).
Hypothesis R_appModule : forall s0 s k v,
  R s0 s -> _appModuleCache s0 !! k = None ->
  R s0 (with_appModuleCache (insert k v) s).

#[local] Hint Resolve steps_getTypeMetadata steps_getProvidersMetadata
  steps_getQueriesMetadata steps_componentPart steps_typesMetadata
  steps_getFactoryMetadata steps_getDependenciesMetadata steps_getTokenMetadata
  steps_getProviderMetadata steps_getQueryMetadata : steps.

Lemma steps_allocate : steps R allocate.
Proof. exact R_allocate. Qed.
#[local] Hint Resolve steps_allocate : steps.

Lemma steps_getDirectiveMetadata directiveType :
  steps R (getDirectiveMetadata E directiveType).
Proof.
  intros s. unfold getDirectiveMetadata. rewrite bind_gets.
  destruct (_directiveCache s !! resolveForwardRef directiveType) eqn:Hmiss;
    [reflexivity|].
  apply stepsFrom_start; [apply _|].
  from_bind.
  apply stepsFrom_bind; [from_steps|intros [[[[? ?] ?] ?] ?]].
  from_bind.
  from_bind.
  from_bind.
  from_bind.
  apply stepsFrom_bind; [|intros _; from_steps].
  intros s1 Hs1. now apply R_directive.
Qed.
#[local] Hint Resolve steps_getDirectiveMetadata : steps.

Lemma steps_maybeGetDirectiveMetadata someType :
  steps R (maybeGetDirectiveMetadata E someType).
Proof. unfold maybeGetDirectiveMetadata. steps_auto. Qed.

Lemma steps_getPipeMetadata pipeType : steps R (getPipeMetadata E pipeType).
Proof.
  intros s. unfold getPipeMetadata. rewrite bind_gets.
  destruct (_pipeCache s !! resolveForwardRef pipeType) eqn:Hmiss; [reflexivity|].
  apply stepsFrom_start; [apply _|].
  from_bind.
  from_bind.
  from_bind.
  apply stepsFrom_bind; [|intros _; from_steps].
  intros s1 Hs1. now apply R_pipe.
Qed.
#[local] Hint Resolve steps_getPipeMetadata : steps.

Lemma steps_getViewDirectivesMetadata component :
  steps R (getViewDirectivesMetadata E component).
Proof. unfold getViewDirectivesMetadata. steps_auto. Qed.

Lemma steps_getViewPipesMetadata component :
  steps R (getViewPipesMetadata E component).
Proof. unfold getViewPipesMetadata. steps_auto. Qed.

Lemma steps_getAppModuleMetadata fuel moduleType meta :
  steps R (getAppModuleMetadata E fuel moduleType meta).
Proof.
  revert moduleType meta. induction fuel as [|fuel IH]; intros moduleType meta.
  { simpl. steps_auto. }
  intros s. simpl. rewrite bind_gets.
  set (key := resolveForwardRef moduleType).
  assert (body : forall annotated useCache,
    (useCache = true -> _appModuleCache s !! key = None) ->
    R s (snd (match annotated with
      | None => throw (BaseException
                  ("Could not compile '" +:+ stringify E key +:+
                   "' because it is not an AppModule."))
      | Some meta =>
          providers <- match am_providers meta with
                       | Some ps => getProvidersMetadata E ps
                       | None => ret []
                       end ;;
          directives <- typesMetadata E (am_directives meta) ;;
          pipes <- typesMetadata E (am_pipes meta) ;;
          precompile <- typesMetadata E (am_precompile meta) ;;
          lists <-
            match am_modules meta with
            | Some ms =>
                forEachM (fun acc moduleType =>
                    meta <- getAppModuleMetadata E fuel moduleType None ;;
                    ret (pushModule acc meta))
                  (flattenArray ms [])
                  (mkModuleLists providers directives pipes precompile [])
            | None => ret (mkModuleLists providers directives pipes precompile [])
            end ;;
          type <- getTypeMetadata E key (staticTypeModuleUrl key) None ;;
          objectId <- allocate ;;
          let compileMeta :=
            mkCompileAppModuleMetadata objectId type (ml_providers lists)
              (ml_directives lists) (ml_pipes lists) (ml_precompile lists)
              (ml_modules lists) in
          (if useCache : bool
           then modify (with_appModuleCache (insert key compileMeta))
           else ret tt) ;;;
          ret compileMeta
      end s))).
  { intros [annotated|] useCache Hmiss; [|reflexivity].
    apply stepsFrom_start; [apply _|].
    from_bind.
    from_bind.
    from_bind.
    from_bind.
    from_bind.
    from_bind.
    from_bind.
    apply stepsFrom_bind; [|intros _; from_steps].
    destruct useCache; [|from_steps].
    intros s1 Hs1. apply R_appModule; auto. }
  destruct (_appModuleCache s !! key) eqn:Hkey, meta as [meta|]; simpl.
  - apply (body (Some meta) false). discriminate.
  - reflexivity.
  - apply (body (Some meta) false). discriminate.
  - apply (body (findAppModule (annotations E key)) true). reflexivity.
Qed.

End Cached.

(** ** Calls *)

Section Calls.

Context (E : Collaborators) (R : relation Resolver) `{!PreOrder R}.
Hypothesis R_register : forall token s,
  _anonymousTypes s !! token = None -> R s (registerAnonymous token s).
Hypothesis R_allocate : forall s, R s (snd (allocate s)).
Hypothesis R_directive : forall s0 s k v,
  R s0 s -> _directiveCache s0 !! k = None ->
  R s0 (with_directiveCache (insert k v) s).
Hypothesis R_pipe : forall s0 s k v,
  R s0 s -> _pipeCache s0 !! k = None -> R s0 (with_pipeCache (insert k v) s).
Hypothesis R_appModule : forall s0 s k v,
  R s0 s -> _appModuleCache s0 !! k = None ->
  R s0 (with_appModuleCache (insert k v) s).

(** Every call that does not invalidate the caches satisfies [R]. *)
Lemma perform_related c s : invalidates c = false -> R s (perform E c s).
Proof.
  destruct c; simpl; try discriminate; intros _.
  - now apply steps_getDirectiveMetadata.
  - now apply steps_maybeGetDirectiveMetadata.
  - now apply steps_getAppModuleMetadata.
  - now apply steps_getPipeMetadata.
  - now apply steps_getViewDirectivesMetadata.
  - now apply steps_getViewPipesMetadata.
  - now apply steps_getTypeMetadata.
  - now apply steps_getFactoryMetadata.
  - now apply steps_getDependenciesMetadata.
  - now apply steps_getTokenMetadata.
  - now apply steps_getProvidersMetadata.
  - now apply steps_getProviderMetadata.
  - now apply steps_getQueriesMetadata.
  - now apply steps_getQueryMetadata.
Qed.

Lemma performAll_related cs s :
  (forall c s, invalidates c = true -> R s (perform E c s)) ->
  R s (performAll E cs s).
Proof.
  intros Hclear. revert s. induction cs as [|c cs IH]; intros s; simpl.
  - reflexivity.
  - etransitivity; [|apply IH].
    destruct (invalidates c) eqn:Hc; [now apply Hclear|now apply perform_related].
Qed.

Lemma performAll_valid cs s :
  forallb (fun c => negb (invalidates c)) cs = true -> R s (performAll E cs s).
Proof.
  revert s. induction cs as [|c cs IH]; intros s; simpl.
  - reflexivity.
  - intros [Hc Hcs]%andb_prop. etransitivity; [|now apply IH].
    apply perform_related. now destruct (invalidates c).
Qed.

End Calls.

(** * Anonymous types *)

Lemma append_underscore_inj (a b : string) : a +:+ "_" = b +:+ "_" -> a = b.
Proof.
  revert b. induction a as [|c a IH]; intros [|d b]; simpl; try reflexivity.
  - intros [= _ H]. now destruct b.
  - intros [= _ H]. now destruct a.
  - intros [= -> H]. f_equal. now apply IH.
Qed.

Lemma syntheticName_inj (n m : nat) : syntheticName n = syntheticName m -> n = m.
Proof.
  unfold syntheticName. intros H.
  apply (inj (String.app "anonymous_token_")) in H.
  apply append_underscore_inj in H. now apply (inj pretty) in H.
Qed.

#[global] Instance anonymousKept_preorder : PreOrder anonymousKept.
Proof.
  split.
  - intros s H. split; [exact H|reflexivity].
  - intros s1 s2 s3 H12 H23 H1.
    destruct (H12 H1) as [H2 Hsub12]. destruct (H23 H2) as [H3 Hsub23].
    split; [exact H3|]. now transitivity (_anonymousTypes s2).
Qed.

Lemma anonymousWf_new : anonymousWf newResolver.
Proof. split; intros *; simpl; rewrite lookup_empty; discriminate. Qed.

Lemma anonymousWf_register token s :
  anonymousWf s -> _anonymousTypes s !! token = None ->
  anonymousWf (registerAnonymous token s).
Proof.
  intros [Hlt Hinj] Hnone. split; simpl.
  - intros k n. rewrite lookup_insert_Some. intros [[_ <-]|[_ H]]; [lia|].
    apply Hlt in H. lia.
  - intros k1 k2 n. rewrite !lookup_insert_Some.
    intros [[<- <-]|[Hne1 H1]] [[<- Hn]|[Hne2 H2]]; try reflexivity.
    + apply Hlt in H2. lia.
    + apply Hlt in H1. lia.
    + now apply (Hinj k1 k2 n).
Qed.

Lemma anonymousKept_register token s :
  _anonymousTypes s !! token = None -> anonymousKept s (registerAnonymous token s).
Proof.
  intros Hnone Hwf. split; [now apply anonymousWf_register|].
  simpl. now apply insert_subseteq.
Qed.

(** A step that leaves the anonymous types as they are keeps them. *)
Lemma anonymousKept_same s0 s s' :
  _anonymousTypes s' = _anonymousTypes s ->
  _anonymousTypeIndex s' = _anonymousTypeIndex s ->
  anonymousKept s0 s -> anonymousKept s0 s'.
Proof.
  unfold anonymousKept, anonymousWf. intros -> ->. exact id.
Qed.

Lemma anonymousKept_perform E c s : anonymousKept s (perform E c s).
Proof.
  destruct (invalidates c) eqn:Hc.
  - destruct c; try discriminate; simpl;
      (eapply anonymousKept_same; [| |reflexivity]; reflexivity).
  - apply perform_related; try apply _; try assumption.
    + apply anonymousKept_register.
    + intros s0. now eapply anonymousKept_same; [| |reflexivity].
    + intros s0 s1 k v H _. now eapply anonymousKept_same; [| |exact H].
    + intros s0 s1 k v H _. now eapply anonymousKept_same; [| |exact H].
    + intros s0 s1 k v H _. now eapply anonymousKept_same; [| |exact H].
Qed.

Lemma anonymousKept_performAll E cs s : anonymousKept s (performAll E cs s).
Proof.
  revert s. induction cs as [|c cs IH]; intros s; simpl; [reflexivity|].
  etransitivity; [apply anonymousKept_perform|apply IH].
Qed.

(** What [sanitizeTokenName] does for an anonymous entity: the entity has
    an index afterwards, and the name is made from it. *)
Lemma sanitizeTokenName_anonymous E token s :
  isAnonymous E token -> anonymousWf s ->
  exists n,
    sanitizeTokenName E token s =
      (Ok (sanitizeIdentifier E (syntheticName n)),
       snd (sanitizeTokenName E token s)) /\
    _anonymousTypes (snd (sanitizeTokenName E token s)) !! token = Some n /\
    anonymousWf (snd (sanitizeTokenName E token s)) /\
    _anonymousTypes s ⊆ _anonymousTypes (snd (sanitizeTokenName E token s)).
Proof.
  unfold isAnonymous, sanitizeTokenName. intros -> Hwf.
  rewrite bind_gets.
  destruct (_anonymousTypes s !! token) as [n|] eqn:Hfound.
  - exists n. simpl. split; [reflexivity|]. split; [assumption|]. now split.
  - exists (_anonymousTypeIndex s). unfold bind, modify, gets, ret. simpl.
    rewrite lookup_insert_eq. simpl.
    split; [reflexivity|]. split; [reflexivity|].
    split; [now apply anonymousWf_register|]. now apply insert_subseteq.
Qed.

(** C6 (anonymous-entity naming).  On a resolver that has served any calls,
    an anonymous entity gets a name [anonymous_token_<N>_]; after any
    further calls, [clearCache] and [clearCacheFor] among them, the same
    entity gets the same name again, and another anonymous entity gets a
    different name.  The sanitizer is supposed to leave the synthetic names,
    which are identifiers already, as they are. *)
Theorem anonymous_names_stable E (before between : list Call) (t1 t2 : value) :
  (forall n, sanitizeIdentifier E (syntheticName n) = syntheticName n) ->
  isAnonymous E t1 -> isAnonymous E t2 ->
  let r1 := sanitizeTokenName E t1 (performAll E before newResolver) in
  let r2 := sanitizeTokenName E t2 (performAll E between (snd r1)) in
  (exists n, fst r1 = Ok (syntheticName n)) /\
  (exists n, fst r2 = Ok (syntheticName n)) /\
  (t1 = t2 -> fst r2 = fst r1) /\
  (t1 <> t2 -> fst r2 <> fst r1).
Proof.
  intros Hsan Hanon1 Hanon2 r1 r2.
  assert (Hwf0 : anonymousWf (performAll E before newResolver)).
  { apply (anonymousKept_performAll E before newResolver), anonymousWf_new. }
  destruct (sanitizeTokenName_anonymous E t1 _ Hanon1 Hwf0)
    as (n1 & Hr1 & Hn1 & Hwf1 & _).
  fold r1 in Hr1, Hn1, Hwf1.
  destruct (anonymousKept_performAll E between (snd r1) Hwf1) as [Hwf2 Hsub2].
  destruct (sanitizeTokenName_anonymous E t2 _ Hanon2 Hwf2)
    as (n2 & Hr2 & Hn2 & Hwf3 & Hsub3).
  fold r2 in Hr2, Hn2, Hwf3, Hsub3.
  assert (Hn1' : _anonymousTypes (snd r2) !! t1 = Some n1).
  { eapply lookup_weaken; [|exact Hsub3]. eapply lookup_weaken; eassumption. }
  rewrite Hr1, Hr2. simpl. rewrite !Hsan.
  split; [now exists n1|]. split; [now exists n2|]. split.
  - intros <-. congruence.
  - intros Hne Heq%Ok_inj%syntheticName_inj. subst n2.
    apply Hne. exact (proj2 Hwf3 t1 t2 n1 Hn1' Hn2).
Qed.

(** * The directive cache *)

#[global] Instance directivesKept_preorder : PreOrder directivesKept.
Proof.
  split.
  - intros s. unfold directivesKept. reflexivity.
  - intros s1 s2 s3. unfold directivesKept. intros H12 H23.
    now transitivity (_directiveCache s2).
Qed.

Lemma directivesKept_perform E c s :
  invalidates c = false -> directivesKept s (perform E c s).
Proof.
  apply perform_related; try apply _.
  - intros token s0 _. unfold directivesKept. reflexivity.
  - intros s0. unfold directivesKept. reflexivity.
  - intros s0 s1 k v H Hnone. unfold directivesKept in *. simpl.
    now apply insert_subseteq_r.
  - intros s0 s1 k v H _. exact H.
  - intros s0 s1 k v H _. exact H.
Qed.

Lemma directivesKept_performAll E cs s :
  forallb (fun c => negb (invalidates c)) cs = true ->
  directivesKept s (performAll E cs s).
Proof.
  revert s. induction cs as [|c cs IH]; intros s; simpl; [reflexivity|].
  intros [Hc Hcs]%andb_prop. etransitivity; [|now apply IH].
  apply directivesKept_perform. now destruct (invalidates c).
Qed.

(** A directive that the cache holds is returned as it is, and nothing
    else happens, whoever the collaborators are. *)
Lemma getDirectiveMetadata_hit E directiveType s m :
  _directiveCache s !! resolveForwardRef directiveType = Some m ->
  getDirectiveMetadata E directiveType s = (Ok m, s).
Proof.
  intros H. unfold getDirectiveMetadata. rewrite bind_gets. now rewrite H.
Qed.

(** After [getDirectiveMetadata] has returned, the cache holds what it
    returned under the dereferenced type. *)
Lemma getDirectiveMetadata_stored E directiveType s m s1 :
  getDirectiveMetadata E directiveType s = (Ok m, s1) ->
  _directiveCache s1 !! resolveForwardRef directiveType = Some m.
Proof.
  unfold getDirectiveMetadata. rewrite bind_gets.
  destruct (_directiveCache s !! resolveForwardRef directiveType) eqn:Hkey.
  - now intros [= <- <-].
  - intros H. inv_bind H. inv_bind H. destruct a0 as [[[[? ?] ?] ?] ?].
    inv_bind H. inv_bind H. inv_bind H. inv_bind H.
    rewrite bind_modify in H. injection H as <- <-.
    simpl. apply lookup_insert_eq.
Qed.

(** C5 (directive cache).  When [getDirectiveMetadata] has returned [m] for a
    type, then after any calls that do not invalidate the caches it returns
    the same object [m] (with its identity [cd_objectId]) for the type and
    for every reference that dereferences to the same type, and leaves the
    resolver as it is: nothing is computed or allocated, and the
    collaborators [E'] are not consulted.  The cache holds [m] under the
    dereferenced type. *)
Theorem getDirectiveMetadata_cached E E' directiveType s m s1
    (between : list Call) (again : value) :
  getDirectiveMetadata E directiveType s = (Ok m, s1) ->
  forallb (fun c => negb (invalidates c)) between = true ->
  resolveForwardRef again = resolveForwardRef directiveType ->
  let s2 := performAll E between s1 in
  getDirectiveMetadata E' directiveType s2 = (Ok m, s2) /\
  getDirectiveMetadata E' again s2 = (Ok m, s2) /\
  _directiveCache s2 !! resolveForwardRef directiveType = Some m.
Proof.
  intros Hfirst Hvalid Hsame s2.
  assert (Hkey : _directiveCache s2 !! resolveForwardRef directiveType = Some m).
  { eapply lookup_weaken.
    - eapply getDirectiveMetadata_stored, Hfirst.
    - now apply directivesKept_performAll. }
  split; [now apply getDirectiveMetadata_hit|].
  split; [|exact Hkey].
  apply getDirectiveMetadata_hit. now rewrite Hsame.
Qed.

(** * Animation metadata *)

(** C10 (lenient animation metadata).  [getAnimationMetadata] and
    [getAnimationStateMetadata] never throw; they return null exactly for
    the nodes that are instances of none of the classes they test for, and
    a step of a group or sequence that is no such instance is a null
    among the compiled steps. *)
Theorem animation_metadata_lenient (v : AnimationMetadata)
    (w : AnimationStateMetadata) (group : bool) (steps : list AnimationMetadata) :
  (getAnimationMetadata v = None <-> isAnimationVariant v = false) /\
  (getAnimationStateMetadata w = None <-> isAnimationStateVariant w = false) /\
  getAnimationMetadata (AnimationWithSteps group steps) =
    Some ((if group then CompileAnimationGroup else CompileAnimationSequence)
            (List.map getAnimationMetadata steps)).
Proof.
  split; [|split].
  - destruct v as [style|steps'|timings styles|g steps'|u]; simpl;
      try (split; discriminate); try (split; reflexivity).
    destruct g; split; discriminate.
  - destruct w; simpl; split; try discriminate; reflexivity.
  - simpl. now destruct group.
Qed.

(** * Dependencies *)

(** ** Methods that always return *)

Lemma returns_ret {A} (a : A) (P : A -> Prop) : P a -> returns (ret a) P.
Proof. intros H s. now exists a, s. Qed.

Lemma returns_bind {A B} (m : M A) (f : A -> M B) (P : A -> Prop) (Q : B -> Prop) :
  returns m P -> (forall a, P a -> returns (f a) Q) -> returns (bind m f) Q.
Proof.
  intros Hm Hf s. destruct (Hm s) as (a & s1 & Hrun & Ha).
  destruct (Hf a Ha s1) as (b & s2 & Hrun2 & Hb).
  exists b, s2. split; [|exact Hb]. now rewrite (bind_eq_Ok _ _ _ _ _ Hrun).
Qed.

Lemma returns_weaken {A} (m : M A) (P Q : A -> Prop) :
  returns m P -> (forall a, P a -> Q a) -> returns m Q.
Proof.
  intros Hm HPQ s. destruct (Hm s) as (a & s' & Hrun & Ha). eauto.
Qed.

Lemma returns_mapM {A B} (f : A -> M B) (P : A -> B -> Prop) (xs : list A) :
  (forall x, returns (f x) (P x)) -> returns (mapM f xs) (Forall2 P xs).
Proof.
  intros Hf. induction xs as [|x xs IH]; simpl.
  - apply returns_ret. constructor.
  - eapply returns_bind; [apply Hf|intros y Hy].
    eapply returns_bind; [apply IH|intros ys Hys].
    apply returns_ret. now constructor.
Qed.

Section Dependencies.

Context (E : Collaborators).

Lemma sanitizeTokenName_returns token :
  returns (sanitizeTokenName E token) (fun _ => True).
Proof.
  intros s. unfold sanitizeTokenName.
  destruct (includes _ _); [|eexists _, _; split; [reflexivity|exact I]].
  unfold bind, gets, modify, ret; simpl.
  destruct (_anonymousTypes s !! token); simpl;
    eexists _, _; (split; [reflexivity|exact I]).
Qed.

Lemma getTokenMetadata_returns t :
  returns (getTokenMetadata E t) (fun r => tokenOf r = resolveForwardRef t).
Proof.
  unfold getTokenMetadata.
  destruct (resolveForwardRef t) eqn:Ht.
  2: { apply returns_ret. reflexivity. }
  all: (eapply returns_bind; [apply sanitizeTokenName_returns|intros ? _];
         apply returns_ret; reflexivity).
Qed.

(** [getQueryMetadata] throws for the queries without a selector that are
    not bound to variables, and returns for all others. *)
Lemma getQueryMetadata_returns q propertyName typeOrFunc :
  queryFails q = false ->
  returns (getQueryMetadata E q propertyName typeOrFunc) (fun _ => True).
Proof.
  unfold queryFails, getQueryMetadata. intros Hq.
  eapply returns_bind with (P := fun _ => True).
  - destruct (q_isVarBindingQuery q); simpl in Hq.
    + eapply returns_weaken; [apply returns_mapM with (P := fun _ _ => True)|auto].
      intros x. eapply returns_weaken; [apply getTokenMetadata_returns|auto].
    + rewrite Hq.
      eapply returns_bind; [apply getTokenMetadata_returns|intros t _].
      now apply returns_ret.
  - intros selectors _.
    eapply returns_bind with (P := fun _ => True); [|intros; now apply returns_ret].
    destruct (isPresent (q_read q)); [|now apply returns_ret].
    eapply returns_bind; [apply getTokenMetadata_returns|intros t _].
    now apply returns_ret.
Qed.

Lemma getQueryMetadata_throws q propertyName typeOrFunc s :
  queryFails q = true ->
  getQueryMetadata E q propertyName typeOrFunc s =
    (Throw (queryError E propertyName typeOrFunc), s).
Proof.
  unfold queryFails, getQueryMetadata. intros [Hvar Hsel]%andb_prop.
  destruct (q_isVarBindingQuery q); [discriminate|]. simpl in *.
  now rewrite Hsel.
Qed.

(** ** One parameter *)

Lemma resolveParam_unresolved typeOrFunc h param s :
  unresolved param = true ->
  resolveParam E typeOrFunc h param s = (Ok (None, true), s).
Proof. unfold unresolved, resolveParam. now intros ->. Qed.

Lemma resolveParam_resolved typeOrFunc h param :
  unresolved param = false -> paramQueryFails param = false ->
  returns (resolveParam E typeOrFunc h param)
    (fun r => snd r = h /\ is_Some (fst r) /\ standsFor param (fst r)).
Proof.
  unfold paramQueryFails, resolveParam. intros Hres. rewrite Hres. simpl.
  unfold unresolved in Hres. rewrite Hres.
  intros [Hq Hvq]%orb_false_elim.
  eapply returns_bind with (P := fun _ => True).
  { destruct (query (scanParam param)); [|now apply returns_ret].
    eapply returns_bind; [now apply getQueryMetadata_returns|intros].
    now apply returns_ret. }
  intros q _. eapply returns_bind with (P := fun _ => True).
  { destruct (viewQuery (scanParam param)); [|now apply returns_ret].
    eapply returns_bind; [now apply getQueryMetadata_returns|intros].
    now apply returns_ret. }
  intros vq _. eapply returns_bind; [apply getTokenMetadata_returns|intros t Ht].
  apply returns_ret. simpl. split; [reflexivity|]. split; [now eexists|].
  now split.
Qed.

Lemma resolveParam_query_fails typeOrFunc h param s :
  paramQueryFails param = true ->
  exists s', resolveParam E typeOrFunc h param s =
               (Throw (queryError E None typeOrFunc), s').
Proof.
  unfold paramQueryFails, resolveParam, unresolved.
  intros [Hres Hq]%andb_prop. apply negb_true_iff in Hres. rewrite Hres.
  destruct (query (scanParam param)) as [q|] eqn:Hquery.
  - destruct (queryFails q) eqn:Hfail.
    + exists s. unfold bind. now rewrite getQueryMetadata_throws.
    + simpl in Hq.
      destruct (getQueryMetadata_returns q None typeOrFunc Hfail s)
        as (r & s1 & Hrun & _).
      destruct (viewQuery (scanParam param)) as [vq|]; [|discriminate].
      exists s1. unfold bind at 1. unfold bind at 1. rewrite Hrun. simpl.
      unfold bind. now rewrite getQueryMetadata_throws.
  - simpl in Hq. destruct (viewQuery (scanParam param)) as [vq|]; [|discriminate].
    exists s. rewrite bind_ret. unfold bind. now rewrite getQueryMetadata_throws.
Qed.

(** The callback marks a parameter unresolved exactly when its scan left
    no token; when it throws, a token had been found. *)
Lemma resolveParam_marks typeOrFunc h param s :
  match resolveParam E typeOrFunc h param s with
  | (Ok (dep, flag), _) =>
      (dep = None <-> unresolved param = true) /\
      flag = h || unresolved param
  | (Throw _, _) => unresolved param = false
  end.
Proof.
  destruct (unresolved param) eqn:Hres.
  - rewrite resolveParam_unresolved by exact Hres.
    split; [tauto|]. now rewrite orb_true_r.
  - destruct (paramQueryFails param) eqn:Hq.
    + destruct (resolveParam_query_fails typeOrFunc h param s Hq) as [s' ->].
      reflexivity.
    + destruct (resolveParam_resolved typeOrFunc h param Hres Hq s)
        as ([dep flag] & s' & -> & Hflag & [d Hd] & _).
      simpl in *. subst. split; [split; discriminate|]. now rewrite orb_false_r.
Qed.

(** ** The list of parameters *)

Lemma resolveParam_returns typeOrFunc h param :
  paramQueryFails param = false ->
  returns (resolveParam E typeOrFunc h param)
    (fun r => standsFor param (fst r) /\ snd r = h || unresolved param).
Proof.
  intros Hq. destruct (unresolved param) eqn:Hres.
  - intros s. rewrite resolveParam_unresolved by exact Hres.
    eexists _, _. split; [reflexivity|]. simpl. split; [exact Hres|].
    now rewrite orb_true_r.
  - eapply returns_weaken; [now apply resolveParam_resolved|].
    intros [dep flag] (-> & _ & Hdep). simpl. split; [exact Hdep|].
    now rewrite orb_false_r.
Qed.

Lemma mapParams_returns typeOrFunc params h :
  existsb paramQueryFails params = false ->
  returns (mapParams E typeOrFunc params h)
    (fun r => Forall2 standsFor params (fst r) /\
              snd r = h || existsb unresolved params).
Proof.
  revert h. induction params as [|param rest IH]; intros h; simpl.
  - intros _. apply returns_ret. simpl. split; [constructor|].
    now rewrite orb_false_r.
  - intros [Hq Hrest]%orb_false_elim.
    eapply returns_bind; [now apply resolveParam_returns|].
    intros r [Hdep Hflag].
    eapply returns_bind; [now apply IH|]. intros rs [Hdeps Hflags].
    apply returns_ret. simpl. split; [now constructor|].
    rewrite Hflags, Hflag. now rewrite orb_assoc.
Qed.

Lemma mapParams_query_fails typeOrFunc params h s :
  existsb paramQueryFails params = true ->
  exists s', mapParams E typeOrFunc params h s =
               (Throw (queryError E None typeOrFunc), s').
Proof.
  revert h s. induction params as [|param rest IH]; intros h s; simpl;
    [discriminate|].
  destruct (paramQueryFails param) eqn:Hq; simpl.
  - intros _. destruct (resolveParam_query_fails typeOrFunc h param s Hq)
      as [s' Hrun].
    exists s'. now rewrite (bind_eq_Throw _ _ _ _ _ Hrun).
  - intros Hrest.
    destruct (resolveParam_returns typeOrFunc h param Hq s)
      as (r & s1 & Hrun & _).
    destruct (IH (snd r) s1 Hrest) as [s' Hrun'].
    exists s'. rewrite (bind_eq_Ok _ _ _ _ _ Hrun).
    now rewrite (bind_eq_Throw _ _ _ _ _ Hrun').
Qed.

Lemma getDependenciesMetadata_unfold typeOrFunc dependencies :
  getDependenciesMetadata E typeOrFunc dependencies =
  (r <- mapParams E typeOrFunc (parametersOf E typeOrFunc dependencies) false ;;
   if snd r then throw (cannotResolve E typeOrFunc (fst r))
   else ret (present (fst r))).
Proof.
  unfold getDependenciesMetadata, parametersOf.
  now destruct dependencies.
Qed.

(** A list with an unresolved parameter makes [getDependenciesMetadata]
    throw: the exception of a query without selector, when a resolved
    parameter has one, and otherwise the exception that lists the
    parameters. *)
Lemma getDependenciesMetadata_unresolved typeOrFunc dependencies s :
  existsb unresolved (parametersOf E typeOrFunc dependencies) = true ->
  exists e s',
    getDependenciesMetadata E typeOrFunc dependencies s = (Throw e, s') /\
    if existsb paramQueryFails (parametersOf E typeOrFunc dependencies)
    then e = queryError E None typeOrFunc
    else exists deps,
      Forall2 standsFor (parametersOf E typeOrFunc dependencies) deps /\
      e = cannotResolve E typeOrFunc deps.
Proof.
  intros Hunres. rewrite getDependenciesMetadata_unfold.
  destruct (existsb paramQueryFails _) eqn:Hq.
  - destruct (mapParams_query_fails typeOrFunc _ false s Hq) as [s' Hrun].
    exists (queryError E None typeOrFunc), s'.
    now rewrite (bind_eq_Throw _ _ _ _ _ Hrun).
  - destruct (mapParams_returns typeOrFunc _ false Hq s)
      as ([deps flag] & s' & Hrun & Hdeps & Hflag).
    simpl in *. rewrite Hunres in Hflag. subst flag.
    exists (cannotResolve E typeOrFunc deps), s'.
    rewrite (bind_eq_Ok _ _ _ _ _ Hrun). simpl. split; [reflexivity|].
    now exists deps.
Qed.

(** ** The list that is returned *)

Lemma returns_run {A} (m : M A) (P : A -> Prop) s a s' :
  returns m P -> m s = (Ok a, s') -> P a.
Proof.
  intros Hm Hrun. destruct (Hm s) as (a' & s'' & Hrun' & Ha).
  rewrite Hrun in Hrun'. now injection Hrun' as -> _.
Qed.

Lemma resolveParam_Ok typeOrFunc h param s r s' :
  resolveParam E typeOrFunc h param s = (Ok r, s') ->
  standsFor param (fst r) /\ snd r = h || unresolved param.
Proof.
  destruct (unresolved param) eqn:Hres.
  - rewrite resolveParam_unresolved by exact Hres. intros [= <- <-]. simpl.
    split; [exact Hres|]. now rewrite orb_true_r.
  - unfold resolveParam. unfold unresolved in Hres. rewrite Hres.
    intros H. inv_bind H. inv_bind H. inv_bind H. injection H as <- <-.
    simpl. split; [|now rewrite orb_false_r].
    split; [exact Hres|].
    exact (returns_run _ _ _ _ _ (getTokenMetadata_returns _) Hrun1).
Qed.

Lemma mapParams_Ok typeOrFunc params h s r s' :
  mapParams E typeOrFunc params h s = (Ok r, s') ->
  Forall2 standsFor params (fst r) /\ snd r = h || existsb unresolved params.
Proof.
  revert h s r. induction params as [|param rest IH]; intros h s r; simpl.
  - intros [= <- <-]. simpl. split; [constructor|]. now rewrite orb_false_r.
  - intros H. inv_bind H. inv_bind H. injection H as <- <-.
    destruct (resolveParam_Ok _ _ _ _ _ _ Hrun) as [Hdep Hflag].
    destruct (IH _ _ _ Hrun0) as [Hdeps Hflags].
    simpl. split; [now constructor|].
    rewrite Hflags, Hflag. now rewrite orb_assoc.
Qed.

Lemma present_resolved params deps :
  Forall2 standsFor params deps -> existsb unresolved params = false ->
  Forall2 (fun param d => standsFor param (Some d)) params (present deps).
Proof.
  unfold present. induction 1 as [|param dep params deps Hdep _ IH]; simpl.
  - constructor.
  - intros [Hres Hrest]%orb_false_elim. destruct dep as [d|]; simpl.
    + constructor; [exact Hdep|now apply IH].
    + simpl in Hdep. congruence.
Qed.

(** A list that [getDependenciesMetadata] returns has a dependency for
    every parameter, none of which is unresolved. *)
Lemma getDependenciesMetadata_Ok typeOrFunc dependencies s l s' :
  getDependenciesMetadata E typeOrFunc dependencies s = (Ok l, s') ->
  existsb unresolved (parametersOf E typeOrFunc dependencies) = false /\
  Forall2 (fun param d => standsFor param (Some d))
    (parametersOf E typeOrFunc dependencies) l.
Proof.
  rewrite getDependenciesMetadata_unfold. intros H. inv_bind H.
  destruct (mapParams_Ok _ _ _ _ _ _ Hrun) as [Hdeps Hflag].
  simpl in Hflag. rewrite Hflag in H.
  destruct (existsb unresolved _) eqn:Hunres; [discriminate|].
  injection H as <- <-. split; [reflexivity|]. now apply present_resolved.
Qed.

End Dependencies.

(** C2 (unresolved parameters), as amended.  The callback of [params.map]
    marks a parameter unresolved exactly when the scan of its qualifiers
    left no token, whatever the scan found as query or view query; and a
    list with such a parameter, be it one whose qualifiers are a query
    only, makes [getDependenciesMetadata] throw. *)
Theorem unresolved_iff_no_token E typeOrFunc dependencies h param s :
  match resolveParam E typeOrFunc h param s with
  | (Ok (dep, flag), _) =>
      (dep = None <-> isBlank (token (scanParam param)) = true) /\
      flag = h || isBlank (token (scanParam param))
  | (Throw _, _) => isBlank (token (scanParam param)) = false
  end /\
  (isBlank (token (scanParam param)) = true ->
   param ∈ parametersOf E typeOrFunc dependencies ->
   exists e s', getDependenciesMetadata E typeOrFunc dependencies s = (Throw e, s')).
Proof.
  split; [apply resolveParam_marks|].
  intros Hblank Hin.
  destruct (getDependenciesMetadata_unresolved E typeOrFunc dependencies s)
    as (e & s' & Hrun & _); [|now exists e, s'].
  apply existsb_exists. exists param. split; [|exact Hblank].
  now apply list_elem_of_In.
Qed.

(** C3 (all or nothing), as amended.  When a parameter of the list is
    unresolved, [getDependenciesMetadata] throws and returns no list.  The
    exception is the one of a query without selector when a resolved
    parameter carries such a query; otherwise its message lists, for every
    parameter in order, the resolved token or [?].  A list it returns has
    a dependency for every parameter. *)
Theorem getDependenciesMetadata_all_or_nothing E typeOrFunc dependencies s :
  let params := parametersOf E typeOrFunc dependencies in
  (existsb unresolved params = true ->
   exists e s',
     getDependenciesMetadata E typeOrFunc dependencies s = (Throw e, s') /\
     if existsb paramQueryFails params
     then e = queryError E None typeOrFunc
     else exists deps,
       Forall2 standsFor params deps /\
       e = BaseException
             ("Can't resolve all parameters for " +:+ stringify E typeOrFunc +:+
              ": (" +:+
              join ", " (List.map (fun dep =>
                match dep with
                | Some dep => stringifyToken E (dep_token dep)
                | None => "?"
                end) deps) +:+ ").")) /\
  (forall l s',
     getDependenciesMetadata E typeOrFunc dependencies s = (Ok l, s') ->
     existsb unresolved params = false /\
     Forall2 (fun param d => standsFor param (Some d)) params l).
Proof.
  intros params. split.
  - exact (getDependenciesMetadata_unresolved E typeOrFunc dependencies s).
  - intros l s'. apply getDependenciesMetadata_Ok.
Qed.

(** * Providers *)

Lemma leavesOf_unfold p :
  leavesOf p = match resolveForwardRef p with
               | VArray items => flat_map leavesOf items
               | leaf => [leaf]
               end.
Proof. destruct p; reflexivity. Qed.

Lemma shapeOfValue_unfold p :
  shapeOfValue p = match resolveForwardRef p with
                   | VArray items => Nested (List.map shapeOfValue items)
                   | _ => Leaf
                   end.
Proof. destruct p; reflexivity. Qed.

Lemma flattenItem_unfold x out :
  flattenItem x out = match resolveForwardRef x with
                      | VArray items => fold_left (fun o y => flattenItem y o) items out
                      | item => out ++ [item]
                      end.
Proof. destruct x; reflexivity. Qed.

(** [flattenArray] appends the leaves of the tree, from left to right. *)
Lemma flattenItem_leaves x out : flattenItem x out = out ++ leavesOf x.
Proof.
  revert out. induction x as [p IH] using provider_tree_ind. intros out.
  rewrite flattenItem_unfold, leavesOf_unfold.
  destruct (resolveForwardRef p) eqn:Hp; try reflexivity.
  specialize (IH _ eq_refl). clear Hp. revert out.
  induction IH as [|y items Hy _ IHitems]; intros out; simpl.
  - now rewrite app_nil_r.
  - rewrite Hy, IHitems. now rewrite app_assoc.
Qed.

Lemma flattenArray_leaves tree out :
  flattenArray tree out = out ++ flat_map leavesOf tree.
Proof.
  unfold flattenArray. revert out.
  induction tree as [|x tree IH]; intros out; simpl.
  - now rewrite app_nil_r.
  - rewrite flattenItem_leaves, IH. now rewrite app_assoc.
Qed.

(** [mapM] over two lists, one after the other. *)
Lemma mapM_app {A B} (f : A -> M B) (xs ys : list A) s rs s1 rs' s2 :
  mapM f xs s = (Ok rs, s1) -> mapM f ys s1 = (Ok rs', s2) ->
  mapM f (xs ++ ys) s = (Ok (rs ++ rs'), s2).
Proof.
  revert s rs. induction xs as [|x xs IH]; intros s rs; simpl.
  - now intros [= <- <-].
  - intros H Hys. inv_bind H. inv_bind H. injection H as <- <-.
    rewrite (bind_eq_Ok _ _ _ _ _ Hrun).
    now rewrite (bind_eq_Ok _ _ _ _ _ (IH _ _ Hrun0 Hys)).
Qed.

Lemma mapM_app_inv {A B} (f : A -> M B) (xs ys : list A) s r s2 :
  mapM f (xs ++ ys) s = (Ok r, s2) ->
  exists rs s1 rs',
    mapM f xs s = (Ok rs, s1) /\ mapM f ys s1 = (Ok rs', s2) /\ r = rs ++ rs'.
Proof.
  revert s r. induction xs as [|x xs IH]; intros s r; simpl.
  - intros H. now exists [], s, r.
  - intros H. inv_bind H. inv_bind H. injection H as <- <-.
    destruct (IH _ _ Hrun0) as (rs & mid & rs' & Hxs & Hys & ->).
    exists (a :: rs), mid, rs'.
    rewrite (bind_eq_Ok _ _ _ _ _ Hrun), (bind_eq_Ok _ _ _ _ _ Hxs).
    now split.
Qed.

Section Providers.

Context (E : Collaborators).

(** The entry of a leaf is a leaf. *)
Lemma resolveLeaf_leaf p s e s' :
  resolveLeaf E p s = (Ok e, s') -> entryLeaves e = [e] /\ shapeOfEntry e = Leaf.
Proof.
  unfold resolveLeaf.
  destruct (asProvider p); [|destruct (isProviderLiteral E p);
    [|destruct (isValidType p); [|discriminate]]];
    intros H; inv_bind H; injection H as <- <-; now split.
Qed.

Lemma mapM_mirrors (items : list value) :
  Forall (mirrors E) items ->
  forall s r s', mapM (resolveProvider E) items s = (Ok r, s') ->
    List.map shapeOfEntry r = List.map shapeOfValue items /\
    mapM (resolveLeaf E) (flat_map leavesOf items) s =
      (Ok (flat_map entryLeaves r), s').
Proof.
  induction 1 as [|p items Hp _ IH]; intros s r s'; simpl.
  - now intros [= <- <-].
  - intros H. inv_bind H. inv_bind H. injection H as <- <-.
    destruct (Hp _ _ _ Hrun) as [Hshape Hleaves].
    destruct (IH _ _ _ Hrun0) as [Hshapes Hleaves'].
    simpl. split; [now rewrite Hshape, Hshapes|].
    now apply (mapM_app _ _ _ _ _ _ _ _ Hleaves Hleaves').
Qed.

Lemma resolveProvider_mirrors p : mirrors E p.
Proof.
  induction p as [p IH] using provider_tree_ind. intros s e s'.
  rewrite resolveProvider_unfold, shapeOfValue_unfold, leavesOf_unfold.
  destruct (resolveForwardRef p) eqn:Hp;
    try (intros H; destruct (resolveLeaf_leaf _ _ _ _ H) as [-> ->];
         split; [reflexivity|]; simpl; now rewrite (bind_eq_Ok _ _ _ _ _ H)).
  intros H. inv_bind H. injection H as <- <-.
  destruct (mapM_mirrors items (IH _ eq_refl) _ _ _ Hrun) as [Hshape Hleaves].
  simpl. split; [now rewrite Hshape|exact Hleaves].
Qed.

Lemma mapM_mirrored (items : list value) :
  Forall (mirrored E) items ->
  forall s l s', mapM (resolveLeaf E) (flat_map leavesOf items) s = (Ok l, s') ->
    exists r, mapM (resolveProvider E) items s = (Ok r, s') /\
              flat_map entryLeaves r = l.
Proof.
  induction 1 as [|p items Hp _ IH]; intros s l s'; simpl.
  - intros [= <- <-]. now exists [].
  - intros H. apply mapM_app_inv in H as (l1 & s1 & l2 & H1 & H2 & ->).
    destruct (Hp _ _ _ H1) as (e & He & <-).
    destruct (IH _ _ _ H2) as (r & Hr & <-).
    exists (e :: r). rewrite (bind_eq_Ok _ _ _ _ _ He), (bind_eq_Ok _ _ _ _ _ Hr).
    now split.
Qed.

Lemma resolveProvider_mirrored p : mirrored E p.
Proof.
  induction p as [p IH] using provider_tree_ind. intros s l s'.
  rewrite resolveProvider_unfold, leavesOf_unfold.
  destruct (resolveForwardRef p) eqn:Hp;
    try (simpl; intros H; inv_bind H; injection H as <- <-;
         eexists; split; [exact Hrun|]; now apply (resolveLeaf_leaf _ _ _ _ Hrun)).
  intros H. destruct (mapM_mirrored items (IH _ eq_refl) _ _ _ H) as (r & Hr & <-).
  exists (EntryArray r). now rewrite (bind_eq_Ok _ _ _ _ _ Hr).
Qed.

End Providers.

(** C1 (providers), as amended.  What [getProvidersMetadata] returns has
    the nesting of its input: an entry for each provider of the list, an
    array for each nested array.  Read from left to right through the
    nested arrays, its entries are those of the leaves of the input in the
    order of [flattenArray], computed in that order; and it returns
    whenever the entries of these leaves can be computed. *)
Theorem getProvidersMetadata_mirrors E (providers : list value) (s : Resolver) :
  (forall r s', getProvidersMetadata E providers s = (Ok r, s') ->
     List.map shapeOfEntry r = List.map shapeOfValue providers /\
     mapM (resolveLeaf E) (flattenArray providers []) s =
       (Ok (flat_map entryLeaves r), s')) /\
  (forall l s', mapM (resolveLeaf E) (flattenArray providers []) s = (Ok l, s') ->
     exists r, getProvidersMetadata E providers s = (Ok r, s') /\
               flat_map entryLeaves r = l).
Proof.
  unfold getProvidersMetadata. rewrite flattenArray_leaves. simpl.
  split.
  - intros r s' H. apply (mapM_mirrors E providers); [|exact H].
    apply Forall_forall. intros p _. apply resolveProvider_mirrors.
  - intros l s' H. apply (mapM_mirrored E providers); [|exact H].
    apply Forall_forall. intros p _. apply resolveProvider_mirrored.
Qed.

(** * Modules *)

Lemma bind_assoc {A B C} (m : M A) (f : A -> M B) (g : B -> M C) s :
  bind (bind m f) g s = bind m (fun a => bind (f a) g) s.
Proof. unfold bind. now destruct (m s) as [[a|e] s']. Qed.

Lemma bind_ext {A B} (m : M A) (f g : A -> M B) s :
  (forall a s', f a s' = g a s') -> bind m f s = bind m g s.
Proof. intros H. unfold bind. destruct (m s) as [[a|e] s']; [apply H|reflexivity]. Qed.

Section Modules.

Context (E : Collaborators).

(** [getAppModuleMetadata] in terms of its parts. *)
Lemma getAppModuleMetadata_unfold fuel moduleType meta s :
  getAppModuleMetadata E (S fuel) moduleType meta s =
  let key := resolveForwardRef moduleType in
  match _appModuleCache s !! key, meta with
  | Some compileMeta, None => (Ok compileMeta, s)
  | _, Some meta => compileModule E fuel key meta false s
  | None, None =>
      match findAppModule (annotations E key) with
      | Some meta => compileModule E fuel key meta true s
      | None => (Throw (notAnAppModule E key), s)
      end
  end.
Proof.
  assert (parts : forall ann useCache s,
    compileModule E fuel (resolveForwardRef moduleType) ann useCache s =
    (providers <- match am_providers ann with
                  | Some ps => getProvidersMetadata E ps
                  | None => ret []
                  end ;;
     directives <- typesMetadata E (am_directives ann) ;;
     pipes <- typesMetadata E (am_pipes ann) ;;
     precompile <- typesMetadata E (am_precompile ann) ;;
     lists <-
       match am_modules ann with
       | Some ms =>
           forEachM (fun acc moduleType =>
               meta <- getAppModuleMetadata E fuel moduleType None ;;
               ret (pushModule acc meta))
             (flattenArray ms [])
             (mkModuleLists providers directives pipes precompile [])
       | None => ret (mkModuleLists providers directives pipes precompile [])
       end ;;
     type <- getTypeMetadata E (resolveForwardRef moduleType)
               (staticTypeModuleUrl (resolveForwardRef moduleType)) None ;;
     objectId <- allocate ;;
     let compileMeta :=
       mkCompileAppModuleMetadata objectId type (ml_providers lists)
         (ml_directives lists) (ml_pipes lists) (ml_precompile lists)
         (ml_modules lists) in
     (if useCache
      then modify (with_appModuleCache
                     (insert (resolveForwardRef moduleType) compileMeta))
      else ret tt) ;;;
     ret compileMeta) s).
  { intros ann useCache s0. unfold compileModule, ownMetadata, nestedMetadata.
    rewrite bind_assoc. apply bind_ext. intros providers s1.
    rewrite bind_assoc. apply bind_ext. intros directives s2.
    rewrite bind_assoc. apply bind_ext. intros pipes s3.
    rewrite bind_assoc. apply bind_ext. intros precompile s4.
    rewrite bind_ret. reflexivity. }
  cbn [getAppModuleMetadata]. rewrite bind_gets. cbv zeta.
  destruct (_appModuleCache s !! resolveForwardRef moduleType) eqn:Hkey,
    meta as [meta|]; simpl.
  - now rewrite parts.
  - reflexivity.
  - now rewrite parts.
  - destruct (findAppModule _); [now rewrite parts|reflexivity].
Qed.

#[global] Instance sameModules_preorder : PreOrder sameModules.
Proof.
  split.
  - intros s. reflexivity.
  - intros s1 s2 s3. unfold sameModules. congruence.
Qed.

Lemma sameModules_register token s :
  _anonymousTypes s !! token = None -> sameModules s (registerAnonymous token s).
Proof. reflexivity. Qed.

Lemma ownMetadata_sameModules meta s : sameModules s (snd (ownMetadata E meta s)).
Proof.
  revert s. change (steps sameModules (ownMetadata E meta)).
  unfold ownMetadata.
  pose proof sameModules_register.
  pose proof (steps_getProvidersMetadata E sameModules sameModules_register).
  pose proof (steps_typesMetadata E sameModules sameModules_register).
  steps_auto.
Qed.

Lemma getTypeMetadata_sameModules type moduleUrl dependencies s :
  sameModules s (snd (getTypeMetadata E type moduleUrl dependencies s)).
Proof. now apply steps_getTypeMetadata; [apply _|apply sameModules_register]. Qed.

Lemma getTypeMetadata_runtime type moduleUrl dependencies s t s' :
  getTypeMetadata E type moduleUrl dependencies s = (Ok t, s') ->
  ct_runtime t = resolveForwardRef type.
Proof.
  unfold getTypeMetadata. intros H. inv_bind H. inv_bind H.
  now injection H as <- <-.
Qed.

Lemma ownMetadata_modules meta s own s' :
  ownMetadata E meta s = (Ok own, s') -> ml_modules own = [].
Proof.
  unfold ownMetadata. intros H. inv_bind H. inv_bind H. inv_bind H. inv_bind H.
  now injection H as <- <-.
Qed.

(** ** What the nested modules add *)

Lemma fold_pushModule nested acc :
  let lists := fold_left pushModule nested acc in
  ml_modules lists =
    ml_modules acc ++ flat_map (fun n => cam_type n :: cam_modules n) nested /\
  ml_providers lists = ml_providers acc ++ flat_map cam_providers nested /\
  ml_directives lists = ml_directives acc ++ flat_map cam_directives nested /\
  ml_pipes lists = ml_pipes acc ++ flat_map cam_pipes nested /\
  ml_precompile lists = ml_precompile acc ++ flat_map cam_precompile nested.
Proof.
  revert acc. induction nested as [|n nested IH]; intros acc; simpl.
  - now rewrite !app_nil_r.
  - destruct (IH (pushModule acc n)) as (-> & -> & -> & -> & ->). simpl.
    now rewrite <- !app_assoc.
Qed.

(** ** Modules that can be resolved *)

Lemma nestedMetadata_types fuel meta lists s :
  nestedMetadata E fuel meta lists s =
  forEachM (fun acc moduleType =>
      meta <- getAppModuleMetadata E fuel moduleType None ;;
      ret (pushModule acc meta)) (nestedTypes meta) lists s.
Proof. unfold nestedMetadata, nestedTypes. now destruct (am_modules meta). Qed.

Lemma forEachM_single {A B} (f : B -> A -> M B) x acc s :
  forEachM f [x] acc s = bind (f acc x) ret s.
Proof. reflexivity. Qed.

(** The nested metadata of a module that nests one module. *)
Lemma nestedMetadata_single fuel meta child own s rc s' :
  nestedTypes meta = [child] ->
  getAppModuleMetadata E fuel child None s = (Ok rc, s') ->
  nestedMetadata E fuel meta own s = (Ok (fold_left pushModule [rc] own), s').
Proof.
  intros Hn Hrun. rewrite nestedMetadata_types, Hn, forEachM_single.
  unfold bind. now rewrite Hrun.
Qed.

Lemma nestedMetadata_none fuel meta own s :
  nestedTypes meta = [] ->
  nestedMetadata E fuel meta own s = (Ok (fold_left pushModule [] own), s).
Proof. intros Hn. now rewrite nestedMetadata_types, Hn. Qed.

End Modules.

(** * The module cache *)

(** ** Methods that ignore the module cache *)

Lemma ignores_ret {A} (a : A) : ignoresModules (ret a).
Proof. intros h s. reflexivity. Qed.

Lemma ignores_throw {A} (e : Exception) : ignoresModules (@throw A e).
Proof. intros h s. reflexivity. Qed.

Lemma ignores_call {A} (r : Result A) : ignoresModules (call r).
Proof. intros h s. reflexivity. Qed.

Lemma ignores_allocate : ignoresModules allocate.
Proof. intros h s. reflexivity. Qed.

Lemma ignores_bind {A B} (m : M A) (f : A -> M B) :
  ignoresModules m -> (forall a, ignoresModules (f a)) -> ignoresModules (bind m f).
Proof.
  intros Hm Hf h s. unfold bind. rewrite (Hm h s).
  destruct (m s) as [[a|e] s1]; simpl; [apply Hf|reflexivity].
Qed.

Lemma ignores_mapM_Forall {A B} (f : A -> M B) (xs : list A) :
  Forall (fun x => ignoresModules (f x)) xs -> ignoresModules (mapM f xs).
Proof.
  induction 1 as [|x xs Hx _ IH]; simpl.
  - apply ignores_ret.
  - apply ignores_bind; [exact Hx|intros y].
    apply ignores_bind; [exact IH|intros ys]. apply ignores_ret.
Qed.

Lemma ignores_mapM {A B} (f : A -> M B) (xs : list A) :
  (forall x, ignoresModules (f x)) -> ignoresModules (mapM f xs).
Proof. intros Hf. apply ignores_mapM_Forall, Forall_forall. auto. Qed.

Lemma ignores_forEachM {A B} (f : B -> A -> M B) (xs : list A) (acc : B) :
  (forall acc x, ignoresModules (f acc x)) -> ignoresModules (forEachM f xs acc).
Proof.
  intros Hf. revert acc. induction xs as [|x xs IH]; intros acc; simpl.
  - apply ignores_ret.
  - apply ignores_bind; [apply Hf|intros acc']. apply IH.
Qed.

Create HintDb ignores.
#[export] Hint Resolve ignores_ret ignores_throw ignores_call ignores_allocate
  : ignores.

Ltac ignores_step :=
  lazymatch goal with
  | |- ignoresModules (bind _ _) => apply ignores_bind; [|intros ?]
  | |- ignoresModules (mapM _ _) => apply ignores_mapM; intros ?
  | |- ignoresModules (forEachM _ _ _) => apply ignores_forEachM; intros ? ?
  | |- ignoresModules (match ?x with _ => _ end) => destruct x
  | |- ignoresModules (let _ := _ in _) => cbv zeta
  | |- ignoresModules _ => solve [eauto with ignores]
  end.
Ltac ignores_auto := repeat ignores_step.

Section Ignores.

Context (E : Collaborators).

Lemma ignores_sanitizeTokenName token : ignoresModules (sanitizeTokenName E token).
Proof.
  intros h s. unfold sanitizeTokenName.
  destruct (includes _ _); [|reflexivity].
  unfold bind, gets, modify, ret; simpl.
  now destruct (_anonymousTypes s !! token).
Qed.
#[local] Hint Resolve ignores_sanitizeTokenName : ignores.

Lemma ignores_getTokenMetadata token : ignoresModules (getTokenMetadata E token).
Proof. unfold getTokenMetadata. ignores_auto. Qed.
#[local] Hint Resolve ignores_getTokenMetadata : ignores.

Lemma ignores_getQueryMetadata q propertyName typeOrFunc :
  ignoresModules (getQueryMetadata E q propertyName typeOrFunc).
Proof. unfold getQueryMetadata. ignores_auto. Qed.
#[local] Hint Resolve ignores_getQueryMetadata : ignores.

Lemma ignores_resolveParam typeOrFunc hasUnknownDeps param :
  ignoresModules (resolveParam E typeOrFunc hasUnknownDeps param).
Proof. unfold resolveParam. ignores_auto. Qed.
#[local] Hint Resolve ignores_resolveParam : ignores.

Lemma ignores_mapParams typeOrFunc params hasUnknownDeps :
  ignoresModules (mapParams E typeOrFunc params hasUnknownDeps).
Proof.
  revert hasUnknownDeps. induction params as [|param rest IH]; intros h; simpl.
  - ignores_auto.
  - apply ignores_bind; [apply ignores_resolveParam|intros r].
    apply ignores_bind; [apply IH|intros rs]. ignores_auto.
Qed.
#[local] Hint Resolve ignores_mapParams : ignores.

Lemma ignores_getDependenciesMetadata typeOrFunc dependencies :
  ignoresModules (getDependenciesMetadata E typeOrFunc dependencies).
Proof. unfold getDependenciesMetadata. ignores_auto. Qed.
#[local] Hint Resolve ignores_getDependenciesMetadata : ignores.

Lemma ignores_getTypeMetadata type moduleUrl dependencies :
  ignoresModules (getTypeMetadata E type moduleUrl dependencies).
Proof. unfold getTypeMetadata. ignores_auto. Qed.
#[local] Hint Resolve ignores_getTypeMetadata : ignores.

Lemma ignores_getFactoryMetadata factory moduleUrl dependencies :
  ignoresModules (getFactoryMetadata E factory moduleUrl dependencies).
Proof. unfold getFactoryMetadata. ignores_auto. Qed.
#[local] Hint Resolve ignores_getFactoryMetadata : ignores.

Lemma ignores_getProviderMetadata provider :
  ignoresModules (getProviderMetadata E provider).
Proof. unfold getProviderMetadata. ignores_auto. Qed.
#[local] Hint Resolve ignores_getProviderMetadata : ignores.

Lemma ignores_resolveLeaf provider : ignoresModules (resolveLeaf E provider).
Proof. unfold resolveLeaf. ignores_auto. Qed.

Lemma ignores_resolveProvider provider : ignoresModules (resolveProvider E provider).
Proof.
  induction provider as [p IH] using provider_tree_ind.
  rewrite resolveProvider_unfold.
  destruct (resolveForwardRef p) eqn:Hp; try apply ignores_resolveLeaf.
  apply ignores_bind; [|intros l; apply ignores_ret].
  apply ignores_mapM_Forall. now apply IH.
Qed.
#[local] Hint Resolve ignores_resolveProvider : ignores.

Lemma ignores_getProvidersMetadata providers :
  ignoresModules (getProvidersMetadata E providers).
Proof. unfold getProvidersMetadata. ignores_auto. Qed.
#[local] Hint Resolve ignores_getProvidersMetadata : ignores.

Lemma ignores_typesMetadata types : ignoresModules (typesMetadata E types).
Proof. unfold typesMetadata. ignores_auto. Qed.
#[local] Hint Resolve ignores_typesMetadata : ignores.

Lemma ignores_ownMetadata meta : ignoresModules (ownMetadata E meta).
Proof. unfold ownMetadata. ignores_auto. Qed.

(** The computation for a module that nests no module and is not stored
    ignores the module cache. *)
Lemma ignores_compileModule fuel moduleType meta :
  nestedTypes meta = [] ->
  ignoresModules (compileModule E fuel moduleType meta false).
Proof.
  intros Hn. unfold compileModule.
  apply ignores_bind; [apply ignores_ownMetadata|intros own].
  apply ignores_bind.
  { intros h s. now rewrite !nestedMetadata_none. }
  intros lists. ignores_auto.
Qed.

(** ** What a call with an annotation leaves in the module cache *)

#[global] Instance modulesKept_preorder : PreOrder modulesKept.
Proof.
  split.
  - intros s. unfold modulesKept. reflexivity.
  - intros s1 s2 s3. unfold modulesKept. intros H12 H23.
    now transitivity (_appModuleCache s2).
Qed.

Lemma getAppModuleMetadata_modulesKept fuel moduleType meta s :
  modulesKept s (snd (getAppModuleMetadata E fuel moduleType meta s)).
Proof.
  apply steps_getAppModuleMetadata; try apply _.
  - intros token s0 _. unfold modulesKept. reflexivity.
  - intros s0. unfold modulesKept. reflexivity.
  - intros s0 s1 k v H Hnone. unfold modulesKept in *. simpl.
    now apply insert_subseteq_r.
Qed.

(** The module cache after the computation for a module that is not
    stored is the one its nested modules left. *)
Lemma compileModule_not_stored fuel moduleType meta s :
  _appModuleCache (snd (compileModule E fuel moduleType meta false s)) =
  _appModuleCache
    (snd ((own <- ownMetadata E meta ;; nestedMetadata E fuel meta own) s)).
Proof.
  unfold compileModule. rewrite <- bind_assoc.
  unfold bind at 1 3.
  destruct ((own <- ownMetadata E meta ;; nestedMetadata E fuel meta own) s)
    as [[lists|e] s2]; [|reflexivity].
  simpl. pose proof (getTypeMetadata_sameModules E moduleType
    (staticTypeModuleUrl moduleType) None s2) as Hsame.
  unfold bind.
  destruct (getTypeMetadata E moduleType (staticTypeModuleUrl moduleType) None s2)
    as [[type|e] s3]; exact Hsame.
Qed.

End Ignores.

(** C8 (module annotation supplied), as amended.  A call of
    [getAppModuleMetadata] with an annotation computes the metadata from
    the annotation, whether the type is cached or not, and stores nothing
    itself: the module cache after the call is the one left by the
    resolution of the nested modules, which goes through the cache and
    keeps every entry; with no nested module the call ignores the module
    cache altogether.  A call without annotation for a type that is not
    cached and has no module annotation throws. *)
Theorem supplied_annotation_bypasses_cache E fuel moduleType
    (meta : AppModuleMetadata) (s : Resolver) :
  let run := getAppModuleMetadata E (S fuel) moduleType (Some meta) in
  run s = compileModule E fuel (resolveForwardRef moduleType) meta false s /\
  _appModuleCache (snd (run s)) =
    _appModuleCache
      (snd ((own <- ownMetadata E meta ;; nestedMetadata E fuel meta own) s)) /\
  _appModuleCache s ⊆ _appModuleCache (snd (run s)) /\
  (nestedTypes meta = [] -> ignoresModules run) /\
  (_appModuleCache s !! resolveForwardRef moduleType = None ->
   findAppModule (annotations E (resolveForwardRef moduleType)) = None ->
   getAppModuleMetadata E (S fuel) moduleType None s =
     (Throw (BaseException
        ("Could not compile '" +:+ stringify E (resolveForwardRef moduleType) +:+
         "' because it is not an AppModule.")), s)).
Proof.
  intros run.
  assert (Hrun : forall s0,
    run s0 = compileModule E fuel (resolveForwardRef moduleType) meta false s0).
  { intros s0. unfold run. rewrite getAppModuleMetadata_unfold. cbv zeta.
    now destruct (_appModuleCache s0 !! resolveForwardRef moduleType). }
  split; [apply Hrun|]. split; [|split; [|split]].
  - rewrite Hrun. apply compileModule_not_stored.
  - apply (getAppModuleMetadata_modulesKept E (S fuel) moduleType (Some meta) s).
  - intros Hn h s0. rewrite !Hrun. now apply ignores_compileModule.
  - intros Hmiss Hnone. rewrite getAppModuleMetadata_unfold. cbv zeta.
    now rewrite Hmiss, Hnone.
Qed.

(** * Cache invalidation *)

(** What [clearCacheFor] does to the caches: the entries under the key it
    is given go, every other entry stays, and so do the anonymous types. *)
Lemma clearCacheFor_lookup type k s :
  let s' := snd (clearCacheFor type s) in
  _directiveCache s' !! k = (if decide (type = k) then None else _directiveCache s !! k) /\
  _pipeCache s' !! k = (if decide (type = k) then None else _pipeCache s !! k) /\
  _appModuleCache s' !! k =
    (if decide (type = k) then None else _appModuleCache s !! k) /\
  _anonymousTypes s' = _anonymousTypes s /\
  _anonymousTypeIndex s' = _anonymousTypeIndex s.
Proof.
  simpl. rewrite !lookup_delete. now repeat split.
Qed.

(** After [clearCacheFor] for a type that is no forward reference, the
    directive is computed again: the directive resolver is asked. *)
Lemma clearCacheFor_recomputes E type s e :
  resolveForwardRef type = type ->
  _directiveResolver E type = Throw e ->
  getDirectiveMetadata E type (snd (clearCacheFor type s)) =
    (Throw e, snd (clearCacheFor type s)).
Proof.
  intros Hplain Hthrow. unfold getDirectiveMetadata. rewrite bind_gets, Hplain.
  destruct (clearCacheFor_lookup type type s) as (-> & _).
  rewrite decide_True by reflexivity.
  unfold bind, call. now rewrite Hthrow.
Qed.

(** * The sample program *)

Section SampleProgram.

Import Sample.

Lemma sanitizeIdentifier_app a b :
  sanitizeIdentifier (a +:+ b) = sanitizeIdentifier a +:+ sanitizeIdentifier b.
Proof. induction a as [|c a IH]; simpl; [reflexivity|]. now rewrite IH. Qed.

Lemma isWordChar_digit (x : N) : isWordChar (pretty_N_char x) = true.
Proof. unfold pretty_N_char. repeat case_match; vm_compute; reflexivity. Qed.

Lemma sanitizeIdentifier_digit (x : N) s :
  sanitizeIdentifier s = s ->
  sanitizeIdentifier (String (pretty_N_char x) s) = String (pretty_N_char x) s.
Proof. intros Hs. simpl. now rewrite Hs, isWordChar_digit. Qed.

Lemma sanitizeIdentifier_pretty_go (x : N) s :
  sanitizeIdentifier s = s ->
  sanitizeIdentifier (pretty_N_go x s) = pretty_N_go x s.
Proof.
  revert s. induction (N.lt_wf_0 x) as [x _ IH]. intros s Hs.
  destruct (decide (0 < x)%N) as [Hx|Hx].
  - rewrite pretty_N_go_step by exact Hx. apply IH.
    + now apply N.div_lt.
    + now apply sanitizeIdentifier_digit.
  - assert (x = 0%N) as -> by lia. now rewrite pretty_N_go_0.
Qed.

(** The sanitizer of the sample leaves the synthetic names as they are. *)
Lemma sanitizeIdentifier_synthetic (n : nat) :
  sanitizeIdentifier (syntheticName n) = syntheticName n.
Proof.
  unfold syntheticName. rewrite !sanitizeIdentifier_app. f_equal. f_equal.
  unfold pretty, pretty_nat, pretty, pretty_N.
  destruct (decide (N.of_nat n = 0%N)); [reflexivity|].
  now apply sanitizeIdentifier_pretty_go.
Qed.

End SampleProgram.

(** * The functions on the sample program *)

(** C1, as stated, fails: for a list with a nested array the result has a
    nested array, it is no flat list. *)
Lemma getProvidersMetadata_nested_result :
  getProvidersMetadata Sample.program [VArray [Sample.ServiceA]] newResolver =
    (Ok [EntryArray
           [EntryType (mkCompileTypeMetadata "T11" None Sample.ServiceA [])]],
     newResolver) /\
  isFlat [EntryArray
            [EntryType (mkCompileTypeMetadata "T11" None Sample.ServiceA [])]]
    = false.
Proof. split; vm_compute; reflexivity. Qed.

(** The amended C1 on a list of the sample program. *)
Lemma getProvidersMetadata_mirrors_witness :
  let providers :=
    [VArray [Sample.ServiceA; VForwardRef (VArray [Sample.ServiceB])];
     Sample.Literal] in
  exists r s',
    getProvidersMetadata Sample.program providers newResolver = (Ok r, s') /\
    List.map shapeOfEntry r = [Nested [Leaf; Nested [Leaf]]; Leaf] /\
    mapM (resolveLeaf Sample.program)
      [Sample.ServiceA; Sample.ServiceB; Sample.Literal] newResolver =
      (Ok (flat_map entryLeaves r), s').
Proof.
  intros providers.
  destruct (getProvidersMetadata Sample.program providers newResolver)
    as [[r|e] s'] eqn:Hrun; [|vm_compute in Hrun; discriminate].
  exists r, s'. split; [reflexivity|].
  exact (proj1 (getProvidersMetadata_mirrors Sample.program providers newResolver)
           r s' Hrun).
Defined.

(** C2, as stated, fails: the second parameter of [QueryOnly] yields a
    query and no token; it is marked unresolved and the call throws. *)
Lemma query_only_parameter_is_unresolved :
  let param := VArray [Sample.contentQuery] in
  is_Some (query (scanParam param)) /\
  resolveParam Sample.program Sample.QueryOnly false param newResolver =
    (Ok (None, true), newResolver) /\
  getDependenciesMetadata Sample.program Sample.QueryOnly (Some [param]) newResolver =
    (Throw (BaseException "Can't resolve all parameters for T30: (?)."),
     newResolver).
Proof.
  split; [now eexists|]. split; vm_compute; reflexivity.
Qed.

(** The amended C2 on the query-only parameter of [QueryOnly]. *)
Lemma unresolved_iff_no_token_witness :
  let param := VArray [Sample.contentQuery] in
  isBlank (token (scanParam param)) = true /\
  param ∈ parametersOf Sample.program Sample.QueryOnly None /\
  exists e s',
    getDependenciesMetadata Sample.program Sample.QueryOnly None newResolver =
      (Throw e, s').
Proof.
  intros param. split; [reflexivity|].
  assert (Hin : param ∈ parametersOf Sample.program Sample.QueryOnly None).
  { apply list_elem_of_In. right. now left. }
  split; [exact Hin|].
  exact (proj2 (unresolved_iff_no_token Sample.program Sample.QueryOnly None
                  false param newResolver) eq_refl Hin).
Defined.

(** C3, as stated, fails: the second parameter is unresolved, and the
    exception is the one of the query without selector of the first
    parameter; its message does not list the parameters. *)
Lemma unresolved_with_failing_query :
  let brokenQuery := VQueryMetadata false false VNull [] false false VNull in
  let params := [VArray [Sample.ServiceA; brokenQuery]; VNull] in
  existsb unresolved params = true /\
  getDependenciesMetadata Sample.program Sample.A (Some params) newResolver =
    (Throw (BaseException
       ("Can't construct a query for the property " +:+ dquote +:+ "null" +:+
        dquote +:+ " of " +:+ dquote +:+ "T1" +:+ dquote +:+
        " since the query selector wasn't defined.")),
     newResolver).
Proof. split; vm_compute; reflexivity. Qed.

(** The amended C3 on the parameters of [QueryOnly]. *)
Lemma getDependenciesMetadata_all_or_nothing_witness :
  existsb unresolved (parametersOf Sample.program Sample.QueryOnly None) = true /\
  exists e s',
    getDependenciesMetadata Sample.program Sample.QueryOnly None newResolver =
      (Throw e, s') /\
    exists deps,
      Forall2 standsFor (parametersOf Sample.program Sample.QueryOnly None) deps /\
      e = BaseException
            ("Can't resolve all parameters for T30: (" +:+
             join ", " (List.map (fun dep =>
               match dep with
               | Some dep => Sample.stringifyToken (dep_token dep)
               | None => "?"
               end) deps) +:+ ").").
Proof.
  split; [reflexivity|].
  exact (proj1 (getDependenciesMetadata_all_or_nothing Sample.program
                  Sample.QueryOnly None newResolver) eq_refl).
Defined.

(** C5 on the directive of the sample program, given through a forward
    reference, with other calls in between. *)
Lemma getDirectiveMetadata_cached_witness :
  let between :=
    [GetTokenMetadata Sample.Closure1; GetPipeMetadata Sample.Pipe;
     GetDirectiveMetadata Sample.Cmp] in
  exists m s1,
    getDirectiveMetadata Sample.program (VForwardRef Sample.Dir) newResolver =
      (Ok m, s1) /\
    forallb (fun c => negb (invalidates c)) between = true /\
    let s2 := performAll Sample.program between s1 in
    getDirectiveMetadata Sample.program (VForwardRef Sample.Dir) s2 = (Ok m, s2) /\
    getDirectiveMetadata Sample.program Sample.Dir s2 = (Ok m, s2) /\
    _directiveCache s2 !! Sample.Dir = Some m.
Proof.
  intros between.
  destruct (getDirectiveMetadata Sample.program (VForwardRef Sample.Dir) newResolver)
    as [[m|e] s1] eqn:Hrun; [|vm_compute in Hrun; discriminate].
  exists m, s1. split; [reflexivity|]. split; [reflexivity|].
  exact (getDirectiveMetadata_cached Sample.program Sample.program
           (VForwardRef Sample.Dir) newResolver m s1 between Sample.Dir
           Hrun eq_refl eq_refl).
Defined.

(** C6 on two functions without name of the sample program, with the two
    invalidations in between. *)
Lemma anonymous_names_stable_witness :
  let before := [GetDirectiveMetadata Sample.Dir] in
  let between :=
    [ClearCache; ClearCacheFor Sample.Closure1; GetTokenMetadata Sample.Closure2] in
  isAnonymous Sample.program Sample.Closure1 /\
  isAnonymous Sample.program Sample.Closure2 /\
  let r1 := sanitizeTokenName Sample.program Sample.Closure1
              (performAll Sample.program before newResolver) in
  let r2 := sanitizeTokenName Sample.program Sample.Closure2
              (performAll Sample.program between (snd r1)) in
  (exists n, fst r1 = Ok (syntheticName n)) /\
  (exists n, fst r2 = Ok (syntheticName n)) /\
  (Sample.Closure1 = Sample.Closure2 -> fst r2 = fst r1) /\
  (Sample.Closure1 <> Sample.Closure2 -> fst r2 <> fst r1).
Proof.
  intros before between.
  split; [reflexivity|]. split; [reflexivity|].
  exact (anonymous_names_stable Sample.program before between
           Sample.Closure1 Sample.Closure2 sanitizeIdentifier_synthetic
           eq_refl eq_refl).
Defined.

(** C7 fails on a forward reference: [clearCacheFor] deletes the entries
    under the reference itself, the directive stays cached under the type
    the reference stands for, and the next resolution of the reference
    returns the cached object without computing it again.  For the type
    itself the entry goes. *)
Lemma clearCacheFor_forward_reference :
  let T := VForwardRef Sample.Dir in
  let r1 := getDirectiveMetadata Sample.program T newResolver in
  let s2 := snd (clearCacheFor T (snd r1)) in
  exists m,
    fst r1 = Ok m /\
    _directiveCache s2 !! Sample.Dir = Some m /\
    getDirectiveMetadata Sample.program T s2 = (Ok m, s2) /\
    _directiveCache (snd (clearCacheFor Sample.Dir (snd r1))) !! Sample.Dir = None.
Proof.
  intros T r1 s2. subst s2.
  destruct r1 as [[m|e] s1] eqn:Hrun; [|vm_compute in Hrun; discriminate].
  cbn [fst snd]. set (s2 := snd (clearCacheFor T s1)).
  exists m. split; [reflexivity|].
  assert (Hkey : _directiveCache s1 !! Sample.Dir = Some m).
  { exact (getDirectiveMetadata_stored Sample.program T newResolver m s1 Hrun). }
  assert (Hkept : _directiveCache s2 !! Sample.Dir = Some m).
  { unfold s2. destruct (clearCacheFor_lookup T Sample.Dir s1) as (-> & _).
    now rewrite decide_False by discriminate. }
  split; [exact Hkept|]. split.
  - now apply getDirectiveMetadata_hit.
  - destruct (clearCacheFor_lookup Sample.Dir Sample.Dir s1) as (-> & _).
    now rewrite decide_True.
Qed.

(** C8, as stated, fails: a call with the annotation of [A] on a new
    resolver returns, and leaves the nested modules [B] and [C] in the
    module cache, which was empty. *)
Lemma supplied_annotation_updates_cache :
  let run := getAppModuleMetadata Sample.program 3 Sample.A (Some Sample.moduleA)
               newResolver in
  (exists r, fst run = Ok r) /\
  _appModuleCache newResolver !! Sample.B = None /\
  is_Some (_appModuleCache (snd run) !! Sample.B) /\
  is_Some (_appModuleCache (snd run) !! Sample.C) /\
  _appModuleCache (snd run) !! Sample.A = None.
Proof.
  intros run. split; [|split; [|split; [|split]]].
  - vm_compute. now eexists.
  - reflexivity.
  - vm_compute. now eexists.
  - vm_compute. now eexists.
  - vm_compute. reflexivity.
Qed.

(** The amended C8 on the sample program: with the annotation of [C],
    which nests no module, the call ignores the module cache; and without
    annotation the directive [Dir], which is no module, is refused. *)
Lemma supplied_annotation_bypasses_cache_witness :
  nestedTypes Sample.moduleC = [] /\
  ignoresModules
    (getAppModuleMetadata Sample.program 1 Sample.C (Some Sample.moduleC)) /\
  _appModuleCache newResolver !! Sample.Dir = None /\
  findAppModule (annotations Sample.program Sample.Dir) = None /\
  getAppModuleMetadata Sample.program 1 Sample.Dir None newResolver =
    (Throw (BaseException "Could not compile 'T20' because it is not an AppModule."),
     newResolver).
Proof.
  pose proof (supplied_annotation_bypasses_cache Sample.program 0 Sample.C
                Sample.moduleC newResolver) as (_ & _ & _ & Hignores & _).
  pose proof (supplied_annotation_bypasses_cache Sample.program 0 Sample.Dir
                Sample.moduleC newResolver) as (_ & _ & _ & _ & Hthrows).
  split; [reflexivity|]. split; [exact (Hignores eq_refl)|].
  split; [reflexivity|]. split; [reflexivity|].
  exact (Hthrows eq_refl eq_refl).
Defined.

(** * What the methods write *)

(** ** Outcomes *)

Section Outcomes.

Context (R : relation Resolver) `{!PreOrder R}.

Lemma outcome_bind s0 {A B} (m : M A) (f : A -> M B) (P : A -> Prop)
    (Q : B -> Resolver -> Prop) :
  steps R m -> (forall s a s1, m s = (Ok a, s1) -> P a) ->
  (forall a, P a -> outcome R s0 (f a) Q) ->
  outcome R s0 (bind m f) Q.
Proof.
  intros Hm HP Hf s Hs. unfold bind.
  pose proof (Hm s) as Hstep. pose proof (HP s) as Hres.
  destruct (m s) as [[a|e] s1]; simpl in Hstep.
  - apply Hf; [now eapply Hres|]. now transitivity s.
  - now transitivity s.
Qed.

Lemma outcome_bind_steps s0 {A B} (m : M A) (f : A -> M B)
    (Q : B -> Resolver -> Prop) :
  steps R m -> (forall a, outcome R s0 (f a) Q) -> outcome R s0 (bind m f) Q.
Proof.
  intros Hm Hf. apply (outcome_bind s0 m f (fun _ => True)); auto.
Qed.

Lemma outcome_start s0 {A} (m : M A) (Q : A -> Resolver -> Prop) :
  outcome R s0 m Q ->
  match m s0 with
  | (Ok a, s1) => Q a s1
  | (Throw _, s1) => R s0 s1
  end.
Proof. intros H. apply H. reflexivity. Qed.

End Outcomes.

#[global] Instance sameCaches_preorder : PreOrder sameCaches.
Proof.
  split.
  - intros s. now repeat split.
  - intros s1 s2 s3 (Hd & Hp & Hm & Ha) (Hd' & Hp' & Hm' & Ha').
    unfold sameCaches. now rewrite Hd', Hp', Hm', Ha'.
Qed.

Lemma sameCaches_register token s :
  _anonymousTypes s !! token = None -> sameCaches s (registerAnonymous token s).
Proof. intros _. now repeat split. Qed.

Section Effects.

Context (E : Collaborators).

#[local] Hint Resolve sameCaches_register : steps.
#[local] Hint Extern 1 (steps sameCaches (getTypeMetadata _ _ _ _)) =>
  apply steps_getTypeMetadata; [apply _|apply sameCaches_register] : steps.
#[local] Hint Extern 1 (steps sameCaches (getProvidersMetadata _ _)) =>
  apply steps_getProvidersMetadata; [apply _|apply sameCaches_register] : steps.
#[local] Hint Extern 1 (steps sameCaches (getQueriesMetadata _ _ _ _)) =>
  apply steps_getQueriesMetadata; [apply _|apply sameCaches_register] : steps.
#[local] Hint Extern 1 (steps sameCaches (componentPart _ _ _)) =>
  apply steps_componentPart; [apply _|apply sameCaches_register] : steps.

(** What a miss of [getDirectiveMetadata] does: it throws and leaves the
    caches, or stores and returns a new object for the dereferenced type. *)
Lemma getDirectiveMetadata_effect directiveType s :
  let key := resolveForwardRef directiveType in
  match getDirectiveMetadata E directiveType s with
  | (Ok m, s1) =>
      (_directiveCache s !! key = Some m /\ s1 = s) \/
      (_directiveCache s !! key = None /\
       _directiveCache s1 = <[key := m]> (_directiveCache s) /\
       _pipeCache s1 = _pipeCache s /\
       _appModuleCache s1 = _appModuleCache s /\
       allocated s1 = S (allocated s) /\
       cd_objectId m = allocated s /\
       ct_runtime (cd_type m) = resolveForwardRef key)
  | (Throw _, s1) => _directiveCache s !! key = None /\ sameCaches s s1
  end.
Proof.
  intros key. unfold getDirectiveMetadata. rewrite bind_gets. fold key.
  destruct (_directiveCache s !! key) eqn:Hkey; [left; now split|].
  match goal with
  | |- match ?body s with _ => _ end =>
      pose proof (outcome_start sameCaches s body
        (fun m s1 =>
           _directiveCache s1 = <[key := m]> (_directiveCache s) /\
           _pipeCache s1 = _pipeCache s /\
           _appModuleCache s1 = _appModuleCache s /\
           allocated s1 = S (allocated s) /\
           cd_objectId m = allocated s /\
           ct_runtime (cd_type m) = resolveForwardRef key)) as Hout
  end.
  match type of Hout with
  | _ -> match ?run with _ => _ end =>
      destruct run as [[m|e] s1]; [right; split; [reflexivity|]|split; [reflexivity|]];
        apply Hout
  end.
  all: apply outcome_bind_steps; [apply _|steps_auto|intros dirMeta].
  all: apply outcome_bind_steps; [apply _|steps_auto|intros [[[[? ?] ?] ?] ?]].
  all: apply outcome_bind_steps; [apply _|steps_auto|intros providers].
  all: apply outcome_bind_steps; [apply _|steps_auto|intros qs].
  all: apply outcome_bind with (P := fun t => ct_runtime t = resolveForwardRef key);
    [apply _|steps_auto|intros ? ? ?; apply getTypeMetadata_runtime|intros type Htype].
  all: intros s2 (Hd & Hp & Hm & Ha); simpl; rewrite Hd, Hp, Hm, Ha;
    now repeat split.
Qed.

(** The same for [getPipeMetadata]. *)
Lemma getPipeMetadata_effect pipeType s :
  let key := resolveForwardRef pipeType in
  match getPipeMetadata E pipeType s with
  | (Ok m, s1) =>
      (_pipeCache s !! key = Some m /\ s1 = s) \/
      (_pipeCache s !! key = None /\
       _pipeCache s1 = <[key := m]> (_pipeCache s) /\
       _directiveCache s1 = _directiveCache s /\
       _appModuleCache s1 = _appModuleCache s /\
       allocated s1 = S (allocated s) /\
       cpm_objectId m = allocated s /\
       ct_runtime (cpm_type m) = resolveForwardRef key)
  | (Throw _, s1) => _pipeCache s !! key = None /\ sameCaches s s1
  end.
Proof.
  intros key. unfold getPipeMetadata. rewrite bind_gets. fold key.
  destruct (_pipeCache s !! key) eqn:Hkey; [left; now split|].
  match goal with
  | |- match ?body s with _ => _ end =>
      pose proof (outcome_start sameCaches s body
        (fun m s1 =>
           _pipeCache s1 = <[key := m]> (_pipeCache s) /\
           _directiveCache s1 = _directiveCache s /\
           _appModuleCache s1 = _appModuleCache s /\
           allocated s1 = S (allocated s) /\
           cpm_objectId m = allocated s /\
           ct_runtime (cpm_type m) = resolveForwardRef key)) as Hout
  end.
  match type of Hout with
  | _ -> match ?run with _ => _ end =>
      destruct run as [[m|e] s1]; [right; split; [reflexivity|]|split; [reflexivity|]];
        apply Hout
  end.
  all: apply outcome_bind_steps; [apply _|steps_auto|intros pipeMeta].
  all: apply outcome_bind with (P := fun t => ct_runtime t = resolveForwardRef key);
    [apply _|steps_auto|intros ? ? ?; apply getTypeMetadata_runtime|intros type Htype].
  all: intros s2 (Hd & Hp & Hm & Ha); simpl; rewrite Hd, Hp, Hm, Ha;
    now repeat split.
Qed.

Lemma getPipeMetadata_hit pipeType s m :
  _pipeCache s !! resolveForwardRef pipeType = Some m ->
  getPipeMetadata E pipeType s = (Ok m, s).
Proof.
  intros H. unfold getPipeMetadata. rewrite bind_gets. now rewrite H.
Qed.

Lemma getPipeMetadata_stored pipeType s m s1 :
  getPipeMetadata E pipeType s = (Ok m, s1) ->
  _pipeCache s1 !! resolveForwardRef pipeType = Some m.
Proof.
  intros Hrun. pose proof (getPipeMetadata_effect pipeType s) as Heffect.
  cbv zeta in Heffect. rewrite Hrun in Heffect.
  destruct Heffect as [[Hhit ->]|(_ & -> & _)]; [exact Hhit|].
  apply lookup_insert_eq.
Qed.

Lemma getAppModuleMetadata_hit fuel moduleType s m :
  _appModuleCache s !! resolveForwardRef moduleType = Some m ->
  getAppModuleMetadata E (S fuel) moduleType None s = (Ok m, s).
Proof.
  intros H. rewrite getAppModuleMetadata_unfold. cbv zeta. now rewrite H.
Qed.

Lemma getAppModuleMetadata_stored fuel moduleType s m s1 :
  getAppModuleMetadata E fuel moduleType None s = (Ok m, s1) ->
  _appModuleCache s1 !! resolveForwardRef moduleType = Some m.
Proof.
  destruct fuel as [|fuel]; [discriminate|].
  rewrite getAppModuleMetadata_unfold. cbv zeta.
  destruct (_appModuleCache s !! resolveForwardRef moduleType) eqn:Hkey.
  - now intros [= <- <-].
  - destruct (findAppModule (annotations E (resolveForwardRef moduleType)));
      [|discriminate].
    unfold compileModule. intros H.
    apply bind_Ok in H as (own & sa & _ & H).
    apply bind_Ok in H as (lists & sb & _ & H).
    apply bind_Ok in H as (type & sc & _ & H).
    apply bind_Ok in H as (objectId & sd & _ & H).
    rewrite bind_modify in H. injection H as <- <-.
    simpl. apply lookup_insert_eq.
Qed.

Lemma steps_weaken (R R' : relation Resolver) {A} (m : M A) :
  (forall s s', R s s' -> R' s s') -> steps R m -> steps R' m.
Proof. intros Hsub Hm s. apply Hsub, Hm. Qed.

Lemma steps_ownMetadata (R : relation Resolver) `{!PreOrder R} meta :
  (forall token s, _anonymousTypes s !! token = None ->
                   R s (registerAnonymous token s)) ->
  steps R (ownMetadata E meta).
Proof.
  intros Hreg. unfold ownMetadata.
  pose proof (steps_getProvidersMetadata E R Hreg) as Hproviders.
  pose proof (steps_typesMetadata E R Hreg) as Htypes.
  steps_auto.
Qed.

End Effects.

(** * The free functions: flattening and the check of providers *)

Lemma leavesOf_not_array p : Forall (fun item => isArray item = false) (leavesOf p).
Proof.
  induction p as [p IH] using provider_tree_ind.
  rewrite leavesOf_unfold.
  destruct (resolveForwardRef p) eqn:Hp; try (repeat constructor; fail).
  specialize (IH _ eq_refl). clear Hp.
  induction IH as [|y items Hy _ IHitems]; simpl; [constructor|].
  apply Forall_app; split; assumption.
Qed.

Lemma flat_map_leavesOf_not_array tree :
  Forall (fun item => isArray item = false) (flat_map leavesOf tree).
Proof.
  induction tree as [|x xs IH]; simpl; [constructor|].
  apply Forall_app; split; [apply leavesOf_not_array|exact IH].
Qed.

Lemma flat_map_leavesOf_flat tree :
  Forall (fun item => isArray (resolveForwardRef item) = false) tree ->
  flat_map leavesOf tree = List.map resolveForwardRef tree.
Proof.
  induction 1 as [|x xs Hx _ IH]; simpl; [reflexivity|].
  rewrite IH, leavesOf_unfold.
  destruct (resolveForwardRef x); try reflexivity. discriminate.
Qed.

(** X1. [flattenArray] appends to [out], in order, the leaves of the tree:
    the result for a given [out] is [out] followed by the result for the
    empty list; a concatenation of trees gives the concatenation of the
    results; an array, directly or behind a forward reference, counts as
    its items; no element appended is an array; and a list whose items,
    dereferenced, are no arrays gives these dereferenced items. *)
Theorem flattenArray_laws (tree tree' out : list value) :
  flattenArray tree out = out ++ flattenArray tree [] /\
  flattenArray (tree ++ tree') [] = flattenArray tree [] ++ flattenArray tree' [] /\
  flattenArray (VArray tree :: tree') [] = flattenArray (tree ++ tree') [] /\
  flattenArray (VForwardRef (VArray tree) :: tree') [] =
    flattenArray (tree ++ tree') [] /\
  Forall (fun item => isArray item = false) (flattenArray tree []) /\
  (Forall (fun item => isArray (resolveForwardRef item) = false) tree ->
   flattenArray tree [] = List.map resolveForwardRef tree).
Proof.
  rewrite !flattenArray_leaves. cbn [app flat_map].
  rewrite (leavesOf_unfold (VArray tree)), (leavesOf_unfold (VForwardRef _)).
  cbn [resolveForwardRef]. rewrite !flat_map_app.
  repeat split; auto using flat_map_leavesOf_not_array, flat_map_leavesOf_flat.
Qed.

(** ** [verifyNonBlankProviders] *)

Lemma firstThat_None {A} (bad : A -> bool) xs :
  firstThat bad xs = None <-> Forall (fun x => bad x = false) xs.
Proof.
  unfold firstThat. induction xs as [|x xs IH]; simpl.
  - split; [constructor|reflexivity].
  - destruct (bad x) eqn:Hx.
    + split; [discriminate|]. intros H. inversion H; congruence.
    + rewrite IH. split; [now constructor|]. intros H. now inversion H.
Qed.

Lemma firstThat_Some {A} (bad : A -> bool) xs x :
  firstThat bad xs = Some x ->
  exists pre post, xs = pre ++ x :: post /\ bad x = true /\
                   Forall (fun y => bad y = false) pre.
Proof.
  unfold firstThat. induction xs as [|y ys IH]; simpl; [discriminate|].
  destruct (bad y) eqn:Hy.
  - intros [= ->]. exists [], ys. repeat split; [assumption|constructor].
  - intros H. destruct (IH H) as (pre & post & -> & Hx & Hpre).
    exists (y :: pre), post. repeat split; [assumption|now constructor].
Qed.

Lemma verifyNonBlankProviders_Ok E directiveType tree providersType t :
  verifyNonBlankProviders E directiveType tree providersType = Ok t ->
  t = tree /\ Forall (fun p => isBlank p = false) (flattenArray tree []).
Proof.
  unfold verifyNonBlankProviders.
  destruct (firstThat isBlank (flattenArray tree [])) eqn:Hfirst; [discriminate|].
  intros [= <-]. split; [reflexivity|]. now apply firstThat_None.
Qed.

(** X2. [verifyNonBlankProviders] returns the tree it is given, unchanged,
    exactly when no leaf of the tree is [null] or [undefined], at whatever
    depth and also behind a forward reference; otherwise it throws a
    [BaseException]. *)
Theorem verifyNonBlankProviders_spec E directiveType tree providersType :
  match verifyNonBlankProviders E directiveType tree providersType with
  | Ok t => t = tree /\ Forall (fun p => isBlank p = false) (flat_map leavesOf tree)
  | Throw e =>
      Exists (fun p => isBlank p = true) (flat_map leavesOf tree) /\
      exists msg, e = BaseException msg
  end.
Proof.
  pose proof (flattenArray_leaves tree []) as Hflat. simpl in Hflat.
  rewrite <- Hflat.
  destruct (verifyNonBlankProviders E directiveType tree providersType) as [t|e]
    eqn:Hrun.
  - now apply verifyNonBlankProviders_Ok in Hrun.
  - unfold verifyNonBlankProviders in Hrun.
    destruct (firstThat isBlank (flattenArray tree [])) as [p|] eqn:Hfirst;
      [|discriminate].
    injection Hrun as <-. split; [|now eexists].
    apply firstThat_Some in Hfirst as (pre & post & -> & Hp & _).
    apply Exists_app. right. now constructor.
Qed.

(** X3. A directive whose annotation lists an undefined provider, at any
    depth of its [providers], cannot be resolved: [getDirectiveMetadata]
    throws, and it caches nothing; when the directive is no component the
    resolver is left as it was. *)
Theorem getDirectiveMetadata_undefined_provider E directiveType dirMeta ps s :
  _directiveCache s !! resolveForwardRef directiveType = None ->
  _directiveResolver E (resolveForwardRef directiveType) = Ok dirMeta ->
  dm_providers dirMeta = Some ps ->
  Exists (fun p => isBlank p = true) (flattenArray ps []) ->
  exists e s',
    getDirectiveMetadata E directiveType s = (Throw e, s') /\
    sameCaches s s' /\
    (dm_component dirMeta = None -> s' = s).
Proof.
  intros Hmiss Hres Hps Hblank.
  assert (Hverify : exists e,
    verifyNonBlankProviders E (resolveForwardRef directiveType) ps "providers"
      = Throw e).
  { destruct (verifyNonBlankProviders E (resolveForwardRef directiveType) ps
                "providers") as [t|e] eqn:Hrun; [|now eexists].
    apply verifyNonBlankProviders_Ok in Hrun as [_ Hall].
    apply Exists_exists in Hblank as (p & Hin & Hp).
    rewrite Forall_forall in Hall. specialize (Hall p Hin). congruence. }
  destruct Hverify as [e0 Hverify].
  pose proof (getDirectiveMetadata_effect E directiveType s) as Heffect.
  cbv zeta in Heffect.
  destruct (getDirectiveMetadata E directiveType s) as [[m|e] s'] eqn:Hrun.
  - exfalso. unfold getDirectiveMetadata in Hrun.
    rewrite bind_gets, Hmiss in Hrun.
    apply bind_Ok in Hrun as (dm & sa & Hdm & Hrun).
    unfold call in Hdm. rewrite Hres in Hdm. injection Hdm as <- <-.
    apply bind_Ok in Hrun as ([[[[? ?] ?] ?] ?] & sb & _ & Hrun).
    apply bind_Ok in Hrun as (providers & sc & Hproviders & _).
    rewrite Hps in Hproviders.
    apply bind_Ok in Hproviders as (t & sd & Ht & _).
    unfold call in Ht. rewrite Hverify in Ht. discriminate.
  - exists e, s'. split; [reflexivity|]. split; [apply Heffect|].
    intros Hcmp. unfold getDirectiveMetadata in Hrun.
    rewrite bind_gets, Hmiss in Hrun.
    unfold bind at 1 in Hrun. unfold call at 1 in Hrun. rewrite Hres in Hrun.
    rewrite Hcmp, bind_ret, Hps in Hrun.
    unfold bind at 1 2 in Hrun. unfold call in Hrun. rewrite Hverify in Hrun.
    now injection Hrun.
Qed.

(** * The three caches *)

(** ** Which calls write which cache *)

Section Frames.

Context (E : Collaborators) (R : relation Resolver) `{!PreOrder R}.
Hypothesis R_register : forall token s,
  _anonymousTypes s !! token = None -> R s (registerAnonymous token s).
Hypothesis R_allocate : forall s, R s (snd (allocate s)).

Ltac inner_call :=
  first
    [ apply (steps_getTypeMetadata E R R_register)
    | apply (steps_getFactoryMetadata E R R_register)
    | apply (steps_getDependenciesMetadata E R R_register)
    | apply (steps_getTokenMetadata E R R_register)
    | apply (steps_getProvidersMetadata E R R_register)
    | apply (steps_getProviderMetadata E R R_register)
    | apply (steps_getQueriesMetadata E R R_register)
    | apply (steps_getQueryMetadata E R R_register) ].

Section NoDirectives.

Hypothesis R_pipe : forall s0 s k v,
  R s0 s -> _pipeCache s0 !! k = None -> R s0 (with_pipeCache (insert k v) s).
Hypothesis R_appModule : forall s0 s k v,
  R s0 s -> _appModuleCache s0 !! k = None ->
  R s0 (with_appModuleCache (insert k v) s).

Lemma perform_without_directives c s :
  writesDirectives c = false -> R s (perform E c s).
Proof.
  destruct c; try discriminate; intros _; simpl; try inner_call.
  - now apply (steps_getAppModuleMetadata E R).
  - now apply (steps_getPipeMetadata E R).
  - now apply (steps_getViewPipesMetadata E R).
Qed.

End NoDirectives.

Section NoPipes.

Hypothesis R_directive : forall s0 s k v,
  R s0 s -> _directiveCache s0 !! k = None ->
  R s0 (with_directiveCache (insert k v) s).
Hypothesis R_appModule : forall s0 s k v,
  R s0 s -> _appModuleCache s0 !! k = None ->
  R s0 (with_appModuleCache (insert k v) s).

Lemma perform_without_pipes c s :
  writesPipes c = false -> R s (perform E c s).
Proof.
  destruct c; try discriminate; intros _; simpl; try inner_call.
  - now apply (steps_getDirectiveMetadata E R).
  - now apply (steps_maybeGetDirectiveMetadata E R).
  - now apply (steps_getAppModuleMetadata E R).
  - now apply (steps_getViewDirectivesMetadata E R).
Qed.

End NoPipes.

Section NoModules.

Hypothesis R_directive : forall s0 s k v,
  R s0 s -> _directiveCache s0 !! k = None ->
  R s0 (with_directiveCache (insert k v) s).
Hypothesis R_pipe : forall s0 s k v,
  R s0 s -> _pipeCache s0 !! k = None -> R s0 (with_pipeCache (insert k v) s).

Lemma perform_without_modules c s :
  writesModules c = false -> R s (perform E c s).
Proof.
  destruct c; try discriminate; intros _; simpl; try inner_call.
  - now apply (steps_getDirectiveMetadata E R).
  - now apply (steps_maybeGetDirectiveMetadata E R).
  - now apply (steps_getPipeMetadata E R).
  - now apply (steps_getViewDirectivesMetadata E R).
  - now apply (steps_getViewPipesMetadata E R).
Qed.

End NoModules.

End Frames.

#[global] Instance sameDirectives_preorder : PreOrder sameDirectives.
Proof.
  split; [now intros s|]. intros s1 s2 s3. unfold sameDirectives. congruence.
Qed.

#[global] Instance samePipes_preorder : PreOrder samePipes.
Proof.
  split; [now intros s|]. intros s1 s2 s3. unfold samePipes. congruence.
Qed.

(** X4. Each cache is written by its own getters and by the two clearing
    methods only: a call of any other public method, whether it returns or
    throws, leaves the directive cache as it was; likewise the pipe cache
    and the module cache. *)
Theorem caches_written_by_their_getters E (c : Call) (s : Resolver) :
  (writesDirectives c = false ->
   _directiveCache (perform E c s) = _directiveCache s) /\
  (writesPipes c = false -> _pipeCache (perform E c s) = _pipeCache s) /\
  (writesModules c = false ->
   _appModuleCache (perform E c s) = _appModuleCache s).
Proof.
  split; [|split]; intros Hc.
  - apply (perform_without_directives E sameDirectives); try done.
  - apply (perform_without_pipes E samePipes); try done.
  - apply (perform_without_modules E sameModules); try done.
Qed.

(** ** A failed resolution *)


(** ** The pipe cache and the module cache *)

#[global] Instance pipesKept_preorder : PreOrder pipesKept.
Proof.
  split.
  - intros s. unfold pipesKept. reflexivity.
  - intros s1 s2 s3. unfold pipesKept. intros H12 H23.
    now transitivity (_pipeCache s2).
Qed.

Lemma pipesKept_perform E c s :
  invalidates c = false -> pipesKept s (perform E c s).
Proof.
  apply perform_related; try apply _.
  - intros token s0 _. unfold pipesKept. reflexivity.
  - intros s0. unfold pipesKept. reflexivity.
  - intros s0 s1 k v H _. exact H.
  - intros s0 s1 k v H Hnone. unfold pipesKept in *. simpl.
    now apply insert_subseteq_r.
  - intros s0 s1 k v H _. exact H.
Qed.

Lemma modulesKept_perform E c s :
  invalidates c = false -> modulesKept s (perform E c s).
Proof.
  apply perform_related; try apply _.
  - intros token s0 _. unfold modulesKept. reflexivity.
  - intros s0. unfold modulesKept. reflexivity.
  - intros s0 s1 k v H _. exact H.
  - intros s0 s1 k v H _. exact H.
  - intros s0 s1 k v H Hnone. unfold modulesKept in *. simpl.
    now apply insert_subseteq_r.
Qed.

Lemma kept_performAll (R : relation Resolver) `{!PreOrder R} E cs s :
  (forall c s, invalidates c = false -> R s (perform E c s)) ->
  forallb (fun c => negb (invalidates c)) cs = true ->
  R s (performAll E cs s).
Proof.
  intros Hperform. revert s.
  induction cs as [|c cs IH]; intros s; simpl; [reflexivity|].
  intros [Hc Hcs]%andb_prop. etransitivity; [|now apply IH].
  apply Hperform. now destruct (invalidates c).
Qed.

(** X6. The pipe cache.  When [getPipeMetadata] has returned [m] for a
    type, then after any calls that do not clear the caches it returns the
    same object [m] for the type and for every reference that dereferences
    to the same type, and leaves the resolver as it is; the collaborators
    [E'] are not consulted. *)
Theorem getPipeMetadata_cached E E' pipeType s m s1 (between : list Call)
    (again : value) :
  getPipeMetadata E pipeType s = (Ok m, s1) ->
  forallb (fun c => negb (invalidates c)) between = true ->
  resolveForwardRef again = resolveForwardRef pipeType ->
  let s2 := performAll E between s1 in
  getPipeMetadata E' again s2 = (Ok m, s2) /\
  _pipeCache s2 !! resolveForwardRef pipeType = Some m.
Proof.
  intros Hfirst Hvalid Hsame s2.
  assert (Hkept : _pipeCache s2 !! resolveForwardRef pipeType = Some m).
  { eapply lookup_weaken; [exact (getPipeMetadata_stored E pipeType s m s1 Hfirst)|].
    apply (kept_performAll pipesKept); [apply pipesKept_perform|exact Hvalid]. }
  split; [|exact Hkept]. apply getPipeMetadata_hit. now rewrite Hsame.
Qed.

(** X7. The module cache.  When [getAppModuleMetadata], called without an
    annotation, has returned [m] for a type, then after any calls that do
    not clear the caches a call without annotation returns the same
    object [m], for the type and for every reference that dereferences to
    the same type, and leaves the resolver as it is, whatever the nesting
    of the module. *)
Theorem getAppModuleMetadata_cached E E' fuel fuel' moduleType s m s1
    (between : list Call) (again : value) :
  getAppModuleMetadata E fuel moduleType None s = (Ok m, s1) ->
  forallb (fun c => negb (invalidates c)) between = true ->
  resolveForwardRef again = resolveForwardRef moduleType ->
  let s2 := performAll E between s1 in
  getAppModuleMetadata E' (S fuel') again None s2 = (Ok m, s2) /\
  _appModuleCache s2 !! resolveForwardRef moduleType = Some m.
Proof.
  intros Hfirst Hvalid Hsame s2.
  assert (Hkept : _appModuleCache s2 !! resolveForwardRef moduleType = Some m).
  { eapply lookup_weaken;
      [exact (getAppModuleMetadata_stored E fuel moduleType s m s1 Hfirst)|].
    apply (kept_performAll modulesKept); [apply modulesKept_perform|exact Hvalid]. }
  split; [|exact Hkept]. apply getAppModuleMetadata_hit. now rewrite Hsame.
Qed.

(** ** The directives and pipes of a view *)

Lemma mapM_Forall2_kept {A B} (R : relation Resolver) `{!PreOrder R}
    (f : A -> M B) (Q : A -> B -> Resolver -> Prop) (xs : list A) :
  (forall x, steps R (f x)) ->
  (forall x s a s1, f x s = (Ok a, s1) -> Q x a s1) ->
  (forall x a s s', Q x a s -> R s s' -> Q x a s') ->
  forall s r s', mapM f xs s = (Ok r, s') -> Forall2 (fun x a => Q x a s') xs r.
Proof.
  intros Hsteps Hres Hkept.
  induction xs as [|x xs IH]; intros s r s' Hrun.
  - injection Hrun as <- <-. constructor.
  - change (mapM f (x :: xs)) with
      (y <- f x ;; ys <- mapM f xs ;; ret (y :: ys)) in Hrun.
    apply bind_Ok in Hrun as (y & s1 & Hy & Hrun).
    apply bind_Ok in Hrun as (ys & s2 & Hys & Hrun).
    injection Hrun as <- <-. constructor; [|exact (IH _ _ _ Hys)].
    eapply Hkept; [exact (Hres _ _ _ _ Hy)|].
    pose proof (steps_mapM R f xs Hsteps s1) as Hrest.
    now rewrite Hys in Hrest.
Qed.

Lemma flattenDirectives_spec view platform :
  flattenDirectives view platform =
    flattenArray (default [] platform ++ default [] (vm_directives view)) [].
Proof.
  unfold flattenDirectives. rewrite !flattenArray_leaves, flat_map_app. simpl.
  destruct platform, (vm_directives view); simpl;
    rewrite ?flattenArray_leaves, ?app_nil_r; reflexivity.
Qed.

Lemma flattenPipes_spec view platform :
  flattenPipes view platform =
    flattenArray (default [] platform ++ default [] (vm_pipes view)) [].
Proof.
  unfold flattenPipes. rewrite !flattenArray_leaves, flat_map_app. simpl.
  destruct platform, (vm_pipes view); simpl;
    rewrite ?flattenArray_leaves, ?app_nil_r; reflexivity.
Qed.

Lemma getViewDirectivesMetadata_unfold E component s :
  getViewDirectivesMetadata E component s =
  match _viewResolver E component with
  | Throw e => (Throw e, s)
  | Ok view =>
      let directives :=
        flattenArray (default [] (platformDirectives E) ++
                      default [] (vm_directives view)) [] in
      match List.find (fun d => negb (isValidType d)) directives with
      | Some d =>
          (Throw (BaseException
             ("Unexpected directive value '" +:+ stringify E d +:+
              "' on the View of component '" +:+ stringify E component +:+
              "'")), s)
      | None => mapM (getDirectiveMetadata E) directives s
      end
  end.
Proof.
  unfold getViewDirectivesMetadata, bind, call.
  destruct (_viewResolver E component) as [view|e]; [|reflexivity].
  cbv zeta. rewrite flattenDirectives_spec. unfold firstThat.
  destruct (List.find _ _) as [d|]; reflexivity.
Qed.

Lemma getViewPipesMetadata_unfold E component s :
  getViewPipesMetadata E component s =
  match _viewResolver E component with
  | Throw e => (Throw e, s)
  | Ok view =>
      let pipes :=
        flattenArray (default [] (platformPipes E) ++
                      default [] (vm_pipes view)) [] in
      match List.find (fun p => negb (isValidType p)) pipes with
      | Some p =>
          (Throw (BaseException
             ("Unexpected piped value '" +:+ stringify E p +:+
              "' on the View of component '" +:+ stringify E component +:+
              "'")), s)
      | None => mapM (getPipeMetadata E) pipes s
      end
  end.
Proof.
  unfold getViewPipesMetadata, bind, call.
  destruct (_viewResolver E component) as [view|e]; [|reflexivity].
  cbv zeta. rewrite flattenPipes_spec. unfold firstThat.
  destruct (List.find _ _) as [p|]; reflexivity.
Qed.

(** X8. [getViewDirectivesMetadata] flattens the directives of the
    platform followed by those of the view.  It validates the whole list
    before it resolves any directive: when an entry is no type, it throws
    the error that names the first such entry and leaves the resolver as
    it was.  When it returns, its result lists, in that order, the objects
    the directive cache then holds for the entries, and every directive
    cached before is still cached.  An exception of the view resolver is
    passed on. *)
Theorem getViewDirectivesMetadata_spec E (component : value) (s : Resolver) :
  match _viewResolver E component with
  | Throw e => getViewDirectivesMetadata E component s = (Throw e, s)
  | Ok view =>
      let directives :=
        flattenArray (default [] (platformDirectives E) ++
                      default [] (vm_directives view)) [] in
      match List.find (fun d => negb (isValidType d)) directives with
      | Some d =>
          getViewDirectivesMetadata E component s =
            (Throw (BaseException
               ("Unexpected directive value '" +:+ stringify E d +:+
                "' on the View of component '" +:+ stringify E component +:+
                "'")), s)
      | None =>
          forall r s', getViewDirectivesMetadata E component s = (Ok r, s') ->
            Forall2 (fun d m =>
                       _directiveCache s' !! resolveForwardRef d = Some m)
              directives r /\
            _directiveCache s ⊆ _directiveCache s'
      end
  end.
Proof.
  rewrite getViewDirectivesMetadata_unfold.
  destruct (_viewResolver E component) as [view|e]; [|reflexivity].
  cbv zeta. destruct (List.find _ _) as [d|]; [reflexivity|].
  intros r s' Hrun.
  assert (Hsteps : forall d, steps directivesKept (getDirectiveMetadata E d)).
  { intros d s0. apply (directivesKept_perform E (GetDirectiveMetadata d) s0 eq_refl). }
  split.
  - match type of Hrun with
    | mapM _ ?xs _ = _ =>
        refine (mapM_Forall2_kept directivesKept (getDirectiveMetadata E)
                  (fun d m s0 => _directiveCache s0 !! resolveForwardRef d = Some m)
                  xs Hsteps _ _ s r s' Hrun)
    end.
    + intros d s0 m s1. apply getDirectiveMetadata_stored.
    + intros d m s0 s1 Hm Hkept. eapply lookup_weaken; [exact Hm|exact Hkept].
  - match type of Hrun with
    | mapM _ ?xs _ = _ =>
        pose proof (steps_mapM directivesKept _ xs Hsteps s) as Hkept
    end.
    now rewrite Hrun in Hkept.
Qed.

(** X9. [getViewPipesMetadata] does the same for pipes: the pipes of the
    platform come first, the whole flattened list is validated before any
    pipe is resolved, an entry that is no type gives the error that names
    the first such entry with the resolver left as it was, and a result
    lists the cached objects of the entries in order. *)
Theorem getViewPipesMetadata_spec E (component : value) (s : Resolver) :
  match _viewResolver E component with
  | Throw e => getViewPipesMetadata E component s = (Throw e, s)
  | Ok view =>
      let pipes :=
        flattenArray (default [] (platformPipes E) ++
                      default [] (vm_pipes view)) [] in
      match List.find (fun p => negb (isValidType p)) pipes with
      | Some p =>
          getViewPipesMetadata E component s =
            (Throw (BaseException
               ("Unexpected piped value '" +:+ stringify E p +:+
                "' on the View of component '" +:+ stringify E component +:+
                "'")), s)
      | None =>
          forall r s', getViewPipesMetadata E component s = (Ok r, s') ->
            Forall2 (fun p m => _pipeCache s' !! resolveForwardRef p = Some m)
              pipes r /\
            _pipeCache s ⊆ _pipeCache s'
      end
  end.
Proof.
  rewrite getViewPipesMetadata_unfold.
  destruct (_viewResolver E component) as [view|e]; [|reflexivity].
  cbv zeta. destruct (List.find _ _) as [p|]; [reflexivity|].
  intros r s' Hrun.
  assert (Hsteps : forall p, steps pipesKept (getPipeMetadata E p)).
  { intros p s0. apply (pipesKept_perform E (GetPipeMetadata p) s0 eq_refl). }
  split.
  - match type of Hrun with
    | mapM _ ?xs _ = _ =>
        refine (mapM_Forall2_kept pipesKept (getPipeMetadata E)
                  (fun p m s0 => _pipeCache s0 !! resolveForwardRef p = Some m)
                  xs Hsteps _ _ s r s' Hrun)
    end.
    + intros p s0 m s1. apply getPipeMetadata_stored.
    + intros p m s0 s1 Hm Hkept. eapply lookup_weaken; [exact Hm|exact Hkept].
  - match type of Hrun with
    | mapM _ ?xs _ = _ =>
        pose proof (steps_mapM pipesKept _ xs Hsteps s) as Hkept
    end.
    now rewrite Hrun in Hkept.
Qed.

(** * The invariant of the caches *)

#[global] Instance grows_preorder : PreOrder grows.
Proof.
  split.
  - intros s. split; [lia|auto].
  - intros s1 s2 s3 [Ha Hwf] [Ha' Hwf']. split; [lia|auto].
Qed.

Lemma sameCaches_grows s s' : sameCaches s s' -> grows s s'.
Proof.
  intros (Hd & Hp & Hm & Ha). split; [lia|].
  unfold cachesWf. now rewrite Hd, Hp, Hm, Ha.
Qed.

Lemma grows_register token s :
  _anonymousTypes s !! token = None -> grows s (registerAnonymous token s).
Proof. intros H. now apply sameCaches_grows, sameCaches_register. Qed.

Lemma grows_store_directive s s1 k m :
  _directiveCache s1 = <[k := m]> (_directiveCache s) ->
  _pipeCache s1 = _pipeCache s ->
  _appModuleCache s1 = _appModuleCache s ->
  allocated s1 = S (allocated s) ->
  cd_objectId m = allocated s ->
  ct_runtime (cd_type m) = resolveForwardRef k ->
  grows s s1.
Proof.
  intros Hd Hp Hm Ha Hid Hrt. split; [lia|].
  intros lo (Hlo & Hdir & Hpipe & Hmod). unfold cachesWf.
  rewrite Hd, Hp, Hm, Ha. split; [lia|]. split; [|split].
  - intros k' m'. destruct (decide (k = k')) as [<-|Hne].
    + rewrite lookup_insert_eq. intros [= <-]. split; [lia|assumption].
    + rewrite lookup_insert_ne by assumption. intros H.
      destruct (Hdir _ _ H). split; [lia|assumption].
  - intros k' m' H. destruct (Hpipe _ _ H). split; [lia|assumption].
  - intros k' m' H. destruct (Hmod _ _ H). split; [lia|assumption].
Qed.

Lemma grows_store_pipe s s1 k m :
  _pipeCache s1 = <[k := m]> (_pipeCache s) ->
  _directiveCache s1 = _directiveCache s ->
  _appModuleCache s1 = _appModuleCache s ->
  allocated s1 = S (allocated s) ->
  cpm_objectId m = allocated s ->
  ct_runtime (cpm_type m) = resolveForwardRef k ->
  grows s s1.
Proof.
  intros Hp Hd Hm Ha Hid Hrt. split; [lia|].
  intros lo (Hlo & Hdir & Hpipe & Hmod). unfold cachesWf.
  rewrite Hd, Hp, Hm, Ha. split; [lia|]. split; [|split].
  - intros k' m' H. destruct (Hdir _ _ H). split; [lia|assumption].
  - intros k' m'. destruct (decide (k = k')) as [<-|Hne].
    + rewrite lookup_insert_eq. intros [= <-]. split; [lia|assumption].
    + rewrite lookup_insert_ne by assumption. intros H.
      destruct (Hpipe _ _ H). split; [lia|assumption].
  - intros k' m' H. destruct (Hmod _ _ H). split; [lia|assumption].
Qed.

Lemma grows_store_module s s1 k m :
  _appModuleCache s1 = <[k := m]> (_appModuleCache s) ->
  _directiveCache s1 = _directiveCache s ->
  _pipeCache s1 = _pipeCache s ->
  allocated s1 = S (allocated s) ->
  cam_objectId m = allocated s ->
  ct_runtime (cam_type m) = resolveForwardRef k ->
  grows s s1.
Proof.
  intros Hm Hd Hp Ha Hid Hrt. split; [lia|].
  intros lo (Hlo & Hdir & Hpipe & Hmod). unfold cachesWf.
  rewrite Hd, Hp, Hm, Ha. split; [lia|]. split; [|split].
  - intros k' m' H. destruct (Hdir _ _ H). split; [lia|assumption].
  - intros k' m' H. destruct (Hpipe _ _ H). split; [lia|assumption].
  - intros k' m'. destruct (decide (k = k')) as [<-|Hne].
    + rewrite lookup_insert_eq. intros [= <-]. split; [lia|assumption].
    + rewrite lookup_insert_ne by assumption. intros H.
      destruct (Hmod _ _ H). split; [lia|assumption].
Qed.

Lemma grows_allocate s : grows s (snd (allocate s)).
Proof.
  split; [simpl; lia|]. intros lo (Hlo & Hdir & Hpipe & Hmod).
  unfold cachesWf. simpl. split; [lia|]. split; [|split].
  - intros k m H. destruct (Hdir _ _ H). split; [lia|assumption].
  - intros k m H. destruct (Hpipe _ _ H). split; [lia|assumption].
  - intros k m H. destruct (Hmod _ _ H). split; [lia|assumption].
Qed.

Lemma cachesWf_new : cachesWf 0 newResolver.
Proof.
  split; [simpl; lia|]. split; [|split]; intros k m H; simpl in H;
    now rewrite lookup_empty in H.
Qed.

Section Invariant.

Context (E : Collaborators).

(** What [getDirectiveMetadata] returns, on a resolver with the invariant. *)
Lemma getDirectiveMetadata_result lo directiveType s m s' :
  cachesWf lo s -> getDirectiveMetadata E directiveType s = (Ok m, s') ->
  grows s s' /\ lo <= cd_objectId m /\
  ct_runtime (cd_type m) = resolveForwardRef (resolveForwardRef directiveType).
Proof.
  intros Hwf Hrun.
  pose proof (getDirectiveMetadata_effect E directiveType s) as Heffect.
  cbv zeta in Heffect. rewrite Hrun in Heffect.
  destruct Heffect as [[Hhit ->]|(_ & Hd & Hp & Hm & Ha & Hid & Hrt)].
  - split; [reflexivity|]. destruct Hwf as (_ & Hdir & _).
    destruct (Hdir _ _ Hhit). split; [lia|assumption].
  - split; [exact (grows_store_directive _ _ _ _ Hd Hp Hm Ha Hid Hrt)|].
    destruct Hwf as (Hlo & _). split; [lia|assumption].
Qed.

Lemma steps_grows_getDirectiveMetadata directiveType :
  steps grows (getDirectiveMetadata E directiveType).
Proof.
  intros s. pose proof (getDirectiveMetadata_effect E directiveType s) as Heffect.
  cbv zeta in Heffect.
  destruct (getDirectiveMetadata E directiveType s) as [[m|e] s']; simpl.
  - destruct Heffect as [[_ ->]|(_ & Hd & Hp & Hm & Ha & Hid & Hrt)];
      [reflexivity|exact (grows_store_directive _ _ _ _ Hd Hp Hm Ha Hid Hrt)].
  - now apply sameCaches_grows.
Qed.

Lemma getPipeMetadata_result lo pipeType s m s' :
  cachesWf lo s -> getPipeMetadata E pipeType s = (Ok m, s') ->
  grows s s' /\ lo <= cpm_objectId m /\
  ct_runtime (cpm_type m) = resolveForwardRef (resolveForwardRef pipeType).
Proof.
  intros Hwf Hrun.
  pose proof (getPipeMetadata_effect E pipeType s) as Heffect.
  cbv zeta in Heffect. rewrite Hrun in Heffect.
  destruct Heffect as [[Hhit ->]|(_ & Hp & Hd & Hm & Ha & Hid & Hrt)].
  - split; [reflexivity|]. destruct Hwf as (_ & _ & Hpipe & _).
    destruct (Hpipe _ _ Hhit). split; [lia|assumption].
  - split; [exact (grows_store_pipe _ _ _ _ Hp Hd Hm Ha Hid Hrt)|].
    destruct Hwf as (Hlo & _). split; [lia|assumption].
Qed.

Lemma steps_grows_getPipeMetadata pipeType :
  steps grows (getPipeMetadata E pipeType).
Proof.
  intros s. pose proof (getPipeMetadata_effect E pipeType s) as Heffect.
  cbv zeta in Heffect.
  destruct (getPipeMetadata E pipeType s) as [[m|e] s']; simpl.
  - destruct Heffect as [[_ ->]|(_ & Hp & Hd & Hm & Ha & Hid & Hrt)];
      [reflexivity|exact (grows_store_pipe _ _ _ _ Hp Hd Hm Ha Hid Hrt)].
  - now apply sameCaches_grows.
Qed.

(** The computation of the metadata of a module, when the nested calls
    keep the invariant. *)
Lemma compileModule_outcome fuel key meta useCache s :
  (forall moduleType meta, steps grows (getAppModuleMetadata E fuel moduleType meta)) ->
  outcome grows s (compileModule E fuel key meta useCache)
    (fun m s1 => grows s s1 /\ allocated s <= cam_objectId m /\
                 ct_runtime (cam_type m) = resolveForwardRef key).
Proof.
  intros IH. unfold compileModule.
  apply outcome_bind_steps; [apply _| |intros own].
  { apply steps_ownMetadata; [apply _|apply grows_register]. }
  apply outcome_bind_steps; [apply _| |intros lists].
  { unfold nestedMetadata. destruct (am_modules meta); [|apply steps_ret; apply _].
    apply steps_forEachM; [apply _|]. intros acc moduleType.
    apply steps_bind; [apply _|apply IH|]. intros ?. apply steps_ret; apply _. }
  apply outcome_bind with (P := fun t => ct_runtime t = resolveForwardRef key);
    [apply _| | |intros type Htype].
  { apply steps_getTypeMetadata; [apply _|apply grows_register]. }
  { intros ? ? ?. apply getTypeMetadata_runtime. }
  intros s2 Hs2.
  pose proof (proj1 Hs2) as Hle.
  destruct useCache; simpl.
  - split; [|split; [exact Hle|exact Htype]].
    transitivity s2; [exact Hs2|].
    now apply (grows_store_module s2 _ key
                 (mkCompileAppModuleMetadata (allocated s2) type (ml_providers lists)
                    (ml_directives lists) (ml_pipes lists) (ml_precompile lists)
                    (ml_modules lists))).
  - split; [|split; [exact Hle|exact Htype]].
    transitivity s2; [exact Hs2|]. apply grows_allocate.
Qed.

Lemma steps_grows_getAppModuleMetadata fuel :
  forall moduleType meta, steps grows (getAppModuleMetadata E fuel moduleType meta).
Proof.
  induction fuel as [|fuel IH]; intros moduleType meta s.
  - simpl. reflexivity.
  - rewrite getAppModuleMetadata_unfold. cbv zeta.
    assert (Hcompile : forall key meta useCache,
      grows s (snd (compileModule E fuel key meta useCache s))).
    { intros key meta' useCache.
      pose proof (outcome_start grows s _ _
                    (compileModule_outcome fuel key meta' useCache s IH)) as Hout.
      destruct (compileModule E fuel key meta' useCache s) as [[m|e] s1];
        simpl; [apply Hout|exact Hout]. }
    destruct (_appModuleCache s !! resolveForwardRef moduleType), meta;
      try apply Hcompile; try reflexivity.
    destruct (findAppModule _); [apply Hcompile|reflexivity].
Qed.

Lemma getAppModuleMetadata_result lo fuel moduleType meta s m s' :
  cachesWf lo s -> getAppModuleMetadata E fuel moduleType meta s = (Ok m, s') ->
  grows s s' /\ lo <= cam_objectId m /\
  ct_runtime (cam_type m) = resolveForwardRef (resolveForwardRef moduleType).
Proof.
  intros Hwf. destruct fuel as [|fuel]; [discriminate|].
  rewrite getAppModuleMetadata_unfold. cbv zeta.
  assert (Hcompile : forall key meta useCache,
    compileModule E fuel key meta useCache s = (Ok m, s') ->
    grows s s' /\ lo <= cam_objectId m /\
    ct_runtime (cam_type m) = resolveForwardRef key).
  { intros key meta' useCache Hrun.
    pose proof (outcome_start grows s _ _
                  (compileModule_outcome fuel key meta' useCache s
                     (steps_grows_getAppModuleMetadata fuel))) as Hout.
    rewrite Hrun in Hout. destruct Hout as (Hg & Hid & Hrt).
    destruct Hwf as (Hlo & _). split; [exact Hg|]. split; [lia|exact Hrt]. }
  destruct (_appModuleCache s !! resolveForwardRef moduleType) as [cached|] eqn:Hkey,
    meta as [meta|]; try apply Hcompile.
  - intros [= <- <-]. split; [reflexivity|]. destruct Hwf as (_ & _ & _ & Hmod).
    destruct (Hmod _ _ Hkey). split; [lia|assumption].
  - destruct (findAppModule _); [apply Hcompile|discriminate].
Qed.

Lemma getAppModuleMetadata_miss fuel moduleType meta s m s' :
  _appModuleCache s !! resolveForwardRef moduleType = None ->
  getAppModuleMetadata E fuel moduleType meta s = (Ok m, s') ->
  allocated s <= cam_objectId m.
Proof.
  intros Hmiss. destruct fuel as [|fuel]; [discriminate|].
  rewrite getAppModuleMetadata_unfold. cbv zeta. rewrite Hmiss.
  assert (Hcompile : forall key meta useCache,
    compileModule E fuel key meta useCache s = (Ok m, s') ->
    allocated s <= cam_objectId m).
  { intros key meta' useCache Hrun.
    pose proof (outcome_start grows s _ _
                  (compileModule_outcome fuel key meta' useCache s
                     (steps_grows_getAppModuleMetadata fuel))) as Hout.
    rewrite Hrun in Hout. apply Hout. }
  destruct meta; [apply Hcompile|].
  destruct (findAppModule _); [apply Hcompile|discriminate].
Qed.

Lemma cachesWf_delete lo type s :
  cachesWf lo s -> cachesWf lo (snd (clearCacheFor type s)).
Proof.
  intros (Hlo & Hdir & Hpipe & Hmod). unfold cachesWf. simpl.
  split; [exact Hlo|]. split; [|split]; intros k m;
    (destruct (decide (type = k)) as [<-|Hne];
       [now rewrite lookup_delete_eq|rewrite lookup_delete_ne by assumption]);
    auto.
Qed.

Lemma cachesWf_clear lo lo' s :
  lo <= allocated s -> cachesWf lo' s -> cachesWf lo (snd (clearCache s)).
Proof.
  intros Hlo _. unfold cachesWf. simpl. split; [exact Hlo|].
  split; [|split]; intros k m H; now rewrite lookup_empty in H.
Qed.

Lemma perform_grows c s : grows s (perform E c s).
Proof.
  destruct (invalidates c) eqn:Hc.
  - destruct c; try discriminate.
    + split; [simpl; lia|]. intros lo. apply cachesWf_delete.
    + split; [simpl; lia|]. intros lo Hwf.
      apply (cachesWf_clear lo lo); [apply Hwf|exact Hwf].
  - destruct c; try discriminate; simpl.
    + apply steps_grows_getDirectiveMetadata.
    + unfold maybeGetDirectiveMetadata.
      apply steps_catch; [apply _| |].
      * apply steps_bind; [apply _|apply steps_grows_getDirectiveMetadata|].
        intros ?. apply steps_ret; apply _.
      * intros e. destruct (isNoDirectiveAnnotation e);
          [apply steps_ret|apply steps_throw]; apply _.
    + apply steps_grows_getAppModuleMetadata.
    + apply steps_grows_getPipeMetadata.
    + rewrite getViewDirectivesMetadata_unfold.
      destruct (_viewResolver E component); [|reflexivity]. cbv zeta.
      destruct (List.find _ _); [reflexivity|].
      apply steps_mapM; [apply _|apply steps_grows_getDirectiveMetadata].
    + rewrite getViewPipesMetadata_unfold.
      destruct (_viewResolver E component); [|reflexivity]. cbv zeta.
      destruct (List.find _ _); [reflexivity|].
      apply steps_mapM; [apply _|apply steps_grows_getPipeMetadata].
    + apply steps_getTypeMetadata; [apply _|apply grows_register].
    + apply steps_getFactoryMetadata; [apply _|apply grows_register].
    + apply steps_getDependenciesMetadata; [apply _|apply grows_register].
    + apply steps_getTokenMetadata; [apply _|apply grows_register].
    + apply steps_getProvidersMetadata; [apply _|apply grows_register].
    + apply steps_getProviderMetadata; [apply _|apply grows_register].
    + apply steps_getQueriesMetadata; [apply _|apply grows_register].
    + apply steps_getQueryMetadata; [apply _|apply grows_register].
Qed.

Lemma performAll_grows cs s : grows s (performAll E cs s).
Proof.
  revert s. induction cs as [|c cs IH]; intros s; simpl; [reflexivity|].
  etransitivity; [apply perform_grows|apply IH].
Qed.

Lemma cachesWf_reachable cs : cachesWf 0 (performAll E cs newResolver).
Proof. apply performAll_grows, cachesWf_new. Qed.

End Invariant.

(** X10. On a resolver that has served any calls, every cached object
    describes the type it is cached for: the type an entry of the
    directive cache, the pipe cache or the module cache records is the
    dereferenced key.  Hence what [getDirectiveMetadata], [getPipeMetadata]
    and [getAppModuleMetadata] return for a type, computed or cached and
    with or without a supplied annotation, records the dereferenced type. *)
Theorem cached_metadata_describes_its_type E (calls : list Call) :
  let s := performAll E calls newResolver in
  (forall k m, _directiveCache s !! k = Some m ->
     ct_runtime (cd_type m) = resolveForwardRef k) /\
  (forall k m, _pipeCache s !! k = Some m ->
     ct_runtime (cpm_type m) = resolveForwardRef k) /\
  (forall k m, _appModuleCache s !! k = Some m ->
     ct_runtime (cam_type m) = resolveForwardRef k) /\
  (forall type m s', getDirectiveMetadata E type s = (Ok m, s') ->
     ct_runtime (cd_type m) = resolveForwardRef (resolveForwardRef type)) /\
  (forall type m s', getPipeMetadata E type s = (Ok m, s') ->
     ct_runtime (cpm_type m) = resolveForwardRef (resolveForwardRef type)) /\
  (forall fuel type meta m s',
     getAppModuleMetadata E fuel type meta s = (Ok m, s') ->
     ct_runtime (cam_type m) = resolveForwardRef (resolveForwardRef type)).
Proof.
  intros s. pose proof (cachesWf_reachable E calls) as Hwf. fold s in Hwf.
  pose proof Hwf as (_ & Hdir & Hpipe & Hmod).
  split; [|split; [|split; [|split; [|split]]]].
  - intros k m H. now destruct (Hdir _ _ H).
  - intros k m H. now destruct (Hpipe _ _ H).
  - intros k m H. now destruct (Hmod _ _ H).
  - intros type m s' H. now destruct (getDirectiveMetadata_result E 0 _ _ _ _ Hwf H) as (_ & _ & ?).
  - intros type m s' H. now destruct (getPipeMetadata_result E 0 _ _ _ _ Hwf H) as (_ & _ & ?).
  - intros fuel type meta m s' H.
    now destruct (getAppModuleMetadata_result E 0 _ _ _ _ _ _ Hwf H) as (_ & _ & ?).
Qed.

(** X11. [clearCache] discards the cached objects for good: whatever calls
    follow it, no object that a cache held before the call is returned
    again.  Every directive, pipe or module metadata returned afterwards
    is an object created after the call: its identity is larger than the
    identity of every object cached before. *)
Theorem clearCache_then_new_objects E (before between : list Call) :
  let s1 := performAll E before newResolver in
  let s2 := performAll E between (snd (clearCache s1)) in
  (forall k m type m' s3,
     _directiveCache s1 !! k = Some m ->
     getDirectiveMetadata E type s2 = (Ok m', s3) ->
     cd_objectId m < cd_objectId m') /\
  (forall k m type m' s3,
     _pipeCache s1 !! k = Some m ->
     getPipeMetadata E type s2 = (Ok m', s3) ->
     cpm_objectId m < cpm_objectId m') /\
  (forall k m fuel type meta m' s3,
     _appModuleCache s1 !! k = Some m ->
     getAppModuleMetadata E fuel type meta s2 = (Ok m', s3) ->
     cam_objectId m < cam_objectId m').
Proof.
  intros s1 s2.
  pose proof (cachesWf_reachable E before) as Hwf1. fold s1 in Hwf1.
  assert (Hwf2 : cachesWf (allocated s1) s2).
  { apply performAll_grows. now apply (cachesWf_clear _ 0). }
  destruct Hwf1 as (_ & Hdir & Hpipe & Hmod).
  split; [|split].
  - intros k m type m' s3 Hm Hrun. destruct (Hdir _ _ Hm) as [? _].
    destruct (getDirectiveMetadata_result E _ _ _ _ _ Hwf2 Hrun) as (_ & ? & _).
    lia.
  - intros k m type m' s3 Hm Hrun. destruct (Hpipe _ _ Hm) as [? _].
    destruct (getPipeMetadata_result E _ _ _ _ _ Hwf2 Hrun) as (_ & ? & _).
    lia.
  - intros k m fuel type meta m' s3 Hm Hrun. destruct (Hmod _ _ Hm) as [? _].
    destruct (getAppModuleMetadata_result E _ _ _ _ _ _ _ Hwf2 Hrun) as (_ & ? & _).
    lia.
Qed.

(** ** The numbers of the anonymous types *)

#[global] Instance denseKept_preorder : PreOrder denseKept.
Proof.
  split; [now intros s|]. intros s1 s2 s3. unfold denseKept. auto.
Qed.

Lemma denseKept_same s s' :
  _anonymousTypes s' = _anonymousTypes s ->
  _anonymousTypeIndex s' = _anonymousTypeIndex s -> denseKept s s'.
Proof. intros Hm Hi. unfold denseKept, anonymousDense. now rewrite Hm, Hi. Qed.

Lemma denseKept_register token s :
  _anonymousTypes s !! token = None -> denseKept s (registerAnonymous token s).
Proof.
  intros Hnone Hdense n. simpl. split.
  - intros Hn. destruct (decide (n = _anonymousTypeIndex s)) as [->|Hne].
    + exists token. apply lookup_insert_eq.
    + destruct (proj1 (Hdense n)) as [t Ht]; [lia|].
      exists t. rewrite lookup_insert_ne; [exact Ht|]. intros <-. congruence.
  - intros [t Ht]. destruct (decide (token = t)) as [<-|Hne].
    + rewrite lookup_insert_eq in Ht. injection Ht as <-. lia.
    + rewrite lookup_insert_ne in Ht by assumption.
      assert (n < _anonymousTypeIndex s) by (apply Hdense; now exists t). lia.
Qed.

Lemma denseKept_perform E c s : denseKept s (perform E c s).
Proof.
  destruct (invalidates c) eqn:Hc.
  - destruct c; try discriminate; simpl; now apply denseKept_same.
  - apply perform_related; try apply _; try assumption.
    + apply denseKept_register.
    + intros s0. now apply denseKept_same.
    + intros s0 s1 k v H _. etransitivity; [exact H|]. now apply denseKept_same.
    + intros s0 s1 k v H _. etransitivity; [exact H|]. now apply denseKept_same.
    + intros s0 s1 k v H _. etransitivity; [exact H|]. now apply denseKept_same.
Qed.

(** X12. The anonymous types are numbered consecutively from 0, in the
    order in which they are first named, and no number is given up: on a
    resolver that has served any calls, [clearCache] and [clearCacheFor]
    included, the numbers in use are exactly the numbers below
    [_anonymousTypeIndex], and a type without number that is named next
    receives [_anonymousTypeIndex] itself. *)
Theorem anonymous_numbers_are_consecutive E (calls : list Call) :
  let s := performAll E calls newResolver in
  (forall n, n < _anonymousTypeIndex s <->
             exists token, _anonymousTypes s !! token = Some n) /\
  (forall token,
     includes (stringify E token) "(" = true ->
     _anonymousTypes s !! token = None ->
     let r := sanitizeTokenName E token s in
     fst r = Ok (sanitizeIdentifier E (syntheticName (_anonymousTypeIndex s))) /\
     _anonymousTypes (snd r) !! token = Some (_anonymousTypeIndex s) /\
     _anonymousTypeIndex (snd r) = S (_anonymousTypeIndex s)).
Proof.
  intros s. split.
  - assert (Hall : forall cs s0, denseKept s0 (performAll E cs s0)).
    { induction cs as [|c cs IH]; intros s0; simpl; [reflexivity|].
      etransitivity; [apply denseKept_perform|apply IH]. }
    apply (Hall calls newResolver). intros n. simpl. split; [lia|].
    intros [t Ht]. now rewrite lookup_empty in Ht.
  - intros token Hanon Hnone r. subst r. unfold sanitizeTokenName.
    rewrite Hanon, bind_gets, Hnone.
    unfold bind, modify, gets, ret. simpl. rewrite lookup_insert_eq.
    now repeat split.
Qed.

(** * Queries, dependencies and providers *)

Section Queries.

Context (E : Collaborators).

Lemma steps_sameCaches_getQueryMetadata q propertyName typeOrFunc :
  steps sameCaches (getQueryMetadata E q propertyName typeOrFunc).
Proof. apply steps_getQueryMetadata; [apply _|apply sameCaches_register]. Qed.

(** The fields of a compiled query. *)
Lemma getQueryMetadata_fields q propertyName typeOrFunc :
  queryFails q = false ->
  returns (getQueryMetadata E q propertyName typeOrFunc)
    (fun r =>
       cq_first r = q_first q /\ cq_descendants r = q_descendants q /\
       cq_propertyName r = propertyName /\
       List.map tokenOf (cq_selectors r) =
         (if q_isVarBindingQuery q then List.map VString (q_varBindings q)
          else [resolveForwardRef (q_selector q)]) /\
       option_map tokenOf (cq_read r) =
         (if isPresent (q_read q) then Some (resolveForwardRef (q_read q))
          else None)).
Proof.
  unfold queryFails, getQueryMetadata. intros Hq.
  eapply returns_bind with
    (P := fun sel => List.map tokenOf sel =
            (if q_isVarBindingQuery q then List.map VString (q_varBindings q)
             else [resolveForwardRef (q_selector q)])).
  - destruct (q_isVarBindingQuery q); simpl in Hq.
    + eapply returns_weaken.
      * apply returns_mapM with (P := fun x r => tokenOf r = VString x).
        intros x. apply (getTokenMetadata_returns E (VString x)).
      * intros sel Hsel. induction Hsel as [|x r xs rs Hr _ IH]; simpl;
          [reflexivity|now rewrite Hr, IH].
    + rewrite Hq.
      eapply returns_bind; [apply getTokenMetadata_returns|intros t Ht].
      apply returns_ret. simpl. now rewrite Ht.
  - intros selectors Hsel.
    eapply returns_bind with
      (P := fun rd => option_map tokenOf rd =
              (if isPresent (q_read q) then Some (resolveForwardRef (q_read q))
               else None)).
    + destruct (isPresent (q_read q)); [|now apply returns_ret].
      eapply returns_bind; [apply getTokenMetadata_returns|intros t Ht].
      apply returns_ret. simpl. now rewrite Ht.
    + intros rd Hrd. apply returns_ret. simpl. now repeat split.
Qed.

Lemma getQueryMetadata_named q propertyName typeOrFunc s r s' :
  getQueryMetadata E q propertyName typeOrFunc s = (Ok r, s') ->
  queryFails q = false /\ cq_propertyName r = propertyName.
Proof.
  intros Hrun. destruct (queryFails q) eqn:Hq.
  - rewrite getQueryMetadata_throws in Hrun by exact Hq. discriminate.
  - split; [reflexivity|].
    now destruct (returns_run _ _ _ _ _
                    (getQueryMetadata_fields q propertyName typeOrFunc Hq) Hrun)
      as (_ & _ & ? & _).
Qed.

(** The loop of [getQueriesMetadata], from any list [acc]. *)
Lemma getQueriesMetadata_loop queries isViewQuery directiveType acc s :
  let selected := selectedQueries queries isViewQuery in
  match forEachM (fun compileQueries entry =>
          if Bool.eqb (q_isViewQuery (snd entry)) isViewQuery then
            q <- getQueryMetadata E (snd entry) (Some (fst entry)) directiveType ;;
            ret (compileQueries ++ [q])
          else ret compileQueries) queries acc s with
  | (Ok r, _) =>
      exists r', r = acc ++ r' /\
        List.map cq_propertyName r' = List.map (fun entry => Some (fst entry)) selected /\
        Forall (fun entry => queryFails (snd entry) = false) selected
  | (Throw e, _) =>
      exists entry,
        List.find (fun entry => queryFails (snd entry)) selected = Some entry /\
        e = queryError E (Some (fst entry)) directiveType
  end.
Proof.
  revert acc s. induction queries as [|entry queries IH]; intros acc s.
  - simpl. exists []. now rewrite app_nil_r.
  - cbn [forEachM]. unfold selectedQueries. cbn [List.filter].
    fold (selectedQueries queries isViewQuery).
    destruct (Bool.eqb (q_isViewQuery (snd entry)) isViewQuery).
    + unfold bind at 1 2.
      destruct (getQueryMetadata E (snd entry) (Some (fst entry)) directiveType s)
        as [[q|e] s1] eqn:Hrun.
      * apply getQueryMetadata_named in Hrun as [Hq Hname]. simpl.
        specialize (IH (acc ++ [q]) s1). cbv zeta in IH.
        destruct (forEachM _ queries (acc ++ [q]) s1) as [[r|e] s2].
        -- destruct IH as (r' & -> & Hnames & Hall).
           exists (q :: r'). rewrite <- app_assoc. simpl.
           split; [reflexivity|]. split; [now rewrite Hname, Hnames|].
           now constructor.
        -- destruct IH as (entry' & Hfind & ->). exists entry'.
           simpl. now rewrite Hq.
      * exists entry. destruct (queryFails (snd entry)) eqn:Hq.
        -- rewrite getQueryMetadata_throws in Hrun by exact Hq.
           injection Hrun as <- <-. simpl. now rewrite Hq.
        -- destruct (getQueryMetadata_fields _ (Some (fst entry)) directiveType Hq s)
             as (? & ? & Hok & _). congruence.
    + rewrite bind_ret. apply IH.
Qed.

Lemma getQueriesMetadata_names queries isViewQuery directiveType s r s' :
  getQueriesMetadata E queries isViewQuery directiveType s = (Ok r, s') ->
  List.map cq_propertyName r =
    List.map (fun entry => Some (fst entry)) (selectedQueries queries isViewQuery).
Proof.
  intros Hrun.
  pose proof (getQueriesMetadata_loop queries isViewQuery directiveType [] s)
    as Hloop.
  cbv zeta in Hloop. unfold getQueriesMetadata in Hrun. rewrite Hrun in Hloop.
  now destruct Hloop as (r' & -> & Hnames & _).
Qed.

End Queries.

(** X13. [getQueryMetadata] throws exactly for a query that is not bound
    to variables and has no selector; the resolver is then unchanged.
    For every other query it returns: a query bound to variables has one
    selector for each of its variable names, in order, whatever its
    selector is; another query has its dereferenced selector as only
    selector; [first], [descendants] and the property name are copied,
    and [read] is compiled exactly when it is present.  No cache is
    touched. *)
Theorem getQueryMetadata_spec E (q : QueryMetadata) (propertyName : option string)
    (typeOrFunc : value) (s : Resolver) :
  if negb (q_isVarBindingQuery q) && negb (isPresent (q_selector q)) then
    getQueryMetadata E q propertyName typeOrFunc s =
      (Throw (queryError E propertyName typeOrFunc), s)
  else
    exists r s',
      getQueryMetadata E q propertyName typeOrFunc s = (Ok r, s') /\
      sameCaches s s' /\
      cq_first r = q_first q /\ cq_descendants r = q_descendants q /\
      cq_propertyName r = propertyName /\
      List.map tokenOf (cq_selectors r) =
        (if q_isVarBindingQuery q then List.map VString (q_varBindings q)
         else [resolveForwardRef (q_selector q)]) /\
      option_map tokenOf (cq_read r) =
        (if isPresent (q_read q) then Some (resolveForwardRef (q_read q))
         else None).
Proof.
  fold (queryFails q). destruct (queryFails q) eqn:Hq.
  - now apply getQueryMetadata_throws.
  - pose proof (steps_sameCaches_getQueryMetadata E q propertyName typeOrFunc s)
      as Hsame.
    destruct (getQueryMetadata_fields E q propertyName typeOrFunc Hq s)
      as (r & s' & Hrun & Hfields).
    rewrite Hrun in Hsame. now exists r, s'.
Qed.

(** X14. [getQueriesMetadata] compiles the queries whose view flag is the
    one asked for, and only these, in the order of the list: a result has
    one query for each of them, with its property name.  It throws exactly
    when one of them is not bound to variables and has no selector, and
    the error is the one of the first such query, with its property name.
    Queries of the other kind are not looked at, so a content query
    without selector does not disturb the view queries. *)
Theorem getQueriesMetadata_spec E (queries : list (string * QueryMetadata))
    (isViewQuery : bool) (directiveType : value) (s : Resolver) :
  let selected :=
    List.filter (fun entry => Bool.eqb (q_isViewQuery (snd entry)) isViewQuery)
      queries in
  match getQueriesMetadata E queries isViewQuery directiveType s with
  | (Ok r, _) =>
      List.map cq_propertyName r = List.map (fun entry => Some (fst entry)) selected /\
      Forall (fun entry => queryFails (snd entry) = false) selected
  | (Throw e, _) =>
      exists entry,
        List.find (fun entry => queryFails (snd entry)) selected = Some entry /\
        e = queryError E (Some (fst entry)) directiveType
  end.
Proof.
  pose proof (getQueriesMetadata_loop E queries isViewQuery directiveType [] s)
    as Hloop.
  cbv zeta in *. unfold getQueriesMetadata. fold (selectedQueries queries isViewQuery).
  destruct (forEachM _ queries [] s) as [[r|e] s']; [|exact Hloop].
  destruct Hloop as (r' & -> & Hnames & Hall). now split.
Qed.

(** * The scan of a parameter *)

Ltac scan_cases e :=
  destruct e; cbn; repeat case_match; cbn;
  intuition (try discriminate; try congruence; eauto).

Lemma scanEntry_isHost sc e :
  isHost (scanEntry sc e) = true <-> isHost sc = true \/ e = VHostMetadata.
Proof. scan_cases e. Qed.

Lemma scanEntry_isSelf sc e :
  isSelf (scanEntry sc e) = true <-> isSelf sc = true \/ e = VSelfMetadata.
Proof. scan_cases e. Qed.

Lemma scanEntry_isSkipSelf sc e :
  isSkipSelf (scanEntry sc e) = true <-> isSkipSelf sc = true \/ e = VSkipSelfMetadata.
Proof. scan_cases e. Qed.

Lemma scanEntry_isOptional sc e :
  isOptional (scanEntry sc e) = true <-> isOptional sc = true \/ e = VOptionalMetadata.
Proof. scan_cases e. Qed.

Lemma scanEntry_isAttribute sc e :
  isAttribute (scanEntry sc e) = true <->
  isAttribute sc = true \/ exists name, e = VAttributeMetadata name.
Proof.
  destruct e; cbn; repeat case_match; cbn;
    intuition (try discriminate; try congruence; eauto);
    match goal with H : exists _, _ |- _ => destruct H; discriminate end.
Qed.

Lemma fold_scan_flag (flag : ParamScan -> bool) (P : value -> Prop) :
  (forall sc e, flag (scanEntry sc e) = true <-> flag sc = true \/ P e) ->
  forall entries sc,
    flag (fold_left scanEntry entries sc) = true <->
    flag sc = true \/ Exists P entries.
Proof.
  intros Hstep. induction entries as [|e entries IH]; intros sc; simpl.
  - rewrite Exists_nil. tauto.
  - rewrite IH, Hstep, Exists_cons. tauto.
Qed.

Lemma Exists_eq_elem_of (x : value) entries :
  Exists (fun e => e = x) entries <-> x ∈ entries.
Proof.
  rewrite Exists_exists. split.
  - now intros (e & Hin & ->).
  - intros Hin. now exists x.
Qed.

Lemma scanEntry_token_explicit sc e t :
  explicitToken e = Some t -> token (scanEntry sc e) = t.
Proof. destruct e; simpl; intros [=]; now subst. Qed.

Lemma scanEntry_token_other sc e :
  explicitToken e = None ->
  token (scanEntry sc e) =
    if isValidType e && isBlank (token sc) then e else token sc.
Proof.
  destruct e; simpl; try discriminate; intros _; repeat case_match;
    reflexivity.
Qed.

Lemma isValidType_present e : isValidType e = true -> isBlank e = false.
Proof. now destruct e. Qed.

Lemma fold_token_kept post sc :
  Forall (fun e => explicitToken e = None) post ->
  isBlank (token sc) = false ->
  token (fold_left scanEntry post sc) = token sc.
Proof.
  intros Hpost. revert sc. induction Hpost as [|e post He _ IH]; intros sc Hsc;
    simpl; [reflexivity|].
  assert (Hstep : token (scanEntry sc e) = token sc).
  { rewrite scanEntry_token_other by exact He. now rewrite Hsc, andb_false_r. }
  rewrite IH; [exact Hstep|now rewrite Hstep].
Qed.

Lemma fold_token_first entries sc :
  Forall (fun e => explicitToken e = None) entries ->
  isBlank (token sc) = true ->
  token (fold_left scanEntry entries sc) =
    default (token sc) (List.find isValidType entries).
Proof.
  intros Hentries. revert sc.
  induction Hentries as [|e entries He Hrest IH]; intros sc Hsc; simpl;
    [reflexivity|].
  pose proof (scanEntry_token_other sc e He) as Hstep.
  rewrite Hsc, andb_true_r in Hstep.
  destruct (isValidType e) eqn:Hvalid.
  - rewrite fold_token_kept; [exact Hstep|exact Hrest|].
    rewrite Hstep. now apply isValidType_present.
  - rewrite IH by now rewrite Hstep. now rewrite Hstep.
Qed.

(** X15. The scan of the entries of one constructor parameter in
    [getDependenciesMetadata].  The qualifiers do not depend on the order
    of the entries: the parameter is host, self, skip-self or optional
    exactly when the marker occurs among its entries, and an attribute
    exactly when an [@Attribute] entry occurs.  The token is the one of the
    last [@Inject] or [@Attribute] entry when that token is defined,
    wherever the declared type stands; without such an entry it is the
    first entry that is a type, and blank when there is none.  A parameter
    that is no array is its own token and has no qualifier. *)
Theorem scanParam_qualifiers (entries : list value) :
  let sc := scanParam (VArray entries) in
  (isHost sc = true <-> VHostMetadata ∈ entries) /\
  (isSelf sc = true <-> VSelfMetadata ∈ entries) /\
  (isSkipSelf sc = true <-> VSkipSelfMetadata ∈ entries) /\
  (isOptional sc = true <-> VOptionalMetadata ∈ entries) /\
  (isAttribute sc = true <-> exists name, VAttributeMetadata name ∈ entries) /\
  (forall pre e t post,
     entries = pre ++ e :: post -> explicitToken e = Some t ->
     isBlank t = false -> Forall (fun e' => explicitToken e' = None) post ->
     token sc = t) /\
  (Forall (fun e => explicitToken e = None) entries ->
   token sc = default VNull (List.find isValidType entries)) /\
  (forall param, isArray param = false ->
     scanParam param = mkParamScan false false false false false None None param).
Proof.
  intros sc. subst sc. unfold scanParam.
  rewrite (fold_scan_flag isHost _ scanEntry_isHost),
    (fold_scan_flag isSelf _ scanEntry_isSelf),
    (fold_scan_flag isSkipSelf _ scanEntry_isSkipSelf),
    (fold_scan_flag isOptional _ scanEntry_isOptional),
    (fold_scan_flag isAttribute _ scanEntry_isAttribute).
  rewrite !Exists_eq_elem_of. simpl.
  repeat split; try (intros [?|?]; [discriminate|assumption]); try (now right).
  - intros [?|H]; [discriminate|]. apply Exists_exists in H as (e & Hin & name & ->).
    now exists name.
  - intros [name Hin]. right. apply Exists_exists. eauto.
  - intros pre e t post -> He Ht Hpost. rewrite fold_left_app. simpl.
    rewrite fold_token_kept; [now apply scanEntry_token_explicit|exact Hpost|].
    now rewrite (scanEntry_token_explicit _ _ _ He).
  - intros Hentries. now rewrite fold_token_first.
  - intros param Hparam. now destruct param.
Qed.

(** * Dependencies *)

Section Qualified.

Context (E : Collaborators).

Lemma resolveParam_qualified typeOrFunc h param s d flag s' :
  resolveParam E typeOrFunc h param s = (Ok (Some d, flag), s') ->
  qualified param d.
Proof.
  unfold resolveParam.
  destruct (isBlank (token (scanParam param))) eqn:Hblank; [discriminate|].
  intros H.
  apply bind_Ok in H as (q & sa & Hq & H).
  apply bind_Ok in H as (vq & sb & Hvq & H).
  apply bind_Ok in H as (t & sc & Ht & H).
  injection H as <- <- <-. unfold qualified. cbv zeta. simpl.
  repeat split; try exact Hblank.
  - destruct (query (scanParam param)); [now eexists|].
    injection Hq as <- <-. intros [? [=]].
  - destruct (query (scanParam param)) as [q0|].
    + apply bind_Ok in Hq as (r & ? & _ & Hq). injection Hq as <- <-. now eexists.
    + intros [? [=]].
  - destruct (viewQuery (scanParam param)); [now eexists|].
    injection Hvq as <- <-. intros [? [=]].
  - destruct (viewQuery (scanParam param)) as [q0|].
    + apply bind_Ok in Hvq as (r & ? & _ & Hvq). injection Hvq as <- <-. now eexists.
    + intros [? [=]].
  - exact (returns_run _ _ _ _ _ (getTokenMetadata_returns E _) Ht).
Qed.

Lemma mapParams_qualified typeOrFunc params h s r s' :
  mapParams E typeOrFunc params h s = (Ok r, s') ->
  Forall2 (fun param dep =>
             match dep with
             | Some d => qualified param d
             | None => unresolved param = true
             end) params (fst r).
Proof.
  revert h s r. induction params as [|param rest IH]; intros h s r; simpl.
  - intros [= <- <-]. constructor.
  - intros H.
    apply bind_Ok in H as ([dep flag] & sa & Hdep & H).
    apply bind_Ok in H as (rs & sb & Hrs & H).
    injection H as <- <-. simpl. constructor; [|exact (IH _ _ _ Hrs)].
    destruct dep as [d|].
    + exact (resolveParam_qualified _ _ _ _ _ _ _ Hdep).
    + now destruct (resolveParam_Ok E _ _ _ _ _ _ Hdep) as [? _].
Qed.

Lemma present_qualified params deps :
  Forall2 (fun param dep =>
             match dep with
             | Some d => qualified param d
             | None => unresolved param = true
             end) params deps ->
  existsb unresolved params = false ->
  Forall2 qualified params (present deps).
Proof.
  unfold present. induction 1 as [|param dep params deps Hdep _ IH]; simpl.
  - constructor.
  - intros [Hres Hrest]%orb_false_elim. destruct dep as [d|]; simpl.
    + constructor; [exact Hdep|now apply IH].
    + congruence.
Qed.

Lemma getDependenciesMetadata_qualified typeOrFunc dependencies s l s' :
  getDependenciesMetadata E typeOrFunc dependencies s = (Ok l, s') ->
  Forall2 qualified (parametersOf E typeOrFunc dependencies) l.
Proof.
  intros Hrun.
  destruct (getDependenciesMetadata_Ok E _ _ _ _ _ Hrun) as [Hres _].
  rewrite getDependenciesMetadata_unfold in Hrun.
  apply bind_Ok in Hrun as (r & sa & Hr & Hrun).
  destruct (snd r); [discriminate|]. injection Hrun as <- <-.
  apply present_qualified; [exact (mapParams_qualified _ _ _ _ _ _ Hr)|exact Hres].
Qed.

Lemma getTypeMetadata_fields type moduleUrl dependencies s t s' :
  getTypeMetadata E type moduleUrl dependencies s = (Ok t, s') ->
  ct_runtime t = resolveForwardRef type /\ ct_moduleUrl t = moduleUrl /\
  Forall2 qualified (parametersOf E (resolveForwardRef type) dependencies)
    (ct_diDeps t).
Proof.
  unfold getTypeMetadata. intros H.
  apply bind_Ok in H as (name & sa & _ & H).
  apply bind_Ok in H as (deps & sb & Hdeps & H).
  injection H as <- <-. simpl. repeat split.
  exact (getDependenciesMetadata_qualified _ _ _ _ _ Hdeps).
Qed.

Lemma getFactoryMetadata_fields factory moduleUrl dependencies s f s' :
  getFactoryMetadata E factory moduleUrl dependencies s = (Ok f, s') ->
  cf_runtime f = resolveForwardRef factory /\ cf_moduleUrl f = moduleUrl /\
  Forall2 qualified (parametersOf E (resolveForwardRef factory) dependencies)
    (cf_diDeps f).
Proof.
  unfold getFactoryMetadata. intros H.
  apply bind_Ok in H as (name & sa & _ & H).
  apply bind_Ok in H as (deps & sb & Hdeps & H).
  injection H as <- <-. simpl. repeat split.
  exact (getDependenciesMetadata_qualified _ _ _ _ _ Hdeps).
Qed.

End Qualified.

(** X16. The dependencies [getDependenciesMetadata] returns.  The
    parameters are the explicit [dependencies] when they are given, else
    those of the reflector, and none when the reflector has none.  A
    result has one dependency for each parameter, in order, and each
    records what the scan of its parameter found: the five qualifiers,
    whether there is a query and a view query, and the token.  The token
    the scan found is not blank, and the dependency has it dereferenced
    once; the dereferenced token can be blank, for a forward reference to
    [null], and is not tested.  Without parameters the call returns the
    empty list and leaves the resolver as it was; and no call touches a
    cache. *)
Theorem getDependenciesMetadata_spec E (typeOrFunc : value)
    (dependencies : option (list value)) (s : Resolver) :
  let params :=
    match dependencies with
    | Some deps => deps
    | None => default [] (parameters E typeOrFunc)
    end in
  match getDependenciesMetadata E typeOrFunc dependencies s with
  | (Ok deps, s') =>
      Forall2 qualified params deps /\ sameCaches s s' /\ (params = [] -> s' = s)
  | (Throw _, s') => sameCaches s s' /\ params <> []
  end.
Proof.
  intros params.
  assert (Hparams : params = parametersOf E typeOrFunc dependencies).
  { subst params. unfold parametersOf. destruct dependencies; [reflexivity|].
    now destruct (parameters E typeOrFunc). }
  pose proof (steps_getDependenciesMetadata E sameCaches sameCaches_register
                typeOrFunc dependencies s) as Hsame.
  assert (Hnone : params = [] ->
    getDependenciesMetadata E typeOrFunc dependencies s = (Ok [], s)).
  { intros Hnil. rewrite getDependenciesMetadata_unfold, <- Hparams, Hnil.
    reflexivity. }
  destruct (getDependenciesMetadata E typeOrFunc dependencies s) as [[deps|e] s']
    eqn:Hrun; simpl in Hsame.
  - split; [|split; [exact Hsame|]].
    + rewrite Hparams. exact (getDependenciesMetadata_qualified E _ _ _ _ _ Hrun).
    + intros Hnil. specialize (Hnone Hnil). congruence.
  - split; [exact Hsame|]. intros Hnil. specialize (Hnone Hnil). congruence.
Qed.

(** * Providers *)

(** X17. The strategy of a compiled provider.  [useClass] takes precedence
    over [useFactory]: when it is present the result has a class, whose
    type is the dereferenced [useClass], no factory, and the dependencies
    of the class as [deps]; else, when [useFactory] is present, it has a
    factory, no class, and the dependencies of the factory; else it has
    neither, and no [deps].  The explicit [dependencies] of the provider
    replace the parameters the reflector knows.  The token and
    [useExisting] are compiled after dereferencing, [useExisting] exactly
    when it is present; [useValue] is converted and [multi] is copied. *)
Theorem getProviderMetadata_strategy E (provider : Provider) (s : Resolver)
    (m : CompileProviderMetadata) (s' : Resolver) :
  getProviderMetadata E provider s = (Ok m, s') ->
  tokenOf (cp_token m) = resolveForwardRef (p_token provider) /\
  cp_multi m = p_multi provider /\
  cp_useValue m = convertToCompileValue E (p_useValue provider) /\
  option_map tokenOf (cp_useExisting m) =
    (if isPresent (p_useExisting provider)
     then Some (resolveForwardRef (p_useExisting provider)) else None) /\
  if isPresent (p_useClass provider) then
    cp_useFactory m = None /\
    exists t,
      cp_useClass m = Some t /\ cp_deps m = Some (ct_diDeps t) /\
      ct_runtime t = resolveForwardRef (p_useClass provider) /\
      ct_moduleUrl t = staticTypeModuleUrl (p_useClass provider) /\
      Forall2 qualified
        (parametersOf E (resolveForwardRef (p_useClass provider))
           (p_dependencies provider)) (ct_diDeps t)
  else if isPresent (p_useFactory provider) then
    cp_useClass m = None /\
    exists f,
      cp_useFactory m = Some f /\ cp_deps m = Some (cf_diDeps f) /\
      cf_runtime f = resolveForwardRef (p_useFactory provider) /\
      cf_moduleUrl f = staticTypeModuleUrl (p_useFactory provider) /\
      Forall2 qualified
        (parametersOf E (resolveForwardRef (p_useFactory provider))
           (p_dependencies provider)) (cf_diDeps f)
  else cp_useClass m = None /\ cp_useFactory m = None /\ cp_deps m = None.
Proof.
  unfold getProviderMetadata. intros H.
  apply bind_Ok in H as (r & sa & Hr & H).
  apply bind_Ok in H as (t & sb & Ht & H).
  apply bind_Ok in H as (ex & sc & Hex & H).
  injection H as <- <-. simpl.
  split; [exact (returns_run _ _ _ _ _ (getTokenMetadata_returns E _) Ht)|].
  split; [reflexivity|]. split; [reflexivity|]. split.
  { destruct (isPresent (p_useExisting provider)).
    - apply bind_Ok in Hex as (e & ? & He & Hex). injection Hex as <- <-. simpl.
      now rewrite (returns_run _ _ _ _ _ (getTokenMetadata_returns E _) He).
    - now injection Hex as <- <-. }
  destruct (isPresent (p_useClass provider)).
  - apply bind_Ok in Hr as (ty & ? & Hty & Hr). injection Hr as <- <-. simpl.
    split; [reflexivity|]. exists ty.
    destruct (getTypeMetadata_fields E _ _ _ _ _ _ Hty) as (? & ? & ?).
    now repeat split.
  - destruct (isPresent (p_useFactory provider)).
    + apply bind_Ok in Hr as (f & ? & Hf & Hr). injection Hr as <- <-. simpl.
      split; [reflexivity|]. exists f.
      destruct (getFactoryMetadata_fields E _ _ _ _ _ _ Hf) as (? & ? & ?).
      now repeat split.
    + injection Hr as <- <-. now repeat split.
Qed.

Lemma mapM_Ok_each {A B} (f : A -> M B) (xs : list A) s r s' x :
  mapM f xs s = (Ok r, s') -> x ∈ xs -> exists s1 y s2, f x s1 = (Ok y, s2).
Proof.
  revert s r s'. induction xs as [|x0 xs IH]; intros s r s' Hrun Hin.
  - now apply elem_of_nil in Hin.
  - change (mapM f (x0 :: xs)) with
      (y <- f x0 ;; ys <- mapM f xs ;; ret (y :: ys)) in Hrun.
    apply bind_Ok in Hrun as (y & s1 & Hy & Hrun).
    apply bind_Ok in Hrun as (ys & s2 & Hys & _).
    apply elem_of_cons in Hin as [->|Hin]; [now exists s, y, s1|].
    exact (IH _ _ _ Hys Hin).
Qed.

(** X18. [getProvidersMetadata] never drops a provider it cannot read:
    when a leaf of the provider tree, at any depth, is neither a
    [Provider], nor a provider literal, nor a type, the call throws and
    returns no list. *)
Theorem getProvidersMetadata_invalid_leaf E (providers : list value)
    (leaf : value) (s : Resolver) :
  leaf ∈ flattenArray providers [] ->
  asProvider leaf = None ->
  isProviderLiteral E leaf = false ->
  isValidType leaf = false ->
  exists e s', getProvidersMetadata E providers s = (Throw e, s').
Proof.
  intros Hin Hprovider Hliteral Hvalid.
  destruct (getProvidersMetadata E providers s) as [[r|e] s'] eqn:Hrun;
    [exfalso|now exists e, s'].
  rewrite flattenArray_leaves in Hin. simpl in Hin.
  assert (Hmirrors : Forall (mirrors E) providers).
  { apply Forall_forall. intros p _. apply resolveProvider_mirrors. }
  destruct (mapM_mirrors E providers Hmirrors s r s' Hrun) as [_ Hleaves].
  destruct (mapM_Ok_each _ _ _ _ _ _ Hleaves Hin) as (s1 & y & s2 & Hleaf).
  unfold resolveLeaf in Hleaf. rewrite Hprovider, Hliteral, Hvalid in Hleaf.
  discriminate.
Qed.

(** * Modules that nest themselves *)

#[global] Instance keepsNone_preorder D : PreOrder (keepsNone D).
Proof.
  split; [now intros s|]. intros s1 s2 s3. unfold keepsNone. auto.
Qed.

Lemma keepsNone_same D s s' :
  _appModuleCache s' = _appModuleCache s -> keepsNone D s s'.
Proof. intros H Hnone d Hd. rewrite H. now apply Hnone. Qed.

Lemma forEachM_throws {A B} (Inv : Resolver -> Prop) (f : B -> A -> M B)
    (xs : list A) (x0 : A) :
  (forall acc x s, Inv s -> Inv (snd (f acc x s))) ->
  x0 ∈ xs ->
  (forall acc s, Inv s -> exists e s', f acc x0 s = (Throw e, s')) ->
  forall acc s, Inv s -> exists e s', forEachM f xs acc s = (Throw e, s').
Proof.
  intros Hkeep Hin Hthrows. induction xs as [|x xs IH]; intros acc s Hs.
  - now apply elem_of_nil in Hin.
  - change (forEachM f (x :: xs) acc) with
      (acc' <- f acc x ;; forEachM f xs acc').
    unfold bind. pose proof (Hkeep acc x s Hs) as Hnext.
    destruct (f acc x s) as [[acc'|e] s1] eqn:Hstep; [|now exists e, s1].
    apply elem_of_cons in Hin as [->|Hin].
    + destruct (Hthrows acc s Hs) as (e & s2 & He). congruence.
    + now apply IH.
Qed.

Section Cyclic.

Context (E : Collaborators) (D : value -> Prop).
Hypothesis D_cyclic : cyclic E D.

Lemma nested_keepsNone fuel meta lists :
  never E D fuel -> steps (keepsNone D) (nestedMetadata E fuel meta lists).
Proof.
  intros IH. unfold nestedMetadata.
  destruct (am_modules meta); [|apply steps_ret; apply _].
  apply steps_forEachM; [apply _|]. intros acc moduleType.
  apply steps_bind; [apply _| |intros ?; apply steps_ret; apply _].
  intros s Hs. now apply IH.
Qed.

Lemma compileModule_throws fuel key meta useCache s :
  never E D fuel -> noneCached D s -> D key ->
  findAppModule (annotations E key) = Some meta ->
  exists e s', compileModule E fuel key meta useCache s = (Throw e, s').
Proof.
  intros IH Hs Hkey Hmeta.
  destruct (D_cyclic key Hkey) as (meta' & leaf & Hmeta' & Hleaf & Hnested).
  assert (meta' = meta) as -> by congruence.
  unfold compileModule. unfold bind at 1.
  pose proof (steps_ownMetadata E (keepsNone D) meta
                (fun token s0 _ => keepsNone_same D s0 _ eq_refl) s Hs) as Hown.
  destruct (ownMetadata E meta s) as [[own|e] s1]; [|now exists e, s1].
  simpl in Hown. unfold bind at 1.
  assert (Hthrows : exists e s2, nestedMetadata E fuel meta own s1 = (Throw e, s2)).
  { unfold nestedMetadata, nestedTypes in *.
    destruct (am_modules meta) as [ms|]; [|now apply elem_of_nil in Hleaf].
    apply (forEachM_throws (noneCached D) _ _ leaf); [| | |exact Hown].
    - intros acc x s0 Hs0. unfold bind.
      pose proof (proj1 (IH x None s0 Hs0)) as Hnext.
      now destruct (getAppModuleMetadata E fuel x None s0) as [[?|?] ?].
    - exact Hleaf.
    - intros acc s0 Hs0.
      destruct (proj2 (IH leaf None s0 Hs0) eq_refl Hnested) as (e & s2 & He).
      exists e, s2. unfold bind. now rewrite He. }
  destruct Hthrows as (e & s2 & ->). now exists e, s2.
Qed.

Lemma compileModule_keepsNone fuel key meta useCache s :
  never E D fuel -> noneCached D s ->
  (useCache = true -> findAppModule (annotations E key) = Some meta) ->
  noneCached D (snd (compileModule E fuel key meta useCache s)).
Proof.
  intros IH Hs Hmeta.
  assert (Hout : outcome (keepsNone D) s (compileModule E fuel key meta useCache)
    (fun m s1 => exists s2, noneCached D s2 /\
       _appModuleCache s1 =
         if useCache then <[key := m]> (_appModuleCache s2)
         else _appModuleCache s2)).
  { unfold compileModule.
    apply outcome_bind_steps; [apply _| |intros own].
    { apply steps_ownMetadata; [apply _|].
      intros token s0 _. now apply keepsNone_same. }
    apply outcome_bind_steps; [apply _|now apply nested_keepsNone|intros lists].
    apply outcome_bind_steps; [apply _| |intros type].
    { apply steps_getTypeMetadata; [apply _|].
      intros token s0 _. now apply keepsNone_same. }
    intros s2 Hs2. specialize (Hs2 Hs).
    destruct useCache; simpl; now exists s2. }
  apply outcome_start in Hout; [|apply _].
  destruct (compileModule E fuel key meta useCache s) as [[m|e] s1] eqn:Hrun;
    simpl; [|now apply Hout].
  destruct Hout as (s2 & Hs2 & Hcache). intros d Hd. rewrite Hcache.
  destruct useCache; [|now apply Hs2].
  destruct (decide (key = d)) as [<-|Hne].
  - destruct (compileModule_throws fuel key meta true s IH Hs Hd (Hmeta eq_refl))
      as (e & s3 & He). congruence.
  - rewrite lookup_insert_ne by assumption. now apply Hs2.
Qed.

Lemma never_all fuel : never E D fuel.
Proof.
  induction fuel as [|fuel IH]; intros moduleType meta s Hs.
  - simpl. split; [exact Hs|]. intros _ _. now eexists _, _.
  - rewrite getAppModuleMetadata_unfold. cbv zeta.
    destruct (_appModuleCache s !! resolveForwardRef moduleType) as [cached|]
      eqn:Hkey, meta as [meta|].
    + split; [|discriminate]. now apply compileModule_keepsNone.
    + split; [exact Hs|]. intros _ Hd. rewrite (Hs _ Hd) in Hkey. discriminate.
    + split; [|discriminate]. now apply compileModule_keepsNone.
    + destruct (findAppModule (annotations E (resolveForwardRef moduleType)))
        as [meta|] eqn:Hmeta.
      * split; [now apply compileModule_keepsNone|].
        intros _ Hd. now apply compileModule_throws.
      * split; [exact Hs|]. intros _ _. now eexists _, _.
Qed.

Lemma perform_keepsNone c s : keepsNone D s (perform E c s).
Proof.
  destruct (writesModules c) eqn:Hc.
  - destruct c; try discriminate; simpl.
    + intros Hs d Hd. simpl. destruct (decide (type = d)) as [<-|Hne];
        [apply lookup_delete_eq|rewrite lookup_delete_ne by assumption; now apply Hs].
    + intros Hs d Hd. simpl. apply lookup_empty.
    + intros Hs. now apply never_all.
  - apply (perform_without_modules E (keepsNone D)); try assumption.
    + intros token s0 _. now apply keepsNone_same.
    + intros s0. now apply keepsNone_same.
    + intros s0 s1 k v H _ Hs0 d Hd. simpl. now apply H.
    + intros s0 s1 k v H _ Hs0 d Hd. simpl. now apply H.
Qed.

Lemma performAll_keepsNone cs s : keepsNone D s (performAll E cs s).
Proof.
  revert s. induction cs as [|c cs IH]; intros s; simpl; [reflexivity|].
  etransitivity; [apply perform_keepsNone|apply IH].
Qed.

End Cyclic.

(** X19. Modules that nest themselves cannot be compiled.  Take a set of
    module types each of which nests a type of the set, directly, in a
    nested array or behind a forward reference.  Whatever calls a resolver
    has served, none of them is cached; and when none of them is cached,
    [getAppModuleMetadata] without annotation returns for none of them,
    however deep the nested calls may go: it throws, and afterwards still
    none of them is cached. *)
Theorem cyclic_modules_never_compile E (D : value -> Prop) :
  cyclic E D ->
  (forall calls d, D d ->
     _appModuleCache (performAll E calls newResolver) !! d = None) /\
  (forall fuel moduleType s,
     D (resolveForwardRef moduleType) ->
     (forall d, D d -> _appModuleCache s !! d = None) ->
     exists e s',
       getAppModuleMetadata E fuel moduleType None s = (Throw e, s') /\
       (forall d, D d -> _appModuleCache s' !! d = None)).
Proof.
  intros Hcyclic. split.
  - intros calls. apply (performAll_keepsNone E D Hcyclic calls newResolver).
    intros d _. apply lookup_empty.
  - intros fuel moduleType s Hd Hs.
    destruct (never_all E D Hcyclic fuel moduleType None s Hs) as [Hkeep Hthrows].
    destruct (Hthrows eq_refl Hd) as (e & s' & Hrun).
    exists e, s'. split; [exact Hrun|]. now rewrite Hrun in Hkeep.
Qed.

(** * The metadata of a directive and of a type *)

Lemma mapM_Forall2 {A B} (f : A -> M B) (P : A -> B -> Prop) (xs : list A) :
  (forall x s a s1, f x s = (Ok a, s1) -> P x a) ->
  forall s r s', mapM f xs s = (Ok r, s') -> Forall2 P xs r.
Proof.
  intros Hres. induction xs as [|x xs IH]; intros s r s' Hrun.
  - injection Hrun as <- <-. constructor.
  - change (mapM f (x :: xs)) with
      (y <- f x ;; ys <- mapM f xs ;; ret (y :: ys)) in Hrun.
    apply bind_Ok in Hrun as (y & s1 & Hy & Hrun).
    apply bind_Ok in Hrun as (ys & s2 & Hys & Hrun).
    injection Hrun as <- <-. constructor; [exact (Hres _ _ _ _ Hy)|].
    exact (IH _ _ _ Hys).
Qed.

Section Fields.

Context (E : Collaborators).

Lemma verified_providers_shape directiveType ps providersType s r s' :
  (tree <- call (verifyNonBlankProviders E directiveType ps providersType) ;;
   getProvidersMetadata E tree) s = (Ok r, s') ->
  List.map shapeOfEntry r = List.map shapeOfValue ps /\
  Forall (fun p => isBlank p = false) (flattenArray ps []).
Proof.
  intros H. apply bind_Ok in H as (tree & sa & Htree & H).
  unfold call in Htree. injection Htree as Htree <-.
  apply verifyNonBlankProviders_Ok in Htree as [-> Hall].
  split; [|exact Hall].
  assert (Hmirrors : Forall (mirrors E) ps).
  { apply Forall_forall. intros p _. apply resolveProvider_mirrors. }
  now destruct (mapM_mirrors E ps Hmirrors s r s' H) as [Hshape _].
Qed.

Lemma precompile_runtime (types : list value) s r s' :
  mapM (fun cmp => getTypeMetadata E cmp (staticTypeModuleUrl cmp) None) types s
    = (Ok r, s') ->
  List.map ct_runtime r = List.map resolveForwardRef types.
Proof.
  intros H.
  apply (mapM_Forall2 _ (fun cmp t => ct_runtime t = resolveForwardRef cmp)) in H.
  - induction H as [|x t xs ts Ht _ IH]; simpl; [reflexivity|].
    now rewrite Ht, IH.
  - intros x s0 t s1. apply getTypeMetadata_runtime.
Qed.

Lemma componentPart_fields directiveType cmp s t cds vp url pc s' :
  componentPart E directiveType cmp s = (Ok (t, cds, vp, url, pc), s') ->
  (exists view,
     _viewResolver E directiveType = Ok view /\
     option_map tm_template t = Some (vm_template view) /\
     option_map tm_styles t = Some (vm_styles view)) /\
  cds = cm_changeDetection cmp /\
  url = componentModuleUrl E directiveType cmp /\
  List.map shapeOfEntry vp =
    List.map shapeOfValue (default [] (cm_viewProviders cmp)) /\
  List.map ct_runtime pc =
    List.map resolveForwardRef (flattenArray (default [] (cm_precompile cmp)) []).
Proof.
  unfold componentPart. intros H.
  apply bind_Ok in H as (view & sa & Hview & H).
  unfold call in Hview. injection Hview as Hview <-.
  apply bind_Ok in H as (? & sb & Hb & H). injection Hb as _ <-.
  apply bind_Ok in H as (? & sc & Hc & H). injection Hc as _ <-.
  apply bind_Ok in H as (? & sd & Hd & H). injection Hd as _ <-.
  apply bind_Ok in H as (? & se & He & H). injection He as _ <-.
  apply bind_Ok in H as (vp' & sf & Hvp & H).
  apply bind_Ok in H as (pc' & sg & Hpc & H).
  injection H as <- <- <- <- <- <-.
  split; [exists view; now repeat split|].
  split; [reflexivity|]. split; [reflexivity|]. split.
  - destruct (cm_viewProviders cmp) as [ps|]; simpl.
    + now destruct (verified_providers_shape _ _ _ _ _ _ Hvp).
    + now injection Hvp as <- <-.
  - destruct (cm_precompile cmp) as [types|]; simpl.
    + exact (precompile_runtime _ _ _ _ Hpc).
    + now injection Hpc as <- <-.
Qed.

Lemma getTypeMetadata_no_parameters type moduleUrl dependencies s :
  parametersOf E (resolveForwardRef type) dependencies = [] ->
  exists t s', getTypeMetadata E type moduleUrl dependencies s = (Ok t, s').
Proof.
  intros Hnil. unfold getTypeMetadata.
  destruct (sanitizeTokenName_returns E (resolveForwardRef type) s)
    as (name & s1 & Hname & _).
  unfold bind at 1. rewrite Hname. unfold bind at 1.
  rewrite getDependenciesMetadata_unfold, Hnil. now eexists _, _.
Qed.

End Fields.

(** X21. What [getDirectiveMetadata] computes for a type that is not
    cached.  The selector, [exportAs], inputs, outputs and host are those
    of the annotation the directive resolver gives, the lifecycle hooks
    those the type has, in the order of [LIFECYCLE_HOOKS_VALUES].  The
    result is a component exactly when the annotation is one: then its
    template is read from the view resolver, its module URL is the one of
    [componentModuleUrl], and its view providers and precompiled types
    follow the annotation; else it has no template, no view providers, no
    precompiled types and the module URL of a static symbol only.  The
    providers have the nesting of those of the annotation; the content
    queries and the view queries of the annotation are told apart by their
    view flag and keep the order of the annotation. *)
Theorem getDirectiveMetadata_fields E (directiveType : value) (s : Resolver)
    (m : CompileDirectiveMetadata) (s' : Resolver) :
  let type := resolveForwardRef directiveType in
  _directiveCache s !! type = None ->
  getDirectiveMetadata E directiveType s = (Ok m, s') ->
  exists dirMeta,
    _directiveResolver E type = Ok dirMeta /\
    cd_selector m = dm_selector dirMeta /\
    cd_exportAs m = dm_exportAs dirMeta /\
    cd_inputs m = dm_inputs dirMeta /\
    cd_outputs m = dm_outputs dirMeta /\
    cd_host m = dm_host dirMeta /\
    cd_lifecycleHooks m =
      List.filter (fun hook => hasLifecycleHook E hook type)
        (LIFECYCLE_HOOKS_VALUES E) /\
    cd_isComponent m = bool_decide (is_Some (dm_component dirMeta)) /\
    match dm_component dirMeta with
    | None =>
        cd_template m = None /\ cd_changeDetection m = VNull /\
        cd_viewProviders m = [] /\ cd_precompile m = [] /\
        ct_moduleUrl (cd_type m) = staticTypeModuleUrl type
    | Some cmp =>
        (exists view,
           _viewResolver E type = Ok view /\
           option_map tm_template (cd_template m) = Some (vm_template view) /\
           option_map tm_styles (cd_template m) = Some (vm_styles view)) /\
        cd_changeDetection m = cm_changeDetection cmp /\
        ct_moduleUrl (cd_type m) = componentModuleUrl E type cmp /\
        List.map shapeOfEntry (cd_viewProviders m) =
          List.map shapeOfValue (default [] (cm_viewProviders cmp)) /\
        List.map ct_runtime (cd_precompile m) =
          List.map resolveForwardRef
            (flattenArray (default [] (cm_precompile cmp)) [])
    end /\
    List.map shapeOfEntry (cd_providers m) =
      List.map shapeOfValue (default [] (dm_providers dirMeta)) /\
    List.map cq_propertyName (cd_queries m) =
      List.map (fun entry => Some (fst entry))
        (selectedQueries (default [] (dm_queries dirMeta)) false) /\
    List.map cq_propertyName (cd_viewQueries m) =
      List.map (fun entry => Some (fst entry))
        (selectedQueries (default [] (dm_queries dirMeta)) true).
Proof.
  intros type Hmiss Hrun. subst type.
  unfold getDirectiveMetadata in Hrun. rewrite bind_gets, Hmiss in Hrun.
  apply bind_Ok in Hrun as (dirMeta & sa & Hdm & Hrun).
  unfold call in Hdm. injection Hdm as Hdm <-.
  apply bind_Ok in Hrun as ([[[[t cds] vp] url] pc] & sb & Hc & Hrun).
  apply bind_Ok in Hrun as (providers & sc & Hproviders & Hrun).
  apply bind_Ok in Hrun as (qs & sd & Hqs & Hrun).
  apply bind_Ok in Hrun as (ty & se & Hty & Hrun).
  apply bind_Ok in Hrun as (objectId & sf & _ & Hrun).
  rewrite bind_modify in Hrun. injection Hrun as <- <-. simpl.
  destruct (getTypeMetadata_fields E _ _ _ _ _ _ Hty) as (_ & Hurl & _).
  exists dirMeta. split; [exact Hdm|]. do 6 (split; [reflexivity|]).
  split; [|split; [|split; [|split]]].
  - destruct (dm_component dirMeta) as [cmp|].
    + destruct (componentPart_fields E _ _ _ _ _ _ _ _ _ Hc) as ([view (_ & Ht & _)] & _).
      destruct t; [|discriminate]. apply bool_decide_ext. split; eauto.
    + injection Hc as <- <- <- <- <- <-. apply bool_decide_ext.
      split; intros [? [=]].
  - destruct (dm_component dirMeta) as [cmp|].
    + destruct (componentPart_fields E _ _ _ _ _ _ _ _ _ Hc)
        as (Hview & -> & -> & Hvp & Hpc).
      now repeat split.
    + injection Hc as <- <- <- <- <- <-. now repeat split.
  - destruct (dm_providers dirMeta) as [ps|]; simpl.
    + now destruct (verified_providers_shape E _ _ _ _ _ _ Hproviders).
    + now injection Hproviders as <- <-.
  - destruct (dm_queries dirMeta) as [qm|]; simpl.
    + apply bind_Ok in Hqs as (queries & ? & Hq & Hqs).
      apply bind_Ok in Hqs as (viewQueries & ? & Hvq & Hqs).
      injection Hqs as <- <-. simpl.
      exact (getQueriesMetadata_names E _ _ _ _ _ _ Hq).
    + now injection Hqs as <- <-.
  - destruct (dm_queries dirMeta) as [qm|]; simpl.
    + apply bind_Ok in Hqs as (queries & ? & Hq & Hqs).
      apply bind_Ok in Hqs as (viewQueries & ? & Hvq & Hqs).
      injection Hqs as <- <-. simpl.
      exact (getQueriesMetadata_names E _ _ _ _ _ _ Hvq).
    + now injection Hqs as <- <-.
Qed.

(** X22. [getTypeMetadata] and [getFactoryMetadata] record the
    dereferenced type or factory, the module URL they are given, the name
    [sanitizeTokenName] gives to the dereferenced value, and one
    dependency for each parameter, as scanned.  They throw only for a
    type that has parameters, and touch no cache. *)
Theorem getTypeMetadata_spec E (type : value) (moduleUrl : option string)
    (dependencies : option (list value)) (s : Resolver) :
  let target := resolveForwardRef type in
  match getTypeMetadata E type moduleUrl dependencies s with
  | (Ok t, s') =>
      ct_runtime t = target /\ ct_moduleUrl t = moduleUrl /\
      Ok (ct_name t) = fst (sanitizeTokenName E target s) /\
      Forall2 qualified (parametersOf E target dependencies) (ct_diDeps t) /\
      sameCaches s s'
  | (Throw _, s') => sameCaches s s' /\ parametersOf E target dependencies <> []
  end /\
  match getFactoryMetadata E type moduleUrl dependencies s with
  | (Ok f, s') =>
      cf_runtime f = target /\ cf_moduleUrl f = moduleUrl /\
      Ok (cf_name f) = fst (sanitizeTokenName E target s) /\
      Forall2 qualified (parametersOf E target dependencies) (cf_diDeps f) /\
      sameCaches s s'
  | (Throw _, s') => sameCaches s s' /\ parametersOf E target dependencies <> []
  end.
Proof.
  intros target.
  pose proof (steps_getTypeMetadata E sameCaches sameCaches_register type
                moduleUrl dependencies s) as Htype.
  pose proof (steps_getFactoryMetadata E sameCaches sameCaches_register type
                moduleUrl dependencies s) as Hfactory.
  assert (Hnone : forall s1, parametersOf E target dependencies = [] ->
    getDependenciesMetadata E target dependencies s1 = (Ok [], s1)).
  { intros s1 Hnil. now rewrite getDependenciesMetadata_unfold, Hnil. }
  destruct (sanitizeTokenName_returns E target s) as (name & s1 & Hname & _).
  split.
  - destruct (getTypeMetadata E type moduleUrl dependencies s) as [[t|e] s']
      eqn:Hrun; simpl in Htype.
    + destruct (getTypeMetadata_fields E _ _ _ _ _ _ Hrun) as (? & ? & ?).
      split; [assumption|split; [assumption|split; [|split; [assumption|exact Htype]]]].
      unfold getTypeMetadata in Hrun. fold target in Hrun.
      apply bind_Ok in Hrun as (name' & ? & Hname' & Hrun).
      apply bind_Ok in Hrun as (? & ? & _ & Hrun).
      injection Hrun as <- <-. simpl. now rewrite Hname'.
    + split; [exact Htype|]. intros Hnil.
      unfold getTypeMetadata in Hrun. fold target in Hrun.
      unfold bind at 1 in Hrun. rewrite Hname in Hrun.
      unfold bind at 1 in Hrun. rewrite (Hnone _ Hnil) in Hrun. discriminate.
  - destruct (getFactoryMetadata E type moduleUrl dependencies s) as [[f|e] s']
      eqn:Hrun; simpl in Hfactory.
    + destruct (getFactoryMetadata_fields E _ _ _ _ _ _ Hrun) as (? & ? & ?).
      split; [assumption|split; [assumption|split; [|split; [assumption|exact Hfactory]]]].
      unfold getFactoryMetadata in Hrun. fold target in Hrun.
      apply bind_Ok in Hrun as (name' & ? & Hname' & Hrun).
      apply bind_Ok in Hrun as (? & ? & _ & Hrun).
      injection Hrun as <- <-. simpl. now rewrite Hname'.
    + split; [exact Hfactory|]. intros Hnil.
      unfold getFactoryMetadata in Hrun. fold target in Hrun.
      unfold bind at 1 in Hrun. rewrite Hname in Hrun.
      unfold bind at 1 in Hrun. rewrite (Hnone _ Hnil) in Hrun. discriminate.
Qed.

(** X23. What [getPipeMetadata] computes for a type that is not cached.
    An exception of the pipe resolver is passed on and the resolver is
    left as it was.  Else a result has the name and the purity of the
    annotation, the lifecycle hooks of the type, the dereferenced type and
    the module URL of a static symbol only, and it is stored under the
    type; and the call throws only for a type with constructor
    parameters, without touching a cache. *)
Theorem getPipeMetadata_fields E (pipeType : value) (s : Resolver) :
  let type := resolveForwardRef pipeType in
  _pipeCache s !! type = None ->
  match _pipeResolver E type with
  | Throw e => getPipeMetadata E pipeType s = (Throw e, s)
  | Ok pipeMeta =>
      match getPipeMetadata E pipeType s with
      | (Ok m, s') =>
          cpm_name m = pm_name pipeMeta /\ cpm_pure m = pm_pure pipeMeta /\
          cpm_lifecycleHooks m =
            List.filter (fun hook => hasLifecycleHook E hook type)
              (LIFECYCLE_HOOKS_VALUES E) /\
          ct_runtime (cpm_type m) = resolveForwardRef type /\
          ct_moduleUrl (cpm_type m) = staticTypeModuleUrl type /\
          _pipeCache s' = <[type := m]> (_pipeCache s)
      | (Throw _, s') =>
          sameCaches s s' /\ parametersOf E (resolveForwardRef type) None <> []
      end
  end.
Proof.
  intros type Hmiss.
  pose proof (getPipeMetadata_effect E pipeType s) as Heffect.
  cbv zeta in Heffect. fold type in Heffect.
  destruct (_pipeResolver E type) as [pipeMeta|e0] eqn:Hres.
  - destruct (getPipeMetadata E pipeType s) as [[m|e] s'] eqn:Hrun.
    + destruct Heffect as [[Hhit _]|(_ & Hstored & _)]; [congruence|].
      unfold getPipeMetadata in Hrun. fold type in Hrun.
      rewrite bind_gets, Hmiss in Hrun.
      apply bind_Ok in Hrun as (pm & sa & Hpm & Hrun).
      unfold call in Hpm. rewrite Hres in Hpm. injection Hpm as <- <-.
      apply bind_Ok in Hrun as (ty & sb & Hty & Hrun).
      apply bind_Ok in Hrun as (objectId & sc & _ & Hrun).
      rewrite bind_modify in Hrun. injection Hrun as Hm Hs'.
      destruct (getTypeMetadata_fields E _ _ _ _ _ _ Hty) as (? & ? & _).
      rewrite <- Hm. simpl. rewrite Hm. now repeat split.
    + split; [apply Heffect|]. intros Hnil.
      destruct (getTypeMetadata_no_parameters E type (staticTypeModuleUrl type)
                  None s Hnil) as (t & s1 & Hok).
      unfold getPipeMetadata in Hrun. fold type in Hrun.
      rewrite bind_gets, Hmiss in Hrun.
      unfold bind at 1 in Hrun. unfold call at 1 in Hrun. rewrite Hres in Hrun.
      unfold bind at 1 in Hrun. rewrite Hok in Hrun. discriminate.
  - unfold getPipeMetadata. fold type. rewrite bind_gets, Hmiss.
    unfold bind at 1. unfold call at 1. now rewrite Hres.
Qed.

(** X24. [clearCacheFor] is selective.  On a resolver that has served any
    calls, after [clearCacheFor(type)] every directive, pipe and module
    cached under another key is still returned as the same object, with
    the resolver left as it is; and for a [type] that is no forward
    reference the next resolution of [type] creates a new object, whose
    identity is larger than the one of the object evicted, and stores
    it. *)
Theorem clearCacheFor_selective E (calls : list Call) (type : value) :
  let s1 := performAll E calls newResolver in
  let s2 := snd (clearCacheFor type s1) in
  (forall other m,
     resolveForwardRef other <> type ->
     _directiveCache s1 !! resolveForwardRef other = Some m ->
     getDirectiveMetadata E other s2 = (Ok m, s2)) /\
  (forall other m,
     resolveForwardRef other <> type ->
     _pipeCache s1 !! resolveForwardRef other = Some m ->
     getPipeMetadata E other s2 = (Ok m, s2)) /\
  (forall other m fuel,
     resolveForwardRef other <> type ->
     _appModuleCache s1 !! resolveForwardRef other = Some m ->
     getAppModuleMetadata E (S fuel) other None s2 = (Ok m, s2)) /\
  (resolveForwardRef type = type ->
   (forall m m' s3,
      _directiveCache s1 !! type = Some m ->
      getDirectiveMetadata E type s2 = (Ok m', s3) ->
      cd_objectId m < cd_objectId m' /\ _directiveCache s3 !! type = Some m') /\
   (forall m m' s3,
      _pipeCache s1 !! type = Some m ->
      getPipeMetadata E type s2 = (Ok m', s3) ->
      cpm_objectId m < cpm_objectId m' /\ _pipeCache s3 !! type = Some m') /\
   (forall m m' fuel s3,
      _appModuleCache s1 !! type = Some m ->
      getAppModuleMetadata E fuel type None s2 = (Ok m', s3) ->
      cam_objectId m < cam_objectId m' /\ _appModuleCache s3 !! type = Some m')).
Proof.
  intros s1 s2.
  pose proof (cachesWf_reachable E calls) as (_ & Hdir & Hpipe & Hmod).
  fold s1 in Hdir, Hpipe, Hmod.
  assert (Hlookup := fun k => clearCacheFor_lookup type k s1). cbv zeta in Hlookup.
  fold s2 in Hlookup.
  assert (Hallocated : allocated s2 = allocated s1) by reflexivity.
  split; [|split; [|split]].
  - intros other m Hne Hm. destruct (Hlookup (resolveForwardRef other))
      as (Hd & _). rewrite decide_False in Hd by congruence.
    apply getDirectiveMetadata_hit. now rewrite Hd.
  - intros other m Hne Hm. destruct (Hlookup (resolveForwardRef other))
      as (_ & Hp & _). rewrite decide_False in Hp by congruence.
    apply getPipeMetadata_hit. now rewrite Hp.
  - intros other m fuel Hne Hm. destruct (Hlookup (resolveForwardRef other))
      as (_ & _ & Hmo & _). rewrite decide_False in Hmo by congruence.
    apply getAppModuleMetadata_hit. now rewrite Hmo.
  - intros Hplain. destruct (Hlookup type) as (Hd & Hp & Hmo & _).
    rewrite decide_True in Hd by reflexivity.
    rewrite decide_True in Hp by reflexivity.
    rewrite decide_True in Hmo by reflexivity.
    split; [|split].
    + intros m m' s3 Hm Hrun. destruct (Hdir _ _ Hm) as [? _].
      pose proof (getDirectiveMetadata_stored E _ _ _ _ Hrun) as Hstored.
      rewrite Hplain in Hstored. split; [|exact Hstored].
      pose proof (getDirectiveMetadata_effect E type s2) as Heffect.
      cbv zeta in Heffect. rewrite Hrun, Hplain in Heffect.
      destruct Heffect as [[Hhit _]|(_ & _ & _ & _ & _ & Hid & _)];
        [congruence|lia].
    + intros m m' s3 Hm Hrun. destruct (Hpipe _ _ Hm) as [? _].
      pose proof (getPipeMetadata_stored E _ _ _ _ Hrun) as Hstored.
      rewrite Hplain in Hstored. split; [|exact Hstored].
      pose proof (getPipeMetadata_effect E type s2) as Heffect.
      cbv zeta in Heffect. rewrite Hrun, Hplain in Heffect.
      destruct Heffect as [[Hhit _]|(_ & _ & _ & _ & _ & Hid & _)];
        [congruence|lia].
    + intros m m' fuel s3 Hm Hrun. destruct (Hmod _ _ Hm) as [? _].
      pose proof (getAppModuleMetadata_stored E _ _ _ _ _ Hrun) as Hstored.
      rewrite Hplain in Hstored. split; [|exact Hstored].
      assert (Hmiss : _appModuleCache s2 !! resolveForwardRef type = None)
        by now rewrite Hplain.
      pose proof (getAppModuleMetadata_miss E _ _ _ _ _ _ Hmiss Hrun). lia.
Qed.

(** * The properties on the sample programs *)

(** X3 on the directive [Broken] of the second sample program, whose
    second provider is an array with a forward reference to [null]. *)
Lemma getDirectiveMetadata_undefined_provider_witness :
  _directiveCache newResolver !! Gallery.Broken = None /\
  Exists (fun p => isBlank p = true)
    (flattenArray [Sample.ServiceA; VArray [VForwardRef VNull]] []) /\
  exists e s',
    getDirectiveMetadata Gallery.program Gallery.Broken newResolver = (Throw e, s') /\
    sameCaches newResolver s' /\ s' = newResolver.
Proof.
  assert (Hblank : Exists (fun p => isBlank p = true)
    (flattenArray [Sample.ServiceA; VArray [VForwardRef VNull]] [])).
  { apply Exists_cons_tl, Exists_cons_hd. reflexivity. }
  split; [reflexivity|]. split; [exact Hblank|].
  destruct (getDirectiveMetadata_undefined_provider Gallery.program Gallery.Broken
              (mkDirectiveMetadata (VString "[broken]") VNull VNull VNull VNull
                 (Some [Sample.ServiceA; VArray [VForwardRef VNull]]) None None)
              [Sample.ServiceA; VArray [VForwardRef VNull]] newResolver
              eq_refl eq_refl eq_refl Hblank) as (e & s' & Hrun & Hsame & Hstate).
  exists e, s'. split; [exact Hrun|]. split; [exact Hsame|]. exact (Hstate eq_refl).
Defined.

(** X6 on the pipe of the sample program, given through a forward
    reference, with other calls in between. *)
Lemma getPipeMetadata_cached_witness :
  let between :=
    [GetDirectiveMetadata Sample.Dir; GetTokenMetadata Sample.Closure1] in
  exists m s1,
    getPipeMetadata Sample.program (VForwardRef Sample.Pipe) newResolver =
      (Ok m, s1) /\
    forallb (fun c => negb (invalidates c)) between = true /\
    let s2 := performAll Sample.program between s1 in
    getPipeMetadata Sample.program Sample.Pipe s2 = (Ok m, s2) /\
    _pipeCache s2 !! Sample.Pipe = Some m.
Proof.
  intros between.
  destruct (getPipeMetadata Sample.program (VForwardRef Sample.Pipe) newResolver)
    as [[m|e] s1] eqn:Hrun; [|vm_compute in Hrun; discriminate].
  exists m, s1. split; [reflexivity|]. split; [reflexivity|].
  exact (getPipeMetadata_cached Sample.program Sample.program
           (VForwardRef Sample.Pipe) newResolver m s1 between Sample.Pipe
           Hrun eq_refl eq_refl).
Defined.

(** X7 on the module [A] of the sample program, which nests [B] and [C]. *)
Lemma getAppModuleMetadata_cached_witness :
  let between := [GetPipeMetadata Sample.Pipe; GetTokenMetadata Sample.Closure1] in
  exists m s1,
    getAppModuleMetadata Sample.program 3 Sample.A None newResolver = (Ok m, s1) /\
    forallb (fun c => negb (invalidates c)) between = true /\
    let s2 := performAll Sample.program between s1 in
    getAppModuleMetadata Sample.program 1 (VForwardRef Sample.A) None s2 =
      (Ok m, s2) /\
    _appModuleCache s2 !! Sample.A = Some m.
Proof.
  intros between.
  destruct (getAppModuleMetadata Sample.program 3 Sample.A None newResolver)
    as [[m|e] s1] eqn:Hrun; [|vm_compute in Hrun; discriminate].
  exists m, s1. split; [reflexivity|]. split; [reflexivity|].
  exact (getAppModuleMetadata_cached Sample.program Sample.program 3 0
           Sample.A newResolver m s1 between (VForwardRef Sample.A)
           Hrun eq_refl eq_refl).
Defined.

(** X17 on a provider with both a class and a factory: the class wins. *)
Lemma getProviderMetadata_strategy_witness :
  let provider :=
    mkProvider (VString "TOKEN") (VForwardRef Sample.ServiceA) VNull
      Sample.ServiceB VNull None true in
  exists m s',
    getProviderMetadata Sample.program provider newResolver = (Ok m, s') /\
    cp_multi m = true /\ cp_useFactory m = None /\
    exists t, cp_useClass m = Some t /\ cp_deps m = Some (ct_diDeps t) /\
              ct_runtime t = Sample.ServiceA.
Proof.
  intros provider.
  destruct (getProviderMetadata Sample.program provider newResolver)
    as [[m|e] s'] eqn:Hrun; [|vm_compute in Hrun; discriminate].
  exists m, s'. split; [reflexivity|].
  destruct (getProviderMetadata_strategy Sample.program provider newResolver m s'
              Hrun) as (_ & Hmulti & _ & _ & Hfactory & t & Hclass & Hdeps & Hrt & _).
  split; [exact Hmulti|]. split; [exact Hfactory|]. now exists t.
Defined.

(** X18 on a provider list with a string at depth two. *)
Lemma getProvidersMetadata_invalid_leaf_witness :
  let providers := [Sample.ServiceA; VArray [VForwardRef (VString "oops")]] in
  VString "oops" ∈ flattenArray providers [] /\
  exists e s',
    getProvidersMetadata Sample.program providers newResolver = (Throw e, s').
Proof.
  intros providers.
  assert (Hin : VString "oops" ∈ flattenArray providers []).
  { apply list_elem_of_In. right. now left. }
  split; [exact Hin|].
  exact (getProvidersMetadata_invalid_leaf Sample.program providers
           (VString "oops") newResolver Hin eq_refl eq_refl eq_refl).
Defined.

(** X19 on the modules [Ping] and [Pong] of the second sample program,
    which nest each other, [Pong] through a forward reference. *)
Lemma cyclic_modules_never_compile_witness :
  let D := fun d => d = Gallery.Ping \/ d = Gallery.Pong in
  let s := performAll Gallery.program [GetDirectiveMetadata Gallery.Tab]
             newResolver in
  cyclic Gallery.program D /\
  exists e s',
    getAppModuleMetadata Gallery.program 9 (VForwardRef Gallery.Ping) None s =
      (Throw e, s') /\
    _appModuleCache s' !! Gallery.Ping = None /\
    _appModuleCache s' !! Gallery.Pong = None.
Proof.
  intros D s.
  assert (Hcyclic : cyclic Gallery.program D).
  { intros d [Hd | Hd]; rewrite Hd.
    - exists Gallery.modulePing, Gallery.Pong. split; [reflexivity|].
      split; [apply list_elem_of_In; now left|now right].
    - exists Gallery.modulePong, Gallery.Ping. split; [reflexivity|].
      split; [apply list_elem_of_In; now left|now left]. }
  split; [exact Hcyclic|].
  destruct (cyclic_modules_never_compile Gallery.program D Hcyclic)
    as [Hreach Hthrows].
  destruct (Hthrows 9 (VForwardRef Gallery.Ping) s (or_introl eq_refl)
              (Hreach [GetDirectiveMetadata Gallery.Tab]))
    as (e & s' & Hrun & Hnone).
  exists e, s'. split; [exact Hrun|].
  split; apply Hnone; [now left|now right].
Defined.

(** X21 on the directive and on the component of the sample program. *)
Lemma getDirectiveMetadata_fields_witness :
  _directiveCache newResolver !! Sample.Dir = None /\
  exists m s',
    getDirectiveMetadata Sample.program (VForwardRef Sample.Dir) newResolver =
      (Ok m, s') /\
    cd_selector m = VString "[dir]" /\ cd_lifecycleHooks m = [OnInit] /\
    cd_isComponent m = false /\ cd_template m = None /\
    List.map shapeOfEntry (cd_providers m) = [Nested [Leaf]].
Proof.
  split; [reflexivity|].
  destruct (getDirectiveMetadata Sample.program (VForwardRef Sample.Dir) newResolver)
    as [[m|e] s'] eqn:Hrun; [|vm_compute in Hrun; discriminate].
  exists m, s'. split; [reflexivity|].
  destruct (getDirectiveMetadata_fields Sample.program (VForwardRef Sample.Dir)
              newResolver m s' eq_refl Hrun)
    as (dirMeta & Hdm & Hsel & _ & _ & _ & _ & Hhooks & Hcmp & Hnone & Hprov & _).
  injection Hdm as <-.
  split; [exact Hsel|]. split; [exact Hhooks|]. split; [exact Hcmp|].
  split; [exact (proj1 Hnone)|exact Hprov].
Defined.

(** X23 on the pipe of the sample program. *)
Lemma getPipeMetadata_fields_witness :
  _pipeCache newResolver !! Sample.Pipe = None /\
  exists m s',
    getPipeMetadata Sample.program (VForwardRef Sample.Pipe) newResolver =
      (Ok m, s') /\
    cpm_name m = VString "sample" /\
    _pipeCache s' = <[Sample.Pipe := m]> (_pipeCache newResolver).
Proof.
  split; [reflexivity|].
  pose proof (getPipeMetadata_fields Sample.program (VForwardRef Sample.Pipe)
                newResolver eq_refl) as Hfields.
  cbv zeta in Hfields.
  change (_pipeResolver Sample.program (resolveForwardRef (VForwardRef Sample.Pipe)))
    with (Ok (mkPipeMetadata (VString "sample") VNull) : Result PipeMetadata)
    in Hfields.
  cbv iota in Hfields.
  destruct (getPipeMetadata Sample.program (VForwardRef Sample.Pipe) newResolver)
    as [[m|e] s'] eqn:Hrun; [|vm_compute in Hrun; discriminate].
  exists m, s'. split; [reflexivity|].
  destruct Hfields as (Hname & _ & _ & _ & _ & Hstored). now split.
Defined.

(** * The flattening of modules *)

Lemma mapM_cons {A B} (f : A -> M B) x xs s :
  mapM f (x :: xs) s = (y <- f x ;; ys <- mapM f xs ;; ret (y :: ys)) s.
Proof. reflexivity. Qed.

Section Flattening.

Context (E : Collaborators).

(** The own declarations of a module are those its annotation gives. *)
Lemma ownMetadata_declares meta s own s' :
  ownMetadata E meta s = (Ok own, s') -> declares E meta s own s'.
Proof.
  unfold ownMetadata, declares. intros H.
  apply bind_Ok in H as (providers & sa & Hp & H).
  apply bind_Ok in H as (directives & sb & Hd & H).
  apply bind_Ok in H as (pipes & sc & Hpi & H).
  apply bind_Ok in H as (precompile & sd & Hpr & H).
  injection H as <- <-. simpl. exists sa, sb, sc.
  assert (Htypes : forall types s0 r s1,
    typesMetadata E types s0 = (Ok r, s1) ->
    mapM (fun type => getTypeMetadata E type (staticTypeModuleUrl type) None)
      (flattenArray (default [] types) []) s0 = (Ok r, s1)).
  { intros [l|] s0 r s1; simpl; [auto|]. now intros [= <- <-]. }
  split.
  { destruct (am_providers meta); simpl; [exact Hp|]. now injection Hp as <- <-. }
  repeat split; auto.
Qed.

(** The loop over the nested modules calls [getAppModuleMetadata] for
    each of them, one after the other, and pushes what the calls return. *)
Lemma forEachM_nested fuel types acc s lists s' :
  forEachM (fun acc moduleType =>
      meta <- getAppModuleMetadata E fuel moduleType None ;;
      ret (pushModule acc meta)) types acc s = (Ok lists, s') ->
  exists nested,
    mapM (fun t => getAppModuleMetadata E fuel t None) types s = (Ok nested, s') /\
    lists = fold_left pushModule nested acc.
Proof.
  revert acc s. induction types as [|t types IH]; intros acc s.
  - intros [= <- <-]. now exists [].
  - change (forEachM ?f (t :: types) acc) with
      (acc' <- f acc t ;; forEachM f types acc').
    intros H. apply bind_Ok in H as (acc' & s1 & Hstep & H).
    apply bind_Ok in Hstep as (n & s0 & Hn & Hstep). injection Hstep as <- <-.
    destruct (IH _ _ H) as (nested & Hnested & ->).
    exists (n :: nested). split; [|reflexivity].
    rewrite mapM_cons, (bind_eq_Ok _ _ _ _ _ Hn), (bind_eq_Ok _ _ _ _ _ Hnested).
    reflexivity.
Qed.

Lemma nested_forEachM fuel types acc s nested s' :
  mapM (fun t => getAppModuleMetadata E fuel t None) types s = (Ok nested, s') ->
  forEachM (fun acc moduleType =>
      meta <- getAppModuleMetadata E fuel moduleType None ;;
      ret (pushModule acc meta)) types acc s =
    (Ok (fold_left pushModule nested acc), s').
Proof.
  revert acc s nested. induction types as [|t types IH]; intros acc s nested.
  - now intros [= <- <-].
  - rewrite mapM_cons. intros H.
    apply bind_Ok in H as (n & s1 & Hn & H).
    apply bind_Ok in H as (ns & s2 & Hns & H). injection H as <- <-.
    change (forEachM ?f (t :: types) acc) with
      (acc' <- f acc t ;; forEachM f types acc').
    cbv beta. rewrite bind_assoc, (bind_eq_Ok _ _ _ _ _ Hn), bind_ret.
    exact (IH _ _ _ Hns).
Qed.

(** After the calls for the nested modules, each result is the object
    cached for its module type. *)
Lemma nested_cached fuel types s nested s' :
  mapM (fun t => getAppModuleMetadata E fuel t None) types s = (Ok nested, s') ->
  Forall2 (fun t n => _appModuleCache s' !! resolveForwardRef t = Some n)
    types nested.
Proof.
  intros Hrun.
  refine (mapM_Forall2_kept modulesKept
            (fun t => getAppModuleMetadata E fuel t None)
            (fun t n s0 => _appModuleCache s0 !! resolveForwardRef t = Some n)
            types _ _ _ s nested s' Hrun).
  - intros t s0. apply getAppModuleMetadata_modulesKept.
  - intros t s0 n s1. apply getAppModuleMetadata_stored.
  - intros t n s0 s1 Hn Hkept. eapply lookup_weaken; [exact Hn|exact Hkept].
Qed.

(** The metadata computed for a module is made of its own declarations
    and of the metadata of each module it nests, in the order of
    [flattenArray] and with every repetition. *)
Lemma compileModule_flattened fuel moduleType meta useCache s r s' :
  compileModule E fuel moduleType meta useCache s = (Ok r, s') ->
  exists own nested s1 s2,
    declares E meta s own s1 /\
    mapM (fun t => getAppModuleMetadata E fuel t None) (nestedTypes meta) s1 =
      (Ok nested, s2) /\
    Forall2 (fun t n => _appModuleCache s2 !! resolveForwardRef t = Some n)
      (nestedTypes meta) nested /\
    flattened r own nested.
Proof.
  unfold compileModule. intros H.
  apply bind_Ok in H as (own & s1 & Hown & H).
  apply bind_Ok in H as (lists & s2 & Hlists & H).
  apply bind_Ok in H as (type & s3 & _ & H).
  apply bind_Ok in H as (objectId & s4 & _ & H).
  apply bind_Ok in H as (? & s5 & _ & H). injection H as <- <-.
  rewrite nestedMetadata_types in Hlists.
  apply forEachM_nested in Hlists as (nested & Hnested & ->).
  exists own, nested, s1, s2.
  split; [now apply ownMetadata_declares|]. split; [exact Hnested|].
  split; [exact (nested_cached _ _ _ _ _ Hnested)|].
  destruct (fold_pushModule nested own) as (Hm & Hp & Hd & Hpi & Hpr).
  unfold flattened. simpl.
  rewrite Hm, Hp, Hd, Hpi, Hpr, (ownMetadata_modules E _ _ _ _ Hown).
  now repeat split.
Qed.

(** A module that is not cached is resolved as soon as its own
    declarations and its nested modules are; it is cached then. *)
Lemma module_with_nested fuel moduleType meta s own s1 nested s2 :
  annotated E moduleType meta -> resolvable E moduleType meta ->
  _appModuleCache s !! moduleType = None ->
  ownMetadata E meta s = (Ok own, s1) ->
  mapM (fun t => getAppModuleMetadata E fuel t None) (nestedTypes meta) s1 =
    (Ok nested, s2) ->
  exists r s',
    getAppModuleMetadata E (S fuel) moduleType None s = (Ok r, s') /\
    flattened r own nested /\ ct_runtime (cam_type r) = moduleType /\
    _appModuleCache s' = <[moduleType := r]> (_appModuleCache s2).
Proof.
  intros (Hplain & _ & Hann) [_ Htype] Hmiss Hown Hnested.
  rewrite getAppModuleMetadata_unfold. cbv zeta. rewrite Hplain, Hmiss, Hann.
  unfold compileModule.
  destruct (Htype s2) as (type & s3 & Hrun3).
  assert (Hrun2 : nestedMetadata E fuel meta own s1 =
                    (Ok (fold_left pushModule nested own), s2)).
  { rewrite nestedMetadata_types. now apply nested_forEachM. }
  rewrite (bind_eq_Ok _ _ _ _ _ Hown), (bind_eq_Ok _ _ _ _ _ Hrun2),
    (bind_eq_Ok _ _ _ _ _ Hrun3).
  eexists _, _. split; [reflexivity|]. split; [|split].
  - destruct (fold_pushModule nested own) as (Hm & Hp & Hd & Hpi & Hpr).
    unfold flattened. simpl.
    rewrite Hm, Hp, Hd, Hpi, Hpr, (ownMetadata_modules E _ _ _ _ Hown).
    now repeat split.
  - simpl. rewrite (getTypeMetadata_runtime E _ _ _ _ _ _ Hrun3). exact Hplain.
  - simpl. pose proof (getTypeMetadata_sameModules E moduleType
      (staticTypeModuleUrl moduleType) None s2) as Hsame.
    rewrite Hrun3 in Hsame. simpl in Hsame. unfold sameModules in Hsame.
    now rewrite Hsame.
Qed.

Lemma ownMetadata_runs moduleType meta s :
  resolvable E moduleType meta ->
  exists own s1,
    ownMetadata E meta s = (Ok own, s1) /\
    _appModuleCache s1 = _appModuleCache s.
Proof.
  intros [Hown _]. destruct (Hown s) as (own & s1 & Hrun).
  exists own, s1. split; [exact Hrun|].
  pose proof (ownMetadata_sameModules E meta s) as Hsame.
  now rewrite Hrun in Hsame.
Qed.

(** A module [B] that nests a module [C] that nests none. *)
Lemma module_pair B C mb mc fuel s :
  annotated E B mb -> nestedTypes mb = [C] -> resolvable E B mb ->
  annotated E C mc -> nestedTypes mc = [] -> resolvable E C mc ->
  _appModuleCache s !! B = None -> _appModuleCache s !! C = None ->
  exists rb rc lb lc s2 s3 s5,
    getAppModuleMetadata E (2 + fuel) B None s = (Ok rb, s5) /\
    ownMetadata E mb s = (Ok lb, s2) /\ ownMetadata E mc s2 = (Ok lc, s3) /\
    flattened rb lb [rc] /\ flattened rc lc [] /\
    ct_runtime (cam_type rb) = B /\ ct_runtime (cam_type rc) = C /\
    _appModuleCache s5 !! B = Some rb.
Proof.
  intros HB HnB HrB HC HnC HrC HmissB HmissC.
  destruct (ownMetadata_runs B mb s HrB) as (lb & s2 & Hlb & Hs2).
  destruct (ownMetadata_runs C mc s2 HrC) as (lc & s3 & Hlc & Hs3).
  destruct (module_with_nested fuel C mc s2 lc s3 [] s3 HC HrC)
    as (rc & s4 & HrunC & HflatC & HrtC & _);
    [now rewrite Hs2|exact Hlc|now rewrite HnC|].
  destruct (module_with_nested (1 + fuel) B mb s lb s2 [rc] s4 HB HrB HmissB Hlb)
    as (rb & s5 & HrunB & HflatB & HrtB & Hcache).
  { destruct HC as (HplainC & _). rewrite HnB, mapM_cons.
    now rewrite (bind_eq_Ok _ _ _ _ _ HrunC). }
  exists rb, rc, lb, lc, s2, s3, s5. repeat split; try assumption;
    try apply HflatB; try apply HflatC.
  rewrite Hcache. apply lookup_insert_eq.
Qed.

End Flattening.

(** C4 (module flattening).  The metadata [getAppModuleMetadata] computes
    for a module consists of what the annotation of the module declares
    itself, computed first, and of the metadata of every module it nests:
    the nested modules are resolved by one call each, one after the
    other in the order of [flattenArray] and once for every occurrence,
    and what a call returns is the object cached for the nested type.
    The result lists, for each of these calls in order, the type of the
    nested module followed by its own modules; and its providers,
    directives, pipes and precompile lists are those the module declares
    followed by those of the nested modules in the same order.  So for a
    module [A] that nests [B], which nests [C], none of them cached,
    [getAppModuleMetadata] returns for [A] the modules [B; C] and the
    lists of [A], then [B], then [C]; and when [A] nests [B] twice, it
    returns the modules [B; C; B; C] and the lists of [B] and [C] twice. *)
Theorem module_flattening E :
  (forall fuel moduleType meta s r s',
     getAppModuleMetadata E fuel moduleType meta s = (Ok r, s') ->
     (meta = None /\
      _appModuleCache s !! resolveForwardRef moduleType = Some r /\ s' = s) \/
     exists ann own nested fuel' s1 s2,
       fuel = S fuel' /\
       match meta with
       | Some supplied => ann = supplied
       | None =>
           findAppModule (annotations E (resolveForwardRef moduleType)) = Some ann
       end /\
       declares E ann s own s1 /\
       mapM (fun t => getAppModuleMetadata E fuel' t None) (nestedTypes ann) s1 =
         (Ok nested, s2) /\
       Forall2 (fun t n => _appModuleCache s2 !! resolveForwardRef t = Some n)
         (nestedTypes ann) nested /\
       cam_modules r = flat_map (fun n => cam_type n :: cam_modules n) nested /\
       cam_providers r = ml_providers own ++ flat_map cam_providers nested /\
       cam_directives r = ml_directives own ++ flat_map cam_directives nested /\
       cam_pipes r = ml_pipes own ++ flat_map cam_pipes nested /\
       cam_precompile r = ml_precompile own ++ flat_map cam_precompile nested) /\
  (forall A B C ma mb mc fuel s,
     annotated E A ma -> resolvable E A ma ->
     annotated E B mb -> nestedTypes mb = [C] -> resolvable E B mb ->
     annotated E C mc -> nestedTypes mc = [] -> resolvable E C mc ->
     _appModuleCache s !! A = None -> _appModuleCache s !! B = None ->
     _appModuleCache s !! C = None ->
     exists la lb lc s1 s2 s3,
       declares E ma s la s1 /\ declares E mb s1 lb s2 /\
       declares E mc s2 lc s3 /\
       (nestedTypes ma = [B] ->
        exists r s',
          getAppModuleMetadata E (3 + fuel) A None s = (Ok r, s') /\
          List.map ct_runtime (cam_modules r) = [B; C] /\
          cam_providers r = ml_providers la ++ ml_providers lb ++ ml_providers lc /\
          cam_directives r =
            ml_directives la ++ ml_directives lb ++ ml_directives lc /\
          cam_pipes r = ml_pipes la ++ ml_pipes lb ++ ml_pipes lc /\
          cam_precompile r =
            ml_precompile la ++ ml_precompile lb ++ ml_precompile lc) /\
       (nestedTypes ma = [B; B] ->
        exists r s',
          getAppModuleMetadata E (3 + fuel) A None s = (Ok r, s') /\
          List.map ct_runtime (cam_modules r) = [B; C; B; C] /\
          cam_providers r =
            ml_providers la ++ ml_providers lb ++ ml_providers lc ++
            ml_providers lb ++ ml_providers lc /\
          cam_directives r =
            ml_directives la ++ ml_directives lb ++ ml_directives lc ++
            ml_directives lb ++ ml_directives lc /\
          cam_pipes r =
            ml_pipes la ++ ml_pipes lb ++ ml_pipes lc ++
            ml_pipes lb ++ ml_pipes lc /\
          cam_precompile r =
            ml_precompile la ++ ml_precompile lb ++ ml_precompile lc ++
            ml_precompile lb ++ ml_precompile lc)).
Proof.
  split.
  - intros [|fuel] moduleType meta s r s'; [discriminate|].
    rewrite getAppModuleMetadata_unfold. cbv zeta.
    assert (fresh : forall ann useCache,
      match meta with
      | Some supplied => ann = supplied
      | None =>
          findAppModule (annotations E (resolveForwardRef moduleType)) = Some ann
      end ->
      compileModule E fuel (resolveForwardRef moduleType) ann useCache s = (Ok r, s') ->
      exists ann own nested fuel' s1 s2,
        S fuel = S fuel' /\
        match meta with
        | Some supplied => ann = supplied
        | None =>
            findAppModule (annotations E (resolveForwardRef moduleType)) = Some ann
        end /\
        declares E ann s own s1 /\
        mapM (fun t => getAppModuleMetadata E fuel' t None) (nestedTypes ann) s1 =
          (Ok nested, s2) /\
        Forall2 (fun t n => _appModuleCache s2 !! resolveForwardRef t = Some n)
          (nestedTypes ann) nested /\
        flattened r own nested).
    { intros ann useCache Hann H.
      destruct (compileModule_flattened E _ _ _ _ _ _ _ H)
        as (own & nested & s1 & s2 & Hown & Hnested & Hcached & Hflat).
      now exists ann, own, nested, fuel, s1, s2. }
    destruct (_appModuleCache s !! resolveForwardRef moduleType) eqn:Hkey,
      meta as [meta|].
    + intros H. right. now apply (fresh meta false).
    + intros [= <- <-]. now left.
    + intros H. right. now apply (fresh meta false).
    + destruct (findAppModule _) as [ann|] eqn:Hann; [|discriminate].
      intros H. right. now apply (fresh ann true).
  - intros A B C ma mb mc fuel s HA HrA HB HnB HrB HC HnC HrC HmissA HmissB HmissC.
    destruct (ownMetadata_runs E A ma s HrA) as (la & s1 & Hla & Hs1).
    destruct (module_pair E B C mb mc fuel s1 HB HnB HrB HC HnC HrC)
      as (rb & rc & lb & lc & s2 & s3 & s5 & HrunB & Hlb & Hlc & HflatB & HflatC
          & HrtB & HrtC & HcachedB); [now rewrite Hs1|now rewrite Hs1|].
    exists la, lb, lc, s1, s2, s3.
    split; [now apply ownMetadata_declares|].
    split; [now apply ownMetadata_declares|].
    split; [now apply ownMetadata_declares|].
    destruct HflatB as (Hmb & Hpb & Hdb & Hpib & Hprb).
    destruct HflatC as (Hmc & Hpc & Hdc & Hpic & Hprc).
    split; intros HnA.
    + destruct (module_with_nested E (2 + fuel) A ma s la s1 [rb] s5 HA HrA
                  HmissA Hla) as (r & s' & Hrun & HflatA & _).
      { rewrite HnA, mapM_cons. now rewrite (bind_eq_Ok _ _ _ _ _ HrunB). }
      exists r, s'. split; [exact Hrun|].
      destruct HflatA as (Hm & Hp & Hd & Hpi & Hpr).
      simpl in *. rewrite Hm, Hp, Hd, Hpi, Hpr, Hmb, Hpb, Hdb, Hpib, Hprb,
        Hmc, Hpc, Hdc, Hpic, Hprc. simpl. rewrite !app_nil_r, HrtB, HrtC.
      now repeat split.
    + assert (Hagain : getAppModuleMetadata E (2 + fuel) B None s5 = (Ok rb, s5)).
      { apply getAppModuleMetadata_hit. destruct HB as (-> & _). exact HcachedB. }
      destruct (module_with_nested E (2 + fuel) A ma s la s1 [rb; rb] s5 HA HrA
                  HmissA Hla) as (r & s' & Hrun & HflatA & _).
      { rewrite HnA, mapM_cons, (bind_eq_Ok _ _ _ _ _ HrunB).
        rewrite bind_eq_Ok with (a := [rb]) (s1 := s5); [reflexivity|].
        rewrite mapM_cons. now rewrite (bind_eq_Ok _ _ _ _ _ Hagain). }
      exists r, s'. split; [exact Hrun|].
      destruct HflatA as (Hm & Hp & Hd & Hpi & Hpr).
      simpl in *. rewrite Hm, Hp, Hd, Hpi, Hpr, Hmb, Hpb, Hdb, Hpib, Hprb,
        Hmc, Hpc, Hdc, Hpic, Hprc. simpl.
      rewrite !app_nil_r, <- !app_assoc, HrtB, HrtC. simpl.
      now repeat split.
Qed.

(** * Failures that become null *)

(** C9 (maybeGetDirectiveMetadata).  [maybeGetDirectiveMetadata] returns
    what [getDirectiveMetadata] returns.  When [getDirectiveMetadata]
    throws, whatever step of the resolution threw, the exception is told
    by its message alone: the result is null when the message contains
    [No Directive annotation], and the same exception is thrown otherwise;
    in both cases nothing has been cached.  So the failure of the
    directive resolver for a type that is not cached becomes null when its
    message contains that text; and a null result means no more than that
    the resolution failed with such a message. *)
Theorem maybeGetDirectiveMetadata_spec E (someType : value) (s : Resolver) :
  (forall m s', getDirectiveMetadata E someType s = (Ok m, s') ->
     maybeGetDirectiveMetadata E someType s = (Ok (Some m), s')) /\
  (forall e s', getDirectiveMetadata E someType s = (Throw e, s') ->
     sameCaches s s' /\
     maybeGetDirectiveMetadata E someType s =
       if includes (message e) "No Directive annotation"
       then (Ok None, s') else (Throw e, s')) /\
  (forall e, _directiveCache s !! resolveForwardRef someType = None ->
     _directiveResolver E (resolveForwardRef someType) = Throw e ->
     includes (message e) "No Directive annotation" = true ->
     maybeGetDirectiveMetadata E someType s = (Ok None, s)) /\
  (forall s', maybeGetDirectiveMetadata E someType s = (Ok None, s') <->
     exists e, getDirectiveMetadata E someType s = (Throw e, s') /\
               includes (message e) "No Directive annotation" = true).
Proof.
  pose proof (getDirectiveMetadata_effect E someType s) as Heffect.
  cbv zeta in Heffect.
  assert (Hcatch : maybeGetDirectiveMetadata E someType s =
    match getDirectiveMetadata E someType s with
    | (Ok m, s') => (Ok (Some m), s')
    | (Throw e, s') =>
        if includes (message e) "No Directive annotation"
        then (Ok None, s') else (Throw e, s')
    end).
  { unfold maybeGetDirectiveMetadata, catch, bind, isNoDirectiveAnnotation.
    destruct (getDirectiveMetadata E someType s) as [[m|e] s']; [reflexivity|].
    now destruct (includes (message e) "No Directive annotation"). }
  rewrite Hcatch. clear Hcatch.
  split; [|split; [|split]].
  - now intros m s' ->.
  - intros e s' Hrun. rewrite Hrun in Heffect |- *. split; [apply Heffect|reflexivity].
  - intros e Hmiss Hthrow Hmarked.
    unfold getDirectiveMetadata. rewrite bind_gets, Hmiss.
    unfold bind, call. now rewrite Hthrow, Hmarked.
  - intros s'. destruct (getDirectiveMetadata E someType s) as [[m|e] s1].
    + split; [discriminate|]. now intros (e & [=] & _).
    + destruct (includes (message e) "No Directive annotation") eqn:Hmarked.
      * split.
        -- intros [= <-]. now exists e.
        -- now intros (e' & [= <- <-] & _).
      * split; [discriminate|]. intros (e' & [= <- <-] & ?). congruence.
Qed.

(** * The properties on the third sample program *)

(** C9, as stated, fails: [Mislabelled] is annotated as a directive, the
    resolution fails with the error of an invalid provider, which is not
    the failure of a type that is not annotated, and the error is not
    thrown again: its message quotes the provider, a string that contains
    the text, and the result is null. *)
Lemma annotated_directive_becomes_null :
  (exists dirMeta,
     _directiveResolver Shop.program Shop.Mislabelled = Ok dirMeta) /\
  getDirectiveMetadata Shop.program Shop.Mislabelled newResolver =
    (Throw (BaseException
       "Invalid provider - only instances of Provider and Type are allowed, got: No Directive annotation"),
     newResolver) /\
  maybeGetDirectiveMetadata Shop.program Shop.Mislabelled newResolver =
    (Ok None, newResolver).
Proof.
  split; [now eexists|]. split; vm_compute; reflexivity.
Qed.

(** The amended C9 on the sample program: the pipe is no directive, the
    directive resolver fails for it, and the result is null; for the
    directive the result is its metadata. *)
Lemma maybeGetDirectiveMetadata_spec_witness :
  _directiveCache newResolver !! Sample.Pipe = None /\
  maybeGetDirectiveMetadata Sample.program Sample.Pipe newResolver =
    (Ok None, newResolver) /\
  exists m s',
    getDirectiveMetadata Sample.program Sample.Dir newResolver = (Ok m, s') /\
    maybeGetDirectiveMetadata Sample.program Sample.Dir newResolver =
      (Ok (Some m), s').
Proof.
  split; [reflexivity|]. split.
  - destruct (maybeGetDirectiveMetadata_spec Sample.program Sample.Pipe newResolver)
      as (_ & _ & Hnull & _).
    exact (Hnull (BaseException "No Directive annotation found on T40")
             eq_refl eq_refl eq_refl).
  - destruct (getDirectiveMetadata Sample.program Sample.Dir newResolver)
      as [[m|e] s'] eqn:Hrun; [|vm_compute in Hrun; discriminate].
    exists m, s'. split; [reflexivity|].
    destruct (maybeGetDirectiveMetadata_spec Sample.program Sample.Dir newResolver)
      as (Hreturns & _).
    exact (Hreturns m s' Hrun).
Defined.

(** C4 on the modules of the third sample program: [Mall] nests [Cart],
    which nests [Pay]; and [Shop] nests [Cart] twice. *)
Lemma module_flattening_witness :
  (exists r s',
     getAppModuleMetadata Shop.program 3 Shop.Mall None newResolver = (Ok r, s') /\
     List.map ct_runtime (cam_modules r) = [Shop.Cart; Shop.Pay] /\
     List.map ct_runtime (cam_directives r) = [Sample.Dir] /\
     List.map ct_runtime (cam_pipes r) = [Sample.Pipe] /\
     List.map ct_runtime (cam_precompile r) = [Sample.Cmp] /\
     List.length (cam_providers r) = 3) /\
  (exists r s',
     getAppModuleMetadata Shop.program 3 Shop.Shop None newResolver = (Ok r, s') /\
     List.map ct_runtime (cam_modules r) =
       [Shop.Cart; Shop.Pay; Shop.Cart; Shop.Pay] /\
     List.map ct_runtime (cam_directives r) = [Sample.Dir; Sample.Cmp] /\
     List.map ct_runtime (cam_pipes r) = [Sample.Pipe; Sample.Pipe] /\
     List.map ct_runtime (cam_precompile r) = [Sample.Cmp; Sample.Cmp] /\
     List.length (cam_providers r) = 5).
Proof.
  assert (notes : forall type meta,
    (type = Shop.Mall /\ meta = Shop.moduleMall) \/
    (type = Shop.Shop /\ meta = Shop.moduleShop) \/
    (type = Shop.Cart /\ meta = Shop.moduleCart) \/
    (type = Shop.Pay /\ meta = Shop.modulePay) ->
    annotated Shop.program type meta /\ resolvable Shop.program type meta).
  { intros type meta [[-> ->]|[[-> ->]|[[-> ->]|[-> ->]]]];
      (split; [repeat split|split; intros s; eexists _, s; vm_compute; reflexivity]). }
  destruct (notes Shop.Mall Shop.moduleMall) as [HaM HrM]; [tauto|].
  destruct (notes Shop.Shop Shop.moduleShop) as [HaS HrS]; [tauto|].
  destruct (notes Shop.Cart Shop.moduleCart) as [HaC HrC]; [tauto|].
  destruct (notes Shop.Pay Shop.modulePay) as [HaP HrP]; [tauto|].
  split.
  - destruct (proj2 (module_flattening Shop.program)
                Shop.Mall Shop.Cart Shop.Pay Shop.moduleMall Shop.moduleCart
                Shop.modulePay 0 newResolver HaM HrM HaC eq_refl HrC HaP eq_refl HrP
                eq_refl eq_refl eq_refl)
      as (la & lb & lc & s1 & s2 & s3 & _ & _ & _ & Honce & _).
    destruct (Honce eq_refl) as (r & s' & Hrun & Hmodules & _).
    exists r, s'. split; [exact Hrun|]. split; [exact Hmodules|].
    clear -Hrun. vm_compute in Hrun. injection Hrun as <- _.
    repeat split.
  - destruct (proj2 (module_flattening Shop.program)
                Shop.Shop Shop.Cart Shop.Pay Shop.moduleShop Shop.moduleCart
                Shop.modulePay 0 newResolver HaS HrS HaC eq_refl HrC HaP eq_refl HrP
                eq_refl eq_refl eq_refl)
      as (la & lb & lc & s1 & s2 & s3 & _ & _ & _ & _ & Htwice).
    destruct (Htwice eq_refl) as (r & s' & Hrun & Hmodules & _).
    exists r, s'. split; [exact Hrun|]. split; [exact Hmodules|].
    clear -Hrun. vm_compute in Hrun. injection Hrun as <- _.
    repeat split.
Defined.

(** X16 on two parameters, the first with a token that is a forward
    reference to [null]: the scan finds a token that is not blank, and
    the dependency has the dereferenced token, which is blank. *)
Lemma getDependenciesMetadata_spec_witness :
  let injected := VArray [VInjectMetadata (VForwardRef VNull); VOptionalMetadata] in
  let params := [injected; Sample.ServiceA] in
  exists deps s',
    getDependenciesMetadata Sample.program Sample.A (Some params) newResolver =
      (Ok deps, s') /\
    Forall2 qualified params deps /\
    isBlank (token (scanParam injected)) = false /\
    List.map (fun d => tokenOf (dep_token d)) deps = [VNull; Sample.ServiceA] /\
    List.map dep_isOptional deps = [true; false].
Proof.
  intros injected params.
  pose proof (getDependenciesMetadata_spec Sample.program Sample.A (Some params)
                newResolver) as Hspec.
  cbv zeta in Hspec.
  destruct (getDependenciesMetadata Sample.program Sample.A (Some params) newResolver)
    as [[deps|e] s'] eqn:Hrun; [|vm_compute in Hrun; discriminate].
  exists deps, s'. split; [reflexivity|]. split; [apply Hspec|].
  split; [reflexivity|].
  clear -Hrun. vm_compute in Hrun. injection Hrun as <- _. now split.
Defined.
